(** * gzhttp: the buffering, deciding response writer of [gzhttp/gzip.go]

    A shallow embedding of [GzipResponseWriter] (Write, startGzip,
    startPlain, WriteHeader, Close, Flush), of [atoi] and of the
    Accept-Encoding gate ([acceptsGzip], [parseEncodingGzip],
    [parseCoding]), followed by the properties of the specification that
    were checked against them.

    Conventions.
    - Go's [int] is [Z].  Every [int] the writer computes is a slice length
      or a sum of two slice lengths, and [atoi]'s fast path stays below
      [10^18]; none of them can leave the 64-bit range, so no wrap-around
      is written out.
    - [http.Header] is [map[string][]string]: a [gmap string (list string)].
      [Get], [Set] and [Del] canonicalise their key first; the writer only
      passes the constants below, which are already in canonical form, so
      the canonicalisation is the identity on them.
    - The underlying [http.ResponseWriter] and the [writer.GzipWriter] are
      interfaces.  Every call the writer makes on them is appended to a
      log; what they answer is given by oracles that see the log so far. *)

From Stdlib Require Import ZArith Lia Bool List Ascii String PrimFloat.
From Stdlib.Strings Require Import Byte.
From stdpp Require Import base option list strings gmap.

Local Open Scope string_scope.
Local Open Scope list_scope.
Local Open Scope Z_scope.

Module gzhttp.

(** ** Constants *)

Definition HeaderNoCompression : string := "No-Gzip-Compression".
Definition vary : string := "Vary".
Definition acceptEncoding : string := "Accept-Encoding".
Definition contentEncoding : string := "Content-Encoding".
Definition contentRange : string := "Content-Range".
Definition acceptRanges : string := "Accept-Ranges".
Definition contentType : string := "Content-Type".
Definition contentLength : string := "Content-Length".

Definition DefaultQValue : float := 1%float.
Definition DefaultMinSize : Z := 1024.

(** ** Slices *)

Abbreviation bytes := (list Byte.byte).

Definition len {A : Type} (l : list A) : Z := Z.of_nat (length l).

(** ** http.Header *)

Abbreviation Header := (gmap string (list string)).

(** [h[k]]: the nil slice when the key is missing. *)
Definition Header_values (h : Header) (k : string) : list string :=
  default [] (h !! k).

(** [_, ok := h[k]]. *)
Definition Header_has (h : Header) (k : string) : bool :=
  match h !! k with Some _ => true | None => false end.

(** [h.Get(k)]: the first value of the key, or the empty string. *)
Definition Header_Get (h : Header) (k : string) : string :=
  match h !! k with
  | Some (v :: _) => v
  | _ => ""
  end.

(** [h.Set(k, v)]. *)
Definition Header_Set (h : Header) (k v : string) : Header := <[k := [v]]> h.

(** [h.Del(k)] and [delete(h, k)]. *)
Definition Header_Del (h : Header) (k : string) : Header := delete k h.

(** ** Errors

    An [error] the caller of the writer receives is either the very value
    a downstream call (sink or compressor) returned, [io.ErrShortWrite], or
    a fresh value built by [fmt.Errorf].  A downstream error value is
    identified with its message. *)

Inductive error : Type :=
| Downstream (msg : string)
| ErrShortWrite
| Errorf (msg : string).

(** [err.Error()]. *)
Definition Error (e : error) : string :=
  match e with
  | Downstream m => m
  | ErrShortWrite => "short write"
  | Errorf m => m
  end.

Definition wrap (e : option string) : option error := Downstream <$> e.

(** ** The log of downstream calls

    Calls on the sink carry the header map as it stands at the call: the
    map is shared between handler, writer and sink, and the sink reads it
    when it sends the response head. *)

Inductive event : Type :=
| SinkWriteHeader (code : Z) (h : Header)
| SinkWrite (b : bytes) (h : Header) (n : Z) (err : option string)
| SinkFlush (h : Header)
| GzNew (level : Z)
| GzWrite (b : bytes) (n : Z) (err : option string)
| GzFlush
| GzClose (err : option string).

(** The compressor the factory returned. *)
Inductive GzipWriter : Type := GzW (level : Z).

(** ** GzipResponseWriter *)

Record GzipResponseWriter : Type := mkGRW {
  level : Z;
  gw : option GzipWriter;
  code : Z;
  minSize : Z;
  buf : bytes;
  ignore : bool;
  keepAcceptRanges : bool;
  contentTypeFilter : string -> bool;
  (* the embedded http.ResponseWriter: its header map and the calls made *)
  hdr : Header;
  log : list event
}.

Definition set_gw (g : option GzipWriter) (w : GzipResponseWriter) :=
  mkGRW (level w) g (code w) (minSize w) (buf w) (ignore w)
        (keepAcceptRanges w) (contentTypeFilter w) (hdr w) (log w).
Definition set_code (c : Z) (w : GzipResponseWriter) :=
  mkGRW (level w) (gw w) c (minSize w) (buf w) (ignore w)
        (keepAcceptRanges w) (contentTypeFilter w) (hdr w) (log w).
Definition set_buf (b : bytes) (w : GzipResponseWriter) :=
  mkGRW (level w) (gw w) (code w) (minSize w) b (ignore w)
        (keepAcceptRanges w) (contentTypeFilter w) (hdr w) (log w).
Definition set_ignore (i : bool) (w : GzipResponseWriter) :=
  mkGRW (level w) (gw w) (code w) (minSize w) (buf w) i
        (keepAcceptRanges w) (contentTypeFilter w) (hdr w) (log w).
Definition set_hdr (h : Header) (w : GzipResponseWriter) :=
  mkGRW (level w) (gw w) (code w) (minSize w) (buf w) (ignore w)
        (keepAcceptRanges w) (contentTypeFilter w) h (log w).
Definition emit (e : event) (w : GzipResponseWriter) :=
  mkGRW (level w) (gw w) (code w) (minSize w) (buf w) (ignore w)
        (keepAcceptRanges w) (contentTypeFilter w) (hdr w) (log w ++ [e]).

(** ** The [strings] functions the package calls

    Go strings are byte sequences, here [string].  Unicode is left out:
    [TrimSpace] and [ToLower] are the Go functions on ASCII input. *)

Definition isSpace (c : ascii) : bool :=
  let n := nat_of_ascii c in
  ((9 <=? n)%nat && (n <=? 13)%nat) || (n =? 32)%nat.

Fixpoint TrimLeft (s : string) : string :=
  match s with
  | String c t => if isSpace c then TrimLeft t else s
  | EmptyString => EmptyString
  end.

Fixpoint TrimRight (s : string) : string :=
  match s with
  | String c t =>
      match TrimRight t with
      | EmptyString => if isSpace c then EmptyString else String c EmptyString
      | t' => String c t'
      end
  | EmptyString => EmptyString
  end.

Definition TrimSpace (s : string) : string := TrimRight (TrimLeft s).

Definition lowerByte (c : ascii) : ascii :=
  let n := nat_of_ascii c in
  if ((65 <=? n)%nat && (n <=? 90)%nat) then ascii_of_nat (n + 32) else c.

Fixpoint ToLower (s : string) : string :=
  match s with
  | String c t => String (lowerByte c) (ToLower t)
  | EmptyString => EmptyString
  end.

Fixpoint HasPrefix (s prefix : string) : bool :=
  match prefix, s with
  | EmptyString, _ => true
  | String p ps, String c t => Ascii.eqb c p && HasPrefix t ps
  | String _ _, EmptyString => false
  end.

Fixpoint str_drop (n : nat) (s : string) : string :=
  match n, s with
  | S n', String _ t => str_drop n' t
  | _, _ => s
  end.

Fixpoint str_take (n : nat) (s : string) : string :=
  match n, s with
  | S n', String c t => String c (str_take n' t)
  | _, _ => EmptyString
  end.

Definition TrimPrefix (s prefix : string) : string :=
  if HasPrefix s prefix then str_drop (String.length prefix) s else s.

Fixpoint Contains (s substr : string) : bool :=
  HasPrefix s substr
  || match s with
     | String _ t => Contains t substr
     | EmptyString => false
     end.

(** [strings.IndexByte]: [-1] when the byte does not occur. *)
Fixpoint IndexByte (s : string) (c : ascii) : Z :=
  match s with
  | EmptyString => -1
  | String d t =>
      if Ascii.eqb d c then 0
      else let i := IndexByte t c in if i <? 0 then -1 else i + 1
  end.

(** [strings.Split(s, sep)] for a separator of one byte. *)
Fixpoint Split (s : string) (sep : ascii) : list string :=
  match s with
  | EmptyString => [EmptyString]
  | String c t =>
      if Ascii.eqb c sep then EmptyString :: Split t sep
      else
        match Split t sep with
        | p :: ps => String c p :: ps
        | [] => [String c EmptyString]
        end
  end.

(** ** atoi *)

(** [const intSize = 32 << (^uint(0) >> 63)], on a target whose [uint] has
    [uintBits] bits (64 on the platforms the package is built for). *)
Definition uintBits : Z := 64.
Definition intSize : Z := Z.shiftl 32 (Z.shiftr (2 ^ uintBits - 1) 63).

Definition byte_of (c : ascii) : Z := Z.of_nat (nat_of_ascii c).

(** The digit loop of the fast path; [None] is the early
    [return 0, false].  [ch -= '0'] is a byte subtraction, it wraps. *)
Fixpoint atoi_digits (s : string) (n : Z) : option Z :=
  match s with
  | EmptyString => Some n
  | String c s' =>
      let ch := (byte_of c - 48) mod 256 in
      if 9 <? ch then None else atoi_digits s' (n * 10 + ch)
  end.

Definition first_byte (s : string) : option ascii :=
  match s with String c _ => Some c | EmptyString => None end.

Definition is_byte (o : option ascii) (c : ascii) : bool :=
  match o with Some d => Ascii.eqb d c | None => false end.

(** The functions of the Go library the package calls and whose code is
    not part of it: [http.DetectContentType], [strconv.ParseInt(s, 10, 0)]
    (the slow path of [atoi]), [strconv.ParseFloat(s, 64)], and what
    [fmt]'s [%q] verb prints for a string. *)
Class GoLib : Type := {
  DetectContentType : bytes -> string;
  ParseInt : string -> Z * option string;
  ParseFloat : string -> float * option string;
  Quote : string -> string
}.

(** The sink behind the writer and the compressors its factory returns:
    what they answer to a call, given the calls made so far, and whether
    the sink is an [http.Flusher]. *)
Class Downstreams : Type := {
  sink_Write : list event -> bytes -> Z * option string;
  sink_isFlusher : bool;
  gz_Write : list event -> bytes -> Z * option string;
  gz_Close : list event -> option string
}.

Section Atoi.

Context {L : GoLib}.

Definition atoi (s : string) : Z * bool :=
  let sLen := Z.of_nat (String.length s) in
  if (intSize =? 32) && ((0 <? sLen) && (sLen <? 10))
     || (intSize =? 64) && ((0 <? sLen) && (sLen <? 19)) then
    let s0 := s in
    let signed := is_byte (first_byte s) "-" || is_byte (first_byte s) "+" in
    let s := if signed then match s with String _ t => t | EmptyString => s end
             else s in
    if signed && (Z.of_nat (String.length s) <? 1) then (0, false)
    else
      match atoi_digits s 0 with
      | None => (0, false)
      | Some n =>
          let n := if is_byte (first_byte s0) "-" then - n else n in
          (n, true)
      end
  else
    let '(i64, err) := ParseInt s in
    (i64, match err with None => true | Some _ => false end).

End Atoi.

(** ** The writer's operations *)

Section Writer.

Context {L : GoLib} {D : Downstreams}.

(** [w.ResponseWriter.Write(b)]. *)
Definition rw_Write (w : GzipResponseWriter) (b : bytes)
  : GzipResponseWriter * (Z * option string) :=
  let r := sink_Write (log w) b in
  (emit (SinkWrite b (hdr w) (fst r) (snd r)) w, r).

(** [w.ResponseWriter.WriteHeader(code)]. *)
Definition rw_WriteHeader (w : GzipResponseWriter) (c : Z) : GzipResponseWriter :=
  emit (SinkWriteHeader c (hdr w)) w.

(** [w.gw.Write(b)]. *)
Definition gw_Write (w : GzipResponseWriter) (b : bytes)
  : GzipResponseWriter * (Z * option string) :=
  let r := gz_Write (log w) b in
  (emit (GzWrite b (fst r) (snd r)) w, r).

(** [init]: [w.gw = w.gwFactory.New(w.ResponseWriter, w.level)]. *)
Definition init (w : GzipResponseWriter) : GzipResponseWriter :=
  set_gw (Some (GzW (level w))) (emit (GzNew (level w)) w).

(** The check both commits make on the result of writing the buffer. *)
Definition short_write (n : Z) (err : option string) (l : Z) : option error :=
  match err with
  | None => if n <? l then Some ErrShortWrite else None
  | Some e => Some (Downstream e)
  end.

(** [if w.code != 0 { w.ResponseWriter.WriteHeader(w.code); w.code = 0 }]. *)
Definition flush_code (w : GzipResponseWriter) : GzipResponseWriter :=
  if negb (code w =? 0) then set_code 0 (rw_WriteHeader w (code w)) else w.

Definition startGzip (w : GzipResponseWriter)
  : GzipResponseWriter * option error :=
  let w := set_hdr (Header_Set (hdr w) contentEncoding "gzip") w in
  let w := set_hdr (Header_Del (hdr w) contentLength) w in
  let w := if negb (keepAcceptRanges w)
           then set_hdr (Header_Del (hdr w) acceptRanges) w else w in
  let w := flush_code w in
  if 0 <? len (buf w) then
    let w := init w in
    let '(w, (n, err)) := gw_Write w (buf w) in
    let err := short_write n err (len (buf w)) in
    (set_buf [] w, err)
  else (w, None).

Definition startPlain (w : GzipResponseWriter)
  : GzipResponseWriter * option error :=
  let w := flush_code w in
  let w := set_hdr (Header_Del (hdr w) HeaderNoCompression) w in
  let w := set_ignore true w in
  if len (buf w) =? 0 then (w, None)
  else
    let '(w, (n, err)) := rw_Write w (buf w) in
    let err := short_write n err (len (buf w)) in
    (set_buf [] w, err).

Definition WriteHeader (w : GzipResponseWriter) (c : Z) : GzipResponseWriter :=
  if code w =? 0 then set_code c w else w.

(** The tail of [Write] reached when the response is not to be
    compressed: [startPlain], then the remainder. *)
Definition Write_plain (w : GzipResponseWriter) (b remain : bytes)
  : GzipResponseWriter * (Z * option error) :=
  let '(w, err) := startPlain w in
  match err with
  | Some e => (w, (0, Some e))
  | None =>
      if 0 <? len remain then
        let '(w, (_, err)) := rw_Write w remain in
        match err with
        | Some e => (w, (0, Some (Downstream e)))
        | None => (w, (len b, None))
        end
      else (w, (len b, None))
  end.

(** The branch of [Write] that starts the compressor. *)
Definition Write_gzip (w : GzipResponseWriter) (b remain : bytes)
  : GzipResponseWriter * (Z * option error) :=
  let '(w, err) := startGzip w in
  match err with
  | Some e => (w, (0, Some e))
  | None =>
      if 0 <? len remain then
        let '(w, (_, err)) := gw_Write w remain in
        match err with
        | Some e => (w, (0, Some (Downstream e)))
        | None => (w, (len b, None))
        end
      else (w, (len b, None))
  end.

(** The guard on the headers the handler has set so far. *)
Definition headers_allow (h : Header) : bool :=
  (len (Header_values h HeaderNoCompression) =? 0)
  && String.eqb (Header_Get h contentEncoding) ""
  && String.eqb (Header_Get h contentRange) "".

Definition Write (w : GzipResponseWriter) (b : bytes)
  : GzipResponseWriter * (Z * option error) :=
  match gw w with
  | Some _ =>
      let '(w, (n, err)) := gw_Write w b in (w, (n, wrap err))
  | None =>
      if ignore w then
        let '(w, (n, err)) := rw_Write w b in (w, (n, wrap err))
      else
        let wantBuf := 512 in
        let wantBuf := if wantBuf <? minSize w then minSize w else wantBuf in
        let toAdd := len b in
        let toAdd := if wantBuf <? len (buf w) + toAdd
                     then wantBuf - len (buf w) else toAdd in
        let w := set_buf (buf w ++ take (Z.to_nat toAdd) b) w in
        let remain := drop (Z.to_nat toAdd) b in
        if headers_allow (hdr w) then
          let cl := fst (atoi (Header_Get (hdr w) contentLength)) in
          let ct := Header_Get (hdr w) contentType in
          if (cl =? 0)
             || (minSize w <=? cl)
                && (String.eqb ct "" || contentTypeFilter w ct) then
            if (len (buf w) <? minSize w) && (cl =? 0) then
              (w, (len b, None))
            else if (minSize w <=? cl) || (minSize w <=? len (buf w)) then
              let ct := if String.eqb ct "" then DetectContentType (buf w)
                        else ct in
              let w := if negb (Header_has (hdr w) contentType)
                       then set_hdr (Header_Set (hdr w) contentType ct) w
                       else w in
              if contentTypeFilter w ct then Write_gzip w b remain
              else Write_plain w b remain
            else Write_plain w b remain
          else Write_plain w b remain
        else Write_plain w b remain
  end.

Definition errorf_close (e : error) : error :=
  Errorf ("gziphandler: write to regular responseWriter at close gets error: "
          +:+ Quote (Error e)).

Definition Close (w : GzipResponseWriter) : GzipResponseWriter * option error :=
  if ignore w then (w, None)
  else
    match gw w with
    | None =>
        let '(w, err) := startPlain w in
        (w, errorf_close <$> err)
    | Some _ =>
        let err := gz_Close (log w) in
        let w := emit (GzClose err) w in
        (set_gw None w, wrap err)
    end.

(** The last two statements of [Flush]. *)
Definition Flush_forward (w : GzipResponseWriter) : GzipResponseWriter :=
  let w := match gw w with Some _ => emit GzFlush w | None => w end in
  if sink_isFlusher then emit (SinkFlush (hdr w)) w else w.

Definition Flush (w : GzipResponseWriter) : GzipResponseWriter :=
  if match gw w with None => true | Some _ => false end && negb (ignore w) then
    if len (buf w) =? 0 then w
    else
      let cl := fst (atoi (Header_Get (hdr w) contentLength)) in
      let ct := Header_Get (hdr w) contentType in
      let ce := Header_Get (hdr w) contentEncoding in
      let cr := Header_Get (hdr w) contentRange in
      let '(w, ct) :=
        if String.eqb ct "" then
          let ct := DetectContentType (buf w) in
          (if negb (Header_has (hdr w) contentType)
           then set_hdr (Header_Set (hdr w) contentType ct) w else w, ct)
        else (w, ct) in
      let cl := if cl =? 0 then minSize w else cl in
      let w :=
        if (len (Header_values (hdr w) HeaderNoCompression) =? 0)
           && String.eqb ce "" && String.eqb cr ""
           && (minSize w <=? cl) && contentTypeFilter w ct
        then fst (startGzip w)
        else fst (startPlain w) in
      Flush_forward w
  else Flush_forward w.

(** ** A request served through the writer

    What a handler can do with the writer it is handed: the four methods,
    and edits of the header map it shares with the writer and the sink. *)

Inductive call : Type :=
| CallWrite (b : bytes)
| CallWriteHeader (c : Z)
| CallFlush
| CallClose
| CallHeader (f : Header -> Header).

Definition step (w : GzipResponseWriter) (c : call) : GzipResponseWriter :=
  match c with
  | CallWrite b => fst (Write w b)
  | CallWriteHeader c => WriteHeader w c
  | CallFlush => Flush w
  | CallClose => fst (Close w)
  | CallHeader f => set_hdr (f (hdr w)) w
  end.

Definition run (cs : list call) (w : GzipResponseWriter) : GzipResponseWriter :=
  fold_left step cs w.

(** Successive [Write] calls, with what each returned. *)
Fixpoint Writes (w : GzipResponseWriter) (bs : list bytes)
  : GzipResponseWriter * list (Z * option error) :=
  match bs with
  | [] => (w, [])
  | b :: bs' =>
      let '(w1, r) := Write w b in
      let '(w2, rs) := Writes w1 bs' in
      (w2, r :: rs)
  end.

(** ** The decision of [Write] and [Flush], piece by piece

    [Write] and [Flush] take their decision inline.  The definitions below
    name its pieces; [Write_undecided] and [Flush_undecided] show that the
    two functions above compute exactly these. *)

(** Neither decided for the compressor nor for the plain path. *)
Definition undecided (w : GzipResponseWriter) : Prop :=
  gw w = None /\ ignore w = false.

(** Committed to the plain path. *)
Definition plain (w : GzipResponseWriter) : Prop :=
  ignore w = true /\ gw w = None.

(** [wantBuf]: the cap of the buffer. *)
Definition cap (w : GzipResponseWriter) : Z :=
  if 512 <? minSize w then minSize w else 512.

(** [toAdd]: how many bytes of [b] go into the buffer. *)
Definition toAdd (w : GzipResponseWriter) (b : bytes) : Z :=
  if cap w <? len (buf w) + len b then cap w - len (buf w) else len b.

(** The writer once [b[:toAdd]] is appended to the buffer, and [remain]. *)
Definition absorb (w : GzipResponseWriter) (b : bytes) : GzipResponseWriter :=
  set_buf (buf w ++ take (Z.to_nat (toAdd w b)) b) w.
Definition remainder (w : GzipResponseWriter) (b : bytes) : bytes :=
  drop (Z.to_nat (toAdd w b)) b.

(** [cl]: the declared Content-Length, 0 when absent or unparseable. *)
Definition declared_length (w : GzipResponseWriter) : Z :=
  fst (atoi (Header_Get (hdr w) contentLength)).

(** The declared length, or [minSize] when none is declared. *)
Definition assumed_length (w : GzipResponseWriter) : Z :=
  if declared_length w =? 0 then minSize w else declared_length w.

(** The effective content type: the declared one, else the one sniffed
    from the buffer. *)
Definition effective_type (w : GzipResponseWriter) : string :=
  if String.eqb (Header_Get (hdr w) contentType) ""
  then DetectContentType (buf w) else Header_Get (hdr w) contentType.

(** The effective type is recorded when the key is not in the map. *)
Definition note_type (w : GzipResponseWriter) : GzipResponseWriter :=
  if negb (Header_has (hdr w) contentType)
  then set_hdr (Header_Set (hdr w) contentType (effective_type w)) w else w.

(** The wait branch of [Write]. *)
Definition waits (w : GzipResponseWriter) : bool :=
  headers_allow (hdr w) && (declared_length w =? 0)
  && (len (buf w) <? minSize w).

(** The eligibility test, on a length [cl]. *)
Definition eligible (w : GzipResponseWriter) (cl : Z) : bool :=
  headers_allow (hdr w) && (minSize w <=? cl)
  && contentTypeFilter w (effective_type w).

(** What holds of the writer in every state a request can bring it to
    ([run_wf]): the buffer stays within its cap, and it is empty once the
    writer has decided. *)
Definition wf (w : GzipResponseWriter) : Prop :=
  len (buf w) <= cap w
  /\ (gw w <> None -> buf w = [] /\ ignore w = false)
  /\ (ignore w = true -> buf w = []).

End Writer.

(** Used for functional configuration. *)
Record config : Type := mkConfig {
  c_minSize : Z;
  c_level : Z;
  c_contentTypes : string -> bool;
  c_keepAcceptRanges : bool
}.

(** The writer [NewWrapper]'s handler builds for a request that passes the
    gate; the recycled buffer is truncated to length zero. *)
Definition newWriter (c : config) (h : Header) : GzipResponseWriter :=
  mkGRW (c_level c) None 0 (c_minSize c) [] false
        (c_keepAcceptRanges c) (c_contentTypes c) h [].

(** ** Reading the log *)

(** The bytes handed to the compressor, in order. *)
Fixpoint gz_fed (l : list event) : bytes :=
  match l with
  | [] => []
  | GzWrite b _ _ :: l' => b ++ gz_fed l'
  | _ :: l' => gz_fed l'
  end.

(** The bytes the writer itself handed to the sink, in order. *)
Fixpoint sink_fed (l : list event) : bytes :=
  match l with
  | [] => []
  | SinkWrite b _ _ _ :: l' => b ++ sink_fed l'
  | _ :: l' => sink_fed l'
  end.

(** The status codes committed on the sink, in order. *)
Fixpoint status_commits (l : list event) : list Z :=
  match l with
  | [] => []
  | SinkWriteHeader c _ :: l' => c :: status_commits l'
  | _ :: l' => status_commits l'
  end.

Definition is_gz (e : event) : bool :=
  match e with
  | GzNew _ | GzWrite _ _ _ | GzFlush | GzClose _ => true
  | _ => false
  end.

(** The calls made on the compressor and its factory. *)
Definition gz_events (l : list event) : list event := List.filter is_gz l.

(** The error a logged call returned, if any. *)
Definition event_err (e : event) : option string :=
  match e with
  | SinkWrite _ _ _ err | GzWrite _ _ err | GzClose err => err
  | _ => None
  end.

(** The header map the response head is sent from, when the first call
    downstream is made on the sink itself: an [http.ResponseWriter] sends
    the head at the first [WriteHeader], [Write] or [Flush], and changes
    made to the map afterwards have no effect. *)
Definition head_sent (l : list event) : option Header :=
  match l with
  | SinkWriteHeader _ h :: _ | SinkWrite _ h _ _ :: _ | SinkFlush h :: _ => Some h
  | _ => None
  end.

(** ** The content-type filters *)

Definition excludePrefixDefault : list string := ["video/"; "audio/"].
Definition excludeContainsDefault : list string := ["compress"; "zip"].

Definition DefaultContentTypeFilter (ct : string) : bool :=
  let ct := TrimSpace (ToLower ct) in
  if String.eqb ct "" then true
  else if existsb (Contains ct) excludeContainsDefault then false
  else if existsb (HasPrefix ct) excludePrefixDefault then false
  else true.

Definition CompressAllContentTypeFilter (ct : string) : bool := true.

(** ** The Accept-Encoding gate *)

Record Request : Type := mkRequest {
  Method : string;
  ReqHeader : Header
}.

Definition MethodHead : string := "HEAD".

Section Gate.

Context {L : GoLib}.

(** One round of the loop of [parseCoding], on part number [n]. *)
Definition parseCoding_part (n : nat) (part : string)
  (st : string * float * option error) : string * float * option error :=
  let '(coding, qvalue, err) := st in
  let part := TrimSpace part in
  let qvalue := DefaultQValue in
  if (n =? 0)%nat then (ToLower part, qvalue, err)
  else if HasPrefix part "q=" then
    let '(qvalue, e) := ParseFloat (TrimPrefix part "q=") in
    let qvalue :=
      if PrimFloat.ltb qvalue 0%float then 0%float
      else if PrimFloat.ltb 1%float qvalue then 1%float
      else qvalue in
    (coding, qvalue, wrap e)
  else (coding, qvalue, err).

Fixpoint parseCoding_loop (n : nat) (parts : list string)
  (st : string * float * option error) : string * float * option error :=
  match parts with
  | [] => st
  | part :: parts' => parseCoding_loop (S n) parts' (parseCoding_part n part st)
  end.

Definition parseCoding (s : string) : string * float * option error :=
  let '(coding, qvalue, err) :=
    parseCoding_loop 0 (Split s ";") ("", 0%float, None) in
  let err := if String.eqb coding ""
             then Some (Errorf "empty content-coding") else err in
  (coding, qvalue, err).

(** The loop of [parseEncodingGzip]; each round shortens [s], so
    [S (length s)] rounds are enough ([parseEncodingGzip_loop_total]). *)
Fixpoint parseEncodingGzip_loop (fuel : nat) (s : string) : option float :=
  match fuel with
  | O => None
  | S fuel' =>
      if (0 <? String.length s)%nat then
        let stop := IndexByte s "," in
        let stop := if stop <? 0 then Z.of_nat (String.length s) else stop in
        let '(coding, qvalue, _) := parseCoding (str_take (Z.to_nat stop) s) in
        if String.eqb coding "gzip" then Some qvalue
        else if stop =? Z.of_nat (String.length s) then Some 0%float
        else parseEncodingGzip_loop fuel' (str_drop (Z.to_nat (stop + 1)) s)
      else Some 0%float
  end.

Definition parseEncodingGzip (s : string) : float :=
  let s := TrimSpace s in
  default 0%float (parseEncodingGzip_loop (S (String.length s)) s).

Definition acceptsGzip (r : Request) : bool :=
  negb (String.eqb (Method r) MethodHead)
  && PrimFloat.ltb 0%float
       (parseEncodingGzip (Header_Get (ReqHeader r) acceptEncoding)).

End Gate.

(** ** [parseEncodings] *)

(** [strings.Join]. *)
Fixpoint Join (elems : list string) (sep : string) : string :=
  match elems with
  | [] => ""
  | [e] => e
  | e :: rest => e +:+ sep +:+ Join rest sep
  end.

Section Encodings.

Context {L : GoLib}.

(** One round of the loop of [parseEncodings], on the map and the error
    messages collected so far. *)
Definition parseEncodings_part (st : gmap string float * list string)
  (ss : string) : gmap string float * list string :=
  let '(c, e) := st in
  let '(coding, qvalue, err) := parseCoding ss in
  match err with
  | Some er => (c, e ++ [Error er])
  | None => (<[coding := qvalue]> c, e)
  end.

Definition parseEncodings (s : string) : gmap string float * option error :=
  let split := Split s "," in
  let '(c, e) := fold_left parseEncodings_part split (∅, []) in
  if (0 <? length e)%nat
  then (c, Some (Errorf ("errors while parsing encodings: " +:+ Join e ", ")))
  else (c, None).

End Encodings.

(** ** Content-type lists *)

(** Parsed representation of one of the inputs to [ContentTypes]. *)
Record parsedContentType : Type := mkPCT {
  mediaType : string;
  params : gmap string string
}.

(** [pct.equals(mediaType, params)].  The loop over [pct.params] stops at
    the first parameter the other side lacks or has with another value; the
    order in which Go visits the map does not change the result. *)
Definition equals (pct : parsedContentType) (mediaType' : string)
  (params' : gmap string string) : bool :=
  if negb (String.eqb (mediaType pct) mediaType') then false
  else if (size (params pct) =? 0)%nat then true
  else if negb (size (params pct) =? size params')%nat then false
  else forallb (fun kv => match params' !! fst kv with
                          | Some w => String.eqb (snd kv) w
                          | None => false
                          end)
               (map_to_list (params pct)).

(** [mime.ParseMediaType] of the Go library: media type, parameters and
    error. *)
Class Mime : Type := {
  ParseMediaType : string -> string * gmap string string * option string
}.

Section ContentTypes.

Context {M : Mime}.

Definition handleContentType (contentTypes : list parsedContentType)
  (ct : string) : bool :=
  if (length contentTypes =? 0)%nat then true
  else
    let '(mediaType, params, err) := ParseMediaType ct in
    match err with
    | Some _ => false
    | None => existsb (fun c => equals c mediaType params) contentTypes
    end.

(** The loop of [ContentTypes] and [ExceptContentTypes]: the entries that
    parse, in order. *)
Definition parseTypes (types : list string) : list parsedContentType :=
  fold_left (fun contentTypes v =>
               let '(mediaType, params, err) := ParseMediaType v in
               match err with
               | None => contentTypes ++ [mkPCT mediaType params]
               | Some _ => contentTypes
               end)
            types [].

(** The options, as functions on the configuration ([Implementation]
    sets the compressor factory, which [config] here does not carry). *)
Definition MinSize (size : Z) (c : config) : config :=
  mkConfig size (c_level c) (c_contentTypes c) (c_keepAcceptRanges c).

Definition CompressionLevel (level : Z) (c : config) : config :=
  mkConfig (c_minSize c) level (c_contentTypes c) (c_keepAcceptRanges c).

Definition ContentTypes (types : list string) (c : config) : config :=
  mkConfig (c_minSize c) (c_level c)
           (fun ct => handleContentType (parseTypes types) ct)
           (c_keepAcceptRanges c).

Definition ExceptContentTypes (types : list string) (c : config) : config :=
  mkConfig (c_minSize c) (c_level c)
           (fun ct => negb (handleContentType (parseTypes types) ct))
           (c_keepAcceptRanges c).

Definition KeepAcceptRanges (c : config) : config :=
  mkConfig (c_minSize c) (c_level c) (c_contentTypes c) true.

Definition ContentTypeFilter (compress : string -> bool) (c : config) : config :=
  mkConfig (c_minSize c) (c_level c) compress (c_keepAcceptRanges c).

End ContentTypes.

(** ** The handler [NewWrapper] returns *)

(** [h.Add(k, v)]. *)
Definition Header_Add (h : Header) (k v : string) : Header :=
  <[k := Header_values h k ++ [v]]> h.

Section Serve.

Context {L : GoLib} {D : Downstreams}.

(** A request through the wrapper: Vary is added to the sink's header map
    [h]; when the gate lets the request in, the handler runs on a fresh
    writer over that map, which the deferred call closes; otherwise the
    handler runs on the sink itself ([None]).  The result is the header map
    the handler starts from and the closed writer. *)
Definition ServeHTTP (c : config) (r : Request) (h : Header)
  (handler : list call)
  : Header * option (GzipResponseWriter * option error) :=
  let h := Header_Add h vary acceptEncoding in
  if acceptsGzip r then (h, Some (Close (run handler (newWriter c h))))
  else (h, None).

End Serve.

(** ** Handlers *)

Definition is_close (c : call) : bool :=
  match c with CallClose => true | _ => false end.

Definition is_write (c : call) : bool :=
  match c with CallWrite _ => true | _ => false end.

Definition is_empty_write (c : call) : bool :=
  match c with CallWrite [] => true | _ => false end.

Definition is_header_edit (c : call) : bool :=
  match c with CallHeader _ => true | _ => false end.

(** The bytes a handler writes, in order. *)
Fixpoint written (cs : list call) : bytes :=
  match cs with
  | [] => []
  | CallWrite b :: cs' => b ++ written cs'
  | _ :: cs' => written cs'
  end.

(** The header keys the writer itself sets or deletes. *)
Definition own_keys : list string :=
  [contentEncoding; contentLength; acceptRanges; contentType;
   HeaderNoCompression].

(** A weight that is neither below 0 nor above 1. *)
Definition in_unit (q : float) : Prop :=
  PrimFloat.ltb q 0%float = false /\ PrimFloat.ltb 1%float q = false.

(** A sink and a compressor that accept every write in full. *)
Definition accepting (D : Downstreams) : Prop :=
  forall l b, sink_Write l b = (len b, None) /\ gz_Write l b = (len b, None).

(** A string of ASCII digits. *)
Definition isDigit (c : ascii) : bool :=
  let n := nat_of_ascii c in ((48 <=? n)%nat && (n <=? 57)%nat).

Fixpoint allDigits (s : string) : bool :=
  match s with
  | EmptyString => true
  | String c t => isDigit c && allDigits t
  end.

(** ** Concrete surroundings for the examples

    A library whose sniffer answers as [http.DetectContentType] does on
    ASCII text, whose [ParseInt] answers as Go's does on the empty string
    (the only string the examples send down the slow path of [atoi]) and
    whose [ParseFloat] knows the two weights the examples use. *)

Definition dquote : string := String (ascii_of_nat 34) EmptyString.

Definition lib_ex : GoLib := {|
  DetectContentType := fun _ => "text/plain; charset=utf-8";
  ParseInt := fun _ => (0, Some "invalid syntax");
  ParseFloat := fun s =>
    if String.eqb s "0" then (0%float, None)
    else if String.eqb s "1" then (1%float, None)
    else (0%float, Some "invalid syntax");
  Quote := fun s => dquote +:+ s +:+ dquote
|}.

(** A sink and a compressor that accept whatever they are given. *)
Definition ideal : Downstreams := {|
  sink_Write := fun _ b => (len b, None);
  sink_isFlusher := true;
  gz_Write := fun _ b => (len b, None);
  gz_Close := fun _ => None
|}.

(** A sink whose connection is gone, and a compressor on top of it. *)
Definition broken : Downstreams := {|
  sink_Write := fun _ _ => (0, Some "broken pipe");
  sink_isFlusher := true;
  gz_Write := fun _ _ => (0, Some "broken pipe");
  gz_Close := fun _ => Some "broken pipe"
|}.

(** [n] bytes of ASCII text. *)
Definition text (n : nat) : bytes := repeat "a"%byte n.

(** A configuration with a small threshold, all content types eligible. *)
Definition cfg_ex : config := mkConfig 4 (-1) CompressAllContentTypeFilter false.

(** ** Vocabulary of the further properties *)

Definition status_first (l : list event) : Prop :=
  status_commits l = []
  \/ exists c h rest, l = SinkWriteHeader c h :: rest /\ status_commits rest = [].

Definition no_close (cs : list call) : bool :=
  forallb (fun c => negb (is_close c)) cs.
Definition no_empty_write (cs : list call) : bool :=
  forallb (fun c => negb (is_empty_write c)) cs.
Definition decided (w : GzipResponseWriter) : Prop :=
  gw w <> None \/ ignore w = true.

(** While the handler has only buffered, nothing has been logged. *)
Definition quiet (w : GzipResponseWriter) : Prop :=
  undecided w /\ log w = [] /\ len (buf w) < cap w.

(** What has happened to the bytes [wr] written so far: still in the
    buffer, or all fed to the compressor, or all handed to the sink. *)
Definition conserved (w : GzipResponseWriter) (wr : bytes) : Prop :=
  (undecided w /\ buf w = wr /\ gz_fed (log w) = [] /\ sink_fed (log w) = [])
  \/ (gw w <> None /\ buf w = [] /\ gz_fed (log w) = wr /\ sink_fed (log w) = [])
  \/ (plain w /\ buf w = [] /\ sink_fed (log w) = wr /\ gz_fed (log w) = []).

(** The calls that use a compressor already built. *)
Definition is_gz_use (e : event) : bool :=
  match e with GzWrite _ _ _ | GzFlush => true | _ => false end.

(** The life of a compressor in a log: none was built, or one was built,
    then written to and flushed, then closed. *)
Definition gz_life (lvl : Z) (l : list event) : Prop :=
  gz_events l = []
  \/ exists mid e,
       gz_events l = GzNew lvl :: mid ++ [GzClose e]
       /\ forallb is_gz_use mid = true.

(** While the handler runs: no compressor and no call on one, or the one
    compressor, built at the writer's level and in use. *)
Definition gz_running (w : GzipResponseWriter) : Prop :=
  (gw w = None /\ gz_events (log w) = [])
  \/ (gw w <> None
      /\ exists mid, gz_events (log w) = GzNew (level w) :: mid
                     /\ forallb is_gz_use mid = true).


(** What the writer may do to the header map: keys other than its own
    keep their values, and so does a Content-Type key the map already
    has. *)
Definition footprint (h h' : Header) : Prop :=
  (forall k, ~ In k own_keys -> h' !! k = h !! k)
  /\ (Header_has h contentType = true -> h' !! contentType = h !! contentType).

(** The name and the weight [parseCoding] reads from an entry. *)
Definition coding_of {L : GoLib} (entry : string) : string :=
  fst (fst (parseCoding entry)).
Definition qvalue_of {L : GoLib} (entry : string) : float :=
  snd (fst (parseCoding entry)).

(** The weight of the first entry named gzip, 0 when there is none. *)
Definition first_gzip {L : GoLib} (entries : list string) : float :=
  match List.find (fun e => String.eqb (coding_of e) "gzip") entries with
  | Some e => qvalue_of e
  | None => 0%float
  end.

(** Handlers that write no body, and handlers that only write and set the
    status. *)
Definition no_body (cs : list call) : bool :=
  forallb (fun c => negb (is_write c) && negb (is_close c)) cs.
Definition only_writes (cs : list call) : bool :=
  forallb (fun c => match c with
                    | CallWrite _ | CallWriteHeader _ => true
                    | _ => false
                    end) cs.

(** The status commit a commit makes, if a code is pending. *)
Definition code_event (w : GzipResponseWriter) : list event :=
  if code w =? 0 then [] else [SinkWriteHeader (code w) (hdr w)].

(** A sink that takes one byte less than it is given and reports no
    error. *)
Definition short : Downstreams := {|
  sink_Write := fun _ b => (len b - 1, None);
  sink_isFlusher := false;
  gz_Write := fun _ b => (len b, None);
  gz_Close := fun _ => None
|}.

(** A string without its leading sign, if it has one. *)
Definition signless (s : string) : string :=
  match s with
  | String c t =>
      if Ascii.eqb c "-" || Ascii.eqb c "+" then t else s
  | EmptyString => EmptyString
  end.

(** The entries of a list of types that [mime.ParseMediaType] accepts. *)
Definition parses {M : Mime} (v : string) : option parsedContentType :=
  let '(mediaType, params, err) := ParseMediaType v in
  match err with
  | None => Some (mkPCT mediaType params)
  | Some _ => None
  end.

(** An entry matches a parsed content type. *)
Definition matches (c : parsedContentType) (mt : string)
  (ps : gmap string string) : Prop :=
  mediaType c = mt /\ (params c = ∅ \/ params c = ps).

(** A media-type parser for the examples: the empty string is refused, as
    by the library, and anything else is taken as a bare type. *)
Definition mime_ex : Mime := {|
  ParseMediaType := fun v =>
    if String.eqb (TrimSpace v) "" then ("", ∅, Some "mime: no media type")
    else (ToLower (TrimSpace v), ∅, None)
|}.

(** A string without white space. *)
Fixpoint solid (s : string) : bool :=
  match s with
  | String c t => negb (isSpace c) && solid t
  | EmptyString => true
  end.

(** Handlers that leave the header map alone. *)
Definition no_edit (cs : list call) : bool :=
  forallb (fun c => negb (is_header_edit c)) cs.

(** A compressor was built. *)
Definition compressed (l : list event) : bool :=
  match gz_events l with [] => false | _ :: _ => true end.

(** What the Accept-Ranges invariant looks at. *)
Definition ar_view (w : GzipResponseWriter)
  : bool * option (list string) * option GzipWriter :=
  (keepAcceptRanges w, hdr w !! acceptRanges, gw w).

(** Accept-Ranges is as the handler found it, unless the writer is
    compressing and was not told to keep it. *)
Definition ar_kept (k : bool) (a : option (list string))
  (w : GzipResponseWriter) : Prop :=
  keepAcceptRanges w = k
  /\ hdr w !! acceptRanges
     = match gw w with Some _ => if k then a else None | None => a end.

(** The headers of a response that is being compressed, and of one that is
    not (yet), given the header map [h0] the handler started from. *)
Definition gzip_headers (h : Header) : Prop :=
  Header_Get h contentEncoding = "gzip"
  /\ h !! contentLength = None
  /\ Header_has h contentType = true.

Definition same_coding (h0 h : Header) : Prop :=
  h !! contentEncoding = h0 !! contentEncoding
  /\ h !! contentLength = h0 !! contentLength.

Definition coded (h0 : Header) (w : GzipResponseWriter) : Prop :=
  match gw w with
  | Some _ => gzip_headers (hdr w)
  | None => same_coding h0 (hdr w)
  end.

(** * Properties *)

Arguments Header_Get : simpl never.
Arguments Header_Set : simpl never.
Arguments Header_Del : simpl never.
Arguments Header_values : simpl never.
Arguments Header_has : simpl never.
Arguments atoi : simpl never.
Arguments len : simpl never.

(** ** Slices *)

Lemma len_nonneg {A : Type} (l : list A) : 0 <= len l.
Proof. unfold len. lia. Qed.

Lemma len_app {A : Type} (l1 l2 : list A) : len (l1 ++ l2) = len l1 + len l2.
Proof. unfold len. rewrite length_app. lia. Qed.

Lemma len_nil {A : Type} : len (@nil A) = 0.
Proof. reflexivity. Qed.

Lemma len_zero_nil {A : Type} (l : list A) : len l = 0 -> l = [].
Proof. destruct l; [reflexivity | unfold len; simpl; lia]. Qed.

Lemma len_take_le {A : Type} (n : Z) (l : list A) :
  0 <= n -> n <= len l -> len (take (Z.to_nat n) l) = n.
Proof. unfold len. intros. rewrite length_take. lia. Qed.

Lemma take_len_all {A : Type} (l : list A) : take (Z.to_nat (len l)) l = l.
Proof. unfold len. rewrite Nat2Z.id. apply firstn_all. Qed.

Lemma drop_len_all {A : Type} (l : list A) : drop (Z.to_nat (len l)) l = [].
Proof. unfold len. rewrite Nat2Z.id. apply drop_all. Qed.

(** ** Reading a log in two parts *)

Lemma gz_fed_app l1 l2 : gz_fed (l1 ++ l2) = gz_fed l1 ++ gz_fed l2.
Proof.
  induction l1 as [| e l1 IH]; [reflexivity |].
  destruct e; simpl; rewrite IH; try reflexivity. apply app_assoc.
Qed.

Lemma sink_fed_app l1 l2 : sink_fed (l1 ++ l2) = sink_fed l1 ++ sink_fed l2.
Proof.
  induction l1 as [| e l1 IH]; [reflexivity |].
  destruct e; simpl; rewrite IH; try reflexivity. apply app_assoc.
Qed.

Lemma status_commits_app l1 l2 :
  status_commits (l1 ++ l2) = status_commits l1 ++ status_commits l2.
Proof.
  induction l1 as [| e l1 IH]; [reflexivity |].
  destruct e; simpl; rewrite IH; reflexivity.
Qed.

Lemma gz_events_app l1 l2 : gz_events (l1 ++ l2) = gz_events l1 ++ gz_events l2.
Proof. apply List.filter_app. Qed.

(** ** The two commits *)

Section Props.

Context {L : GoLib} {D : Downstreams}.

Lemma flush_code_fields w :
  let w' := flush_code w in
  buf w' = buf w /\ gw w' = gw w /\ ignore w' = ignore w /\ code w' = 0
  /\ minSize w' = minSize w /\ hdr w' = hdr w /\ level w' = level w
  /\ contentTypeFilter w' = contentTypeFilter w
  /\ keepAcceptRanges w' = keepAcceptRanges w.
Proof.
  unfold flush_code, rw_WriteHeader.
  destruct (code w =? 0) eqn:E; simpl; repeat split; try reflexivity.
  apply Z.eqb_eq in E. exact E.
Qed.

Lemma startPlain_fields w :
  let w' := fst (startPlain w) in
  buf w' = [] /\ gw w' = gw w /\ ignore w' = true /\ code w' = 0
  /\ minSize w' = minSize w
  /\ hdr w' = Header_Del (hdr w) HeaderNoCompression.
Proof.
  pose proof (flush_code_fields w) as F. simpl in F.
  destruct F as (Fb & Fg & Fi & Fc & Fm & Fh & _).
  unfold startPlain. simpl.
  destruct (len (buf (flush_code w)) =? 0) eqn:E; simpl.
  - apply Z.eqb_eq, len_zero_nil in E. rewrite E, Fg, Fc, Fm, Fh. tauto.
  - unfold rw_Write. simpl.
    destruct (sink_Write _ _) as [n err]; simpl. rewrite Fg, Fc, Fm, Fh. tauto.
Qed.

Lemma startGzip_fields w :
  let w' := fst (startGzip w) in
  buf w' = [] /\ ignore w' = ignore w /\ code w' = 0
  /\ minSize w' = minSize w
  /\ gw w' = (if 0 <? len (buf w) then Some (GzW (level w)) else gw w).
Proof.
  unfold startGzip.
  set (w1 := if negb (keepAcceptRanges _) then _ else _).
  assert (H1 : buf w1 = buf w /\ gw w1 = gw w /\ ignore w1 = ignore w
               /\ minSize w1 = minSize w /\ level w1 = level w).
  { subst w1. simpl. destruct (keepAcceptRanges w); simpl; tauto. }
  destruct H1 as (Hb & Hg & Hi & Hm & Hl).
  pose proof (flush_code_fields w1) as F. simpl in F.
  destruct F as (Fb & Fg & Fi & Fc & Fm & Fh & Fl & _).
  rewrite Fb, Hb.
  destruct (0 <? len (buf w)) eqn:E; simpl.
  - unfold gw_Write, init. simpl.
    destruct (gz_Write _ _) as [n err]; simpl.
    rewrite Fi, Fm, Fl, Hi, Hm, Hl. tauto.
  - rewrite Fb, Fi, Fc, Fm, Fg, Hb, Hi, Hm, Hg.
    assert (buf w = []) as ->; [| tauto].
    apply len_zero_nil. pose proof (len_nonneg (buf w)). lia.
Qed.

Lemma flush_code_log w :
  exists evs, log (flush_code w) = log w ++ evs
    /\ gz_events evs = [] /\ sink_fed evs = [] /\ gz_fed evs = []
    /\ status_commits evs = (if code w =? 0 then [] else [code w])
    /\ Forall (fun e => event_err e = None) evs.
Proof.
  unfold flush_code, rw_WriteHeader. destruct (code w =? 0); simpl.
  - exists []. rewrite app_nil_r. repeat split; constructor.
  - eexists [_]. repeat split. repeat constructor.
Qed.

(** What [startPlain] adds to the log: at most a status commit, then the
    buffer; the error it returns is the one the sink returned. *)
Lemma startPlain_log w :
  exists evs, log (fst (startPlain w)) = log w ++ evs
    /\ gz_events evs = [] /\ sink_fed evs = buf w
    /\ status_commits evs = (if code w =? 0 then [] else [code w])
    /\ (forall e, In e evs -> forall d, event_err e = Some d ->
                 snd (startPlain w) = Some (Downstream d)).
Proof.
  destruct (flush_code_log w) as (evs & Hl & Hgz & Hs & _ & Hc & He).
  destruct (flush_code_fields w) as (Fb & _).
  unfold startPlain. simpl. rewrite Fb.
  destruct (len (buf w) =? 0) eqn:E; simpl.
  - exists evs. rewrite Hl. apply Z.eqb_eq, len_zero_nil in E. rewrite E.
    repeat split; try assumption.
    intros e Hin d Hd. rewrite Forall_forall in He.
    rewrite (He e) in Hd by (apply list_elem_of_In; exact Hin). discriminate.
  - unfold rw_Write. simpl.
    destruct (sink_Write _ _) as [n err] eqn:R; simpl.
    eexists (evs ++ [_]). rewrite Hl, <- app_assoc. split; [reflexivity |].
    rewrite gz_events_app, sink_fed_app, status_commits_app, Hgz, Hs, Hc.
    simpl. rewrite !app_nil_r. repeat split.
    intros e Hin d Hd. apply in_app_or in Hin as [Hin | [<- | []]].
    + rewrite Forall_forall in He.
      rewrite (He e) in Hd by (apply list_elem_of_In; exact Hin). discriminate.
    + simpl in Hd. subst err. reflexivity.
Qed.

(** What [startGzip] adds to the log. *)
Lemma startGzip_log w :
  exists evs, log (fst (startGzip w)) = log w ++ evs
    /\ sink_fed evs = [] /\ gz_fed evs = buf w
    /\ status_commits evs = (if code w =? 0 then [] else [code w])
    /\ (forall e, In e evs -> forall d, event_err e = Some d ->
                 snd (startGzip w) = Some (Downstream d)).
Proof.
  unfold startGzip.
  set (w1 := if negb (keepAcceptRanges _) then _ else _).
  assert (H1 : buf w1 = buf w /\ log w1 = log w /\ code w1 = code w).
  { subst w1. simpl. destruct (keepAcceptRanges w); simpl; tauto. }
  destruct H1 as (Hb & Hlog & Hcode).
  destruct (flush_code_log w1) as (evs & Hl & _ & Hs & Hg & Hc & He).
  destruct (flush_code_fields w1) as (Fb & _).
  rewrite Fb, Hb. rewrite Hlog in Hl. rewrite Hcode in Hc.
  rewrite Forall_forall in He.
  destruct (0 <? len (buf w)) eqn:E; simpl.
  - unfold gw_Write, init. simpl.
    destruct (gz_Write _ _) as [n err] eqn:R; simpl.
    eexists (evs ++ [_; _]). rewrite Hl, <- !app_assoc. split; [reflexivity |].
    rewrite sink_fed_app, gz_fed_app, status_commits_app, Hg, Hs, Hc.
    simpl. rewrite !app_nil_r. rewrite Fb, Hb. repeat split.
    intros e Hin d Hd. apply in_app_or in Hin as [Hin | [<- | [<- | []]]].
    + rewrite (He e) in Hd by (apply list_elem_of_In; exact Hin). discriminate.
    + discriminate.
    + simpl in Hd. subst err. reflexivity.
  - exists evs. rewrite Hl.
    assert (buf w = []) as ->.
    { apply len_zero_nil. pose proof (len_nonneg (buf w)). lia. }
    repeat split; try assumption.
    intros e Hin d Hd.
    rewrite (He e) in Hd by (apply list_elem_of_In; exact Hin). discriminate.
Qed.

Lemma len_pos_nil {A : Type} (l : list A) : (0 <? len l) = false -> l = [].
Proof. intros E. apply len_zero_nil. pose proof (len_nonneg l). lia. Qed.

Lemma Write_plain_fields w b r :
  let w' := fst (Write_plain w b r) in
  buf w' = [] /\ gw w' = gw w /\ ignore w' = true /\ code w' = 0
  /\ minSize w' = minSize w
  /\ hdr w' = Header_Del (hdr w) HeaderNoCompression.
Proof.
  pose proof (startPlain_fields w) as F. simpl in F. unfold Write_plain.
  destruct (startPlain w) as [w1 [e |]]; simpl in *; [exact F |].
  destruct (0 <? len r); [| exact F].
  unfold rw_Write. destruct (sink_Write _ _) as [n [d |]]; simpl; exact F.
Qed.

Lemma Write_gzip_fields w b r :
  let w' := fst (Write_gzip w b r) in
  buf w' = [] /\ ignore w' = ignore w /\ code w' = 0
  /\ minSize w' = minSize w
  /\ gw w' = (if 0 <? len (buf w) then Some (GzW (level w)) else gw w).
Proof.
  pose proof (startGzip_fields w) as F. simpl in F. unfold Write_gzip.
  destruct (startGzip w) as [w1 [e |]]; simpl in *; [exact F |].
  destruct (0 <? len r); [| exact F].
  unfold gw_Write. destruct (gz_Write _ _) as [n [d |]]; simpl; exact F.
Qed.

(** What the plain tail of [Write] adds to the log, and what it returns. *)
Lemma Write_plain_log w b r :
  exists evs, log (fst (Write_plain w b r)) = log w ++ evs
    /\ gz_events evs = []
    /\ status_commits evs = (if code w =? 0 then [] else [code w])
    /\ (forall e, In e evs -> forall d, event_err e = Some d ->
          snd (Write_plain w b r) = (0, Some (Downstream d)))
    /\ (forall n, snd (Write_plain w b r) = (n, None) ->
          sink_fed evs = buf w ++ r /\ n = len b).
Proof.
  destruct (startPlain_log w) as (evs & Hl & Hgz & Hs & Hc & He).
  unfold Write_plain.
  destruct (startPlain w) as [w1 [e |]] eqn:SP; simpl in *.
  - exists evs. repeat split; try assumption.
    + intros e' Hin d Hd. rewrite (He _ Hin _ Hd). reflexivity.
    + discriminate.
    + discriminate.
  - destruct (0 <? len r) eqn:Er.
    + unfold rw_Write. destruct (sink_Write _ _) as [n [d |]] eqn:R; simpl.
      * eexists (evs ++ [_]). rewrite Hl, <- app_assoc. split; [reflexivity |].
        rewrite gz_events_app, status_commits_app, Hgz, Hc. simpl.
        rewrite app_nil_r. repeat split; try discriminate.
        intros e' Hin d' Hd. apply in_app_or in Hin as [Hin | [<- | []]].
        -- specialize (He _ Hin _ Hd). discriminate.
        -- simpl in Hd. congruence.
      * eexists (evs ++ [_]). rewrite Hl, <- app_assoc. split; [reflexivity |].
        rewrite gz_events_app, status_commits_app, sink_fed_app, Hgz, Hc, Hs.
        simpl. rewrite !app_nil_r.
        repeat split; try (intros; simpl in *; congruence).
        intros e' Hin d' Hd. apply in_app_or in Hin as [Hin | [<- | []]].
        -- specialize (He _ Hin _ Hd). discriminate.
        -- discriminate.
    + exists evs. apply len_pos_nil in Er. subst r. rewrite app_nil_r.
      repeat split; try assumption; try (intros; simpl in *; congruence).
      intros e' Hin d Hd. specialize (He _ Hin _ Hd). discriminate.
Qed.

(** What the compressing branch of [Write] adds to the log. *)
Lemma Write_gzip_log w b r :
  exists evs, log (fst (Write_gzip w b r)) = log w ++ evs
    /\ sink_fed evs = []
    /\ status_commits evs = (if code w =? 0 then [] else [code w])
    /\ (forall e, In e evs -> forall d, event_err e = Some d ->
          snd (Write_gzip w b r) = (0, Some (Downstream d)))
    /\ (forall n, snd (Write_gzip w b r) = (n, None) ->
          gz_fed evs = buf w ++ r /\ n = len b).
Proof.
  destruct (startGzip_log w) as (evs & Hl & Hs & Hg & Hc & He).
  unfold Write_gzip.
  destruct (startGzip w) as [w1 [e |]] eqn:SP; simpl in *.
  - exists evs. repeat split; try assumption.
    + intros e' Hin d Hd. rewrite (He _ Hin _ Hd). reflexivity.
    + discriminate.
    + discriminate.
  - destruct (0 <? len r) eqn:Er.
    + unfold gw_Write. destruct (gz_Write _ _) as [n [d |]] eqn:R; simpl.
      * eexists (evs ++ [_]). rewrite Hl, <- app_assoc. split; [reflexivity |].
        rewrite sink_fed_app, status_commits_app, Hs, Hc. simpl.
        rewrite app_nil_r. repeat split; try discriminate.
        intros e' Hin d' Hd. apply in_app_or in Hin as [Hin | [<- | []]].
        -- specialize (He _ Hin _ Hd). discriminate.
        -- simpl in Hd. congruence.
      * eexists (evs ++ [_]). rewrite Hl, <- app_assoc. split; [reflexivity |].
        rewrite sink_fed_app, status_commits_app, gz_fed_app, Hs, Hc, Hg.
        simpl. rewrite !app_nil_r.
        repeat split; try (intros; simpl in *; congruence).
        intros e' Hin d' Hd. apply in_app_or in Hin as [Hin | [<- | []]].
        -- specialize (He _ Hin _ Hd). discriminate.
        -- discriminate.
    + exists evs. apply len_pos_nil in Er. subst r. rewrite app_nil_r.
      repeat split; try assumption; try (intros; simpl in *; congruence).
      intros e' Hin d Hd. specialize (He _ Hin _ Hd). discriminate.
Qed.

(** ** [Write] and [Flush] while undecided *)

Lemma cap_max w : cap w = Z.max 512 (minSize w).
Proof. unfold cap. destruct (512 <? minSize w) eqn:E; lia. Qed.

Lemma Header_Get_has h k : Header_Get h k <> "" -> Header_has h k = true.
Proof.
  unfold Header_Get, Header_has. destruct (h !! k); [reflexivity | congruence].
Qed.

Lemma eqb_empty_false s : String.eqb s "" = false -> s <> "".
Proof. intros E ->. discriminate. Qed.

Lemma Write_undecided w b :
  undecided w ->
  Write w b =
    let w1 := absorb w b in
    if waits w1 then (w1, (len b, None))
    else if eligible w1 (assumed_length w1)
    then Write_gzip (note_type w1) b (remainder w b)
    else Write_plain
           (if headers_allow (hdr w1) && (minSize w1 <=? assumed_length w1)
            then note_type w1 else w1) b (remainder w b).
Proof.
  intros [Hg Hi]. unfold Write. rewrite Hg, Hi.
  change (if 512 <? minSize w then minSize w else 512) with (cap w).
  change (if cap w <? len (buf w) + len b then cap w - len (buf w) else len b)
    with (toAdd w b).
  change (set_buf (buf w ++ take (Z.to_nat (toAdd w b)) b) w) with (absorb w b).
  change (drop (Z.to_nat (toAdd w b)) b) with (remainder w b).
  cbv zeta. generalize (absorb w b) (remainder w b). clear. intros w r.
  unfold waits, eligible, assumed_length, note_type, effective_type,
    declared_length.
  set (cl := fst (atoi _)). set (ct := Header_Get (hdr w) contentType).
  destruct (headers_allow (hdr w)) eqn:HA; simpl; [| reflexivity].
  destruct (cl =? 0) eqn:C0; simpl.
  - destruct (len (buf w) <? minSize w) eqn:Lt; simpl; [reflexivity |].
    assert ((minSize w <=? len (buf w)) = true) as -> by lia.
    rewrite Z.leb_refl, orb_true_r. simpl.
    destruct (String.eqb ct "") eqn:E; simpl.
    + destruct (Header_has (hdr w) contentType); simpl;
        destruct (contentTypeFilter w _); reflexivity.
    + rewrite (Header_Get_has _ _ (eqb_empty_false _ E)). simpl.
      destruct (contentTypeFilter w ct); reflexivity.
  - rewrite andb_false_r.
    destruct (minSize w <=? cl) eqn:Le; simpl; [| reflexivity].
    destruct (String.eqb ct "") eqn:E; simpl.
    + destruct (Header_has (hdr w) contentType); simpl;
        destruct (contentTypeFilter w _); reflexivity.
    + rewrite (Header_Get_has _ _ (eqb_empty_false _ E)). simpl.
      destruct (contentTypeFilter w ct); reflexivity.
Qed.

Lemma Header_values_Set_ne h k k' v :
  k <> k' -> Header_values (Header_Set h k v) k' = Header_values h k'.
Proof.
  intros Hne. unfold Header_values, Header_Set. by rewrite lookup_insert_ne.
Qed.

Lemma Flush_undecided_empty w :
  undecided w -> buf w = [] -> Flush w = w.
Proof.
  intros [Hg Hi] Hb. unfold Flush. rewrite Hg, Hi, Hb. reflexivity.
Qed.

Lemma Flush_undecided w :
  undecided w -> buf w <> [] ->
  Flush w =
    Flush_forward
      (fst ((if eligible w (assumed_length w) then startGzip else startPlain)
              (note_type w))).
Proof.
  intros [Hg Hi] Hb. unfold Flush. rewrite Hg, Hi. simpl.
  destruct (len (buf w) =? 0) eqn:E.
  { apply Z.eqb_eq, len_zero_nil in E. contradiction. }
  unfold eligible, assumed_length, note_type, effective_type, declared_length,
    headers_allow.
  set (cl := fst (atoi _)). set (ct := Header_Get (hdr w) contentType).
  destruct (String.eqb ct "") eqn:Ect.
  - destruct (Header_has (hdr w) contentType) eqn:Hh; simpl.
    + destruct (_ && _ && _ && _ && _); reflexivity.
    + rewrite Header_values_Set_ne by discriminate.
      destruct (_ && _ && _ && _ && _); reflexivity.
  - rewrite (Header_Get_has _ _ (eqb_empty_false _ Ect)). simpl.
    destruct (_ && _ && _ && _ && _); reflexivity.
Qed.

(** ** The buffer *)

Lemma cap_ge w : 512 <= cap w /\ minSize w <= cap w.
Proof. rewrite cap_max. lia. Qed.

Lemma toAdd_range w b : len (buf w) <= cap w -> 0 <= toAdd w b <= len b.
Proof.
  intros H. unfold toAdd. pose proof (len_nonneg b).
  destruct (cap w <? len (buf w) + len b) eqn:E; lia.
Qed.

(** Either the whole call fits, or the buffer is filled to its cap. *)
Lemma absorb_cases w b :
  len (buf w) <= cap w ->
  (buf (absorb w b) = buf w ++ b /\ remainder w b = [])
  \/ (len (buf (absorb w b)) = cap w /\ remainder w b <> []).
Proof.
  intros H. pose proof (toAdd_range w b H) as R.
  unfold absorb, remainder. simpl. unfold toAdd in *.
  destruct (cap w <? len (buf w) + len b) eqn:E.
  - right. rewrite len_app, len_take_le by lia. split; [lia |].
    intros Hd. apply (f_equal length) in Hd. rewrite length_drop in Hd.
    simpl in Hd. unfold len in *. lia.
  - left. rewrite take_len_all, drop_len_all. split; reflexivity.
Qed.

Lemma absorb_bound w b :
  len (buf w) <= cap w -> len (buf (absorb w b)) <= cap w.
Proof.
  intros H. destruct (absorb_cases w b H) as [[E _] | [E _]]; [| lia].
  pose proof (toAdd_range w b H) as R. unfold absorb in *. simpl in *.
  rewrite len_app, len_take_le by lia. unfold toAdd in *.
  destruct (cap w <? len (buf w) + len b) eqn:C; lia.
Qed.

Lemma note_type_fields w :
  let w' := note_type w in
  buf w' = buf w /\ gw w' = gw w /\ ignore w' = ignore w /\ code w' = code w
  /\ minSize w' = minSize w /\ log w' = log w /\ level w' = level w
  /\ contentTypeFilter w' = contentTypeFilter w.
Proof.
  unfold note_type. destruct (negb _); simpl; tauto.
Qed.

Lemma Flush_forward_fields w :
  let w' := Flush_forward w in
  buf w' = buf w /\ gw w' = gw w /\ ignore w' = ignore w /\ code w' = code w
  /\ minSize w' = minSize w /\ hdr w' = hdr w.
Proof.
  unfold Flush_forward.
  destruct (gw w) eqn:Hg, sink_isFlusher; simpl; rewrite ?Hg; tauto.
Qed.

(** ** Once decided *)

Lemma Write_compressed w b g :
  gw w = Some g ->
  Write w b =
    let r := gz_Write (log w) b in
    (emit (GzWrite b (fst r) (snd r)) w, (fst r, wrap (snd r))).
Proof.
  intros Hg. unfold Write, gw_Write. rewrite Hg.
  destruct (gz_Write _ _); reflexivity.
Qed.

Lemma Write_passthrough w b :
  gw w = None -> ignore w = true ->
  Write w b =
    let r := sink_Write (log w) b in
    (emit (SinkWrite b (hdr w) (fst r) (snd r)) w, (fst r, wrap (snd r))).
Proof.
  intros Hg Hi. unfold Write, rw_Write. rewrite Hg, Hi.
  destruct (sink_Write _ _); reflexivity.
Qed.

Lemma Flush_decided w :
  gw w <> None \/ ignore w = true -> Flush w = Flush_forward w.
Proof.
  intros H. unfold Flush.
  destruct (gw w); simpl; [reflexivity |].
  destruct (ignore w); simpl; [reflexivity |].
  destruct H; congruence.
Qed.

(** The three modes of the writer. *)
Lemma modes w :
  (exists g, gw w = Some g) \/ (gw w = None /\ ignore w = true) \/ undecided w.
Proof.
  unfold undecided. destruct (gw w); [eauto |].
  destruct (ignore w); tauto.
Qed.

Lemma Write_minSize w b : minSize (fst (Write w b)) = minSize w.
Proof.
  destruct (modes w) as [[g Hg] | [[Hg Hi] | Hu]].
  - rewrite (Write_compressed _ _ _ Hg). reflexivity.
  - rewrite (Write_passthrough _ _ Hg Hi). reflexivity.
  - rewrite (Write_undecided _ _ Hu). cbv zeta.
    destruct (waits _); [reflexivity |].
    destruct (eligible _ _).
    + destruct (Write_gzip_fields (note_type (absorb w b)) b (remainder w b))
        as (_ & _ & _ & -> & _).
      destruct (note_type_fields (absorb w b)) as (_ & _ & _ & _ & -> & _).
      reflexivity.
    + match goal with |- context [Write_plain ?x _ _] =>
        destruct (Write_plain_fields x b (remainder w b))
          as (_ & _ & _ & _ & -> & _) end.
      destruct (_ && _); [| reflexivity].
      destruct (note_type_fields (absorb w b)) as (_ & _ & _ & _ & -> & _).
      reflexivity.
Qed.

Lemma Flush_minSize w : minSize (Flush w) = minSize w.
Proof.
  destruct (modes w) as [[g Hg] | [[Hg Hi] | Hu]].
  - rewrite Flush_decided by (left; congruence).
    apply Flush_forward_fields.
  - rewrite Flush_decided by (right; assumption).
    apply Flush_forward_fields.
  - destruct (buf w) as [| x l] eqn:Hb.
    + rewrite Flush_undecided_empty by assumption. reflexivity.
    + rewrite Flush_undecided by (assumption || congruence).
      match goal with |- context [Flush_forward ?x] =>
        destruct (Flush_forward_fields x) as (_ & _ & _ & _ & -> & _) end.
      destruct (note_type_fields w) as (_ & _ & _ & _ & Hm & _).
      destruct (eligible _ _).
      * destruct (startGzip_fields (note_type w)) as (_ & _ & _ & -> & _).
        exact Hm.
      * destruct (startPlain_fields (note_type w)) as (_ & _ & _ & _ & -> & _).
        exact Hm.
Qed.

Lemma Close_minSize w : minSize (fst (Close w)) = minSize w.
Proof.
  unfold Close. destruct (ignore w); [reflexivity |].
  destruct (gw w); [reflexivity |].
  pose proof (startPlain_fields w) as F. simpl in F.
  destruct (startPlain w) as [w1 e]. simpl in *. tauto.
Qed.

Lemma step_minSize w c : minSize (step w c) = minSize w.
Proof.
  destruct c as [b | k | | | f]; simpl.
  - apply Write_minSize.
  - unfold WriteHeader. destruct (code w =? 0); reflexivity.
  - apply Flush_minSize.
  - apply Close_minSize.
  - reflexivity.
Qed.

(** ** The states a request can reach *)

Lemma wf_empty w :
  buf w = [] -> (gw w <> None -> ignore w = false) -> wf w.
Proof.
  intros Hb Hg. unfold wf. rewrite Hb, len_nil.
  pose proof (cap_ge w). repeat split; auto; lia.
Qed.

Lemma wf_same w w' :
  buf w' = buf w -> gw w' = gw w -> ignore w' = ignore w ->
  minSize w' = minSize w -> wf w -> wf w'.
Proof.
  unfold wf, cap. intros -> -> -> ->. tauto.
Qed.

Lemma Write_wf w b : wf w -> wf (fst (Write w b)).
Proof.
  intros Hwf.
  destruct (modes w) as [[g Hg] | [[Hg Hi] | Hu]].
  - rewrite (Write_compressed _ _ _ Hg). apply (wf_same w); auto.
  - rewrite (Write_passthrough _ _ Hg Hi). apply (wf_same w); auto.
  - rewrite (Write_undecided _ _ Hu). cbv zeta. destruct Hu as [Hg Hi].
    destruct (waits _).
    + simpl. unfold wf. change (cap (absorb w b)) with (cap w).
      split; [apply absorb_bound, Hwf |].
      unfold absorb. simpl. rewrite Hg, Hi. split; congruence.
    + destruct (eligible _ _).
      * destruct (Write_gzip_fields (note_type (absorb w b)) b (remainder w b))
          as (Fb & Fi & _).
        destruct (note_type_fields (absorb w b)) as (_ & _ & Ni & _).
        apply wf_empty; [exact Fb |]. intros _. rewrite Fi, Ni. exact Hi.
      * match goal with |- context [Write_plain ?x _ _] =>
          destruct (Write_plain_fields x b (remainder w b))
            as (Fb & Fg & _); assert (Hx : gw x = None) end.
        { destruct (_ && _); [| exact Hg].
          destruct (note_type_fields (absorb w b)) as (_ & -> & _). exact Hg. }
        apply wf_empty; [exact Fb |]. rewrite Fg, Hx. congruence.
Qed.

Lemma Flush_wf w : wf w -> wf (Flush w).
Proof.
  intros Hwf.
  destruct (modes w) as [[g Hg] | [[Hg Hi] | Hu]].
  - rewrite Flush_decided by (left; congruence).
    destruct (Flush_forward_fields w) as (? & ? & ? & _ & ? & _).
    apply (wf_same w); auto.
  - rewrite Flush_decided by (right; assumption).
    destruct (Flush_forward_fields w) as (? & ? & ? & _ & ? & _).
    apply (wf_same w); auto.
  - destruct (buf w) as [| x l] eqn:Hb.
    + rewrite Flush_undecided_empty by assumption. exact Hwf.
    + rewrite Flush_undecided by (assumption || congruence).
      match goal with |- context [Flush_forward ?x] =>
        destruct (Flush_forward_fields x) as (Eb & Eg & Ei & _) end.
      destruct (note_type_fields w) as (_ & Ng & Ni & _).
      destruct Hu as [Hg Hi].
      apply wf_empty; rewrite ?Eb, ?Eg, ?Ei; destruct (eligible _ _).
      * apply startGzip_fields.
      * apply startPlain_fields.
      * intros _. destruct (startGzip_fields (note_type w)) as (_ & -> & _).
        congruence.
      * destruct (startPlain_fields (note_type w)) as (_ & -> & _). congruence.
Qed.

Lemma Close_wf w : wf w -> wf (fst (Close w)).
Proof.
  intros Hwf. unfold Close. destruct (ignore w) eqn:Hi; [exact Hwf |].
  destruct (gw w) eqn:Hg.
  - simpl. destruct Hwf as (_ & H & _).
    apply wf_empty; simpl; [| congruence]. apply H. congruence.
  - pose proof (startPlain_fields w) as F. simpl in F.
    destruct (startPlain w) as [w1 e]. simpl in *.
    destruct F as (Fb & Fg & _). apply wf_empty; [exact Fb | congruence].
Qed.

Lemma step_wf w c : wf w -> wf (step w c).
Proof.
  intros Hwf. destruct c as [b | k | | | f]; simpl.
  - apply Write_wf, Hwf.
  - unfold WriteHeader. destruct (code w =? 0); [| exact Hwf].
    apply (wf_same w); auto.
  - apply Flush_wf, Hwf.
  - apply Close_wf, Hwf.
  - apply (wf_same w); auto.
Qed.

Lemma run_wf cs w : wf w -> wf (run cs w).
Proof.
  revert w. induction cs as [| c cs IH]; intros w Hwf; [exact Hwf |].
  simpl. apply IH, step_wf, Hwf.
Qed.

Lemma run_minSize cs w : minSize (run cs w) = minSize w.
Proof.
  revert w. induction cs as [| c cs IH]; intros w; [reflexivity |].
  simpl. rewrite IH. apply step_minSize.
Qed.

Lemma newWriter_wf c h : wf (newWriter c h).
Proof. apply wf_empty; [reflexivity | simpl; congruence]. Qed.

(** ** Nothing is left behind by a call that does not commit *)

Lemma Write_still_undecided w b w' n :
  wf w -> Write w b = (w', (n, None)) -> undecided w' ->
  remainder w b = [] /\ buf w' = buf w ++ b /\ n = len b.
Proof.
  intros Hwf HW [Hg' Hi'].
  destruct (modes w) as [[g Hg] | [[Hg Hi] | Hu]].
  - rewrite (Write_compressed _ _ _ Hg) in HW. simpl in HW.
    injection HW as <- _ _. simpl in Hg'. congruence.
  - rewrite (Write_passthrough _ _ Hg Hi) in HW. simpl in HW.
    injection HW as <- _ _. simpl in Hi'. congruence.
  - destruct Hwf as (Hcap & _).
    pose proof (absorb_cases w b Hcap) as Hc. pose proof (cap_ge w) as Hge.
    rewrite (Write_undecided _ _ Hu) in HW. cbv zeta in HW.
    destruct (waits (absorb w b)) eqn:Wt.
    + injection HW as <- <-.
      destruct Hc as [[Hb Hr] | [Hlen _]]; [tauto |].
      unfold waits in Wt. apply andb_true_iff in Wt as [_ Wt].
      change (minSize (absorb w b)) with (minSize w) in Wt. lia.
    + destruct (eligible _ _).
      * pose proof (Write_gzip_fields (note_type (absorb w b)) b
                      (remainder w b)) as F.
        pose proof (Write_gzip_log (note_type (absorb w b)) b
                      (remainder w b)) as (evs & _ & _ & _ & _ & Hn).
        rewrite HW in F, Hn. simpl in F, Hn.
        destruct F as (Fb & _ & _ & _ & Fg).
        destruct (note_type_fields (absorb w b)) as (Nb & Ng & _).
        rewrite Nb, Ng in Fg. rewrite Nb in Hn.
        destruct (0 <? len (buf (absorb w b))) eqn:E; [congruence |].
        apply len_pos_nil in E.
        destruct Hc as [[Hb Hr] | [Hlen _]].
        -- rewrite Fb, <- Hb, E. destruct (Hn n eq_refl) as [_ ->]. tauto.
        -- rewrite E, len_nil in Hlen. lia.
      * match type of HW with Write_plain ?x _ _ = _ =>
          pose proof (Write_plain_fields x b (remainder w b)) as F end.
        rewrite HW in F. simpl in F. destruct F as (_ & _ & Fi & _).
        congruence.
Qed.

(** C10.  In every state a request can bring the writer to, the buffer
    holds at most max(512, minSize) bytes; a remainder is left only when
    the buffer has been filled to that cap, which is at least minSize; and
    a [Write] that returns without error and leaves the writer undecided has
    no remainder: the buffer has grown by exactly the bytes of the call, and
    the call reports all of them. *)
Theorem wait_absorbs_whole_call (c : config) (h : Header) (cs : list call) :
  let w := run cs (newWriter c h) in
  len (buf w) <= Z.max 512 (c_minSize c)
  /\ forall b,
       (remainder w b <> [] ->
          len (buf (absorb w b)) = Z.max 512 (c_minSize c)
          /\ minSize w <= len (buf (absorb w b)))
       /\ forall w' n,
            Write w b = (w', (n, None)) -> undecided w' ->
            remainder w b = [] /\ buf w' = buf w ++ b /\ n = len b.
Proof.
  intros w.
  assert (Hwf : wf w) by apply run_wf, newWriter_wf.
  assert (Hm : minSize w = c_minSize c) by apply run_minSize.
  assert (Hcap : cap w = Z.max 512 (c_minSize c)) by (rewrite cap_max, Hm; lia).
  split; [rewrite <- Hcap; apply Hwf |].
  intros b. split.
  - intros Hr. destruct Hwf as (Hb & _).
    destruct (absorb_cases w b Hb) as [[_ E] | [E _]]; [contradiction |].
    pose proof (cap_ge w). lia.
  - intros w' n. apply Write_still_undecided, Hwf.
Qed.

(** ** Responses the handler has marked *)

(** The guard fails exactly when the opt-out marker has a value, or a
    Content-Encoding or a Content-Range is set. *)
Lemma headers_allow_false h :
  headers_allow h = false <->
  Header_values h HeaderNoCompression <> []
  \/ Header_Get h contentEncoding <> ""
  \/ Header_Get h contentRange <> "".
Proof.
  unfold headers_allow. rewrite !andb_false_iff.
  rewrite Z.eqb_neq, !String.eqb_neq. split.
  - intros [[H | H] | H]; [left | right; left | right; right]; try exact H.
    intros E. apply H. rewrite E. reflexivity.
  - intros [H | [H | H]]; [left; left | left; right | right]; try exact H.
    intros E. apply H, len_zero_nil, E.
Qed.

Lemma Write_marked w b :
  undecided w -> headers_allow (hdr w) = false ->
  Write w b = Write_plain (absorb w b) b (remainder w b).
Proof.
  intros Hu Hh. rewrite (Write_undecided _ _ Hu). cbv zeta.
  unfold waits, eligible. change (hdr (absorb w b)) with (hdr w).
  rewrite Hh. reflexivity.
Qed.

Lemma Flush_marked w :
  undecided w -> buf w <> [] -> headers_allow (hdr w) = false ->
  Flush w = Flush_forward (fst (startPlain (note_type w))).
Proof.
  intros Hu Hb Hh. rewrite (Flush_undecided _ Hu Hb).
  unfold eligible. rewrite Hh. reflexivity.
Qed.

Lemma Flush_forward_log w :
  log (Flush_forward w) =
    log w ++ (match gw w with Some _ => [GzFlush] | None => [] end)
          ++ (if sink_isFlusher then [SinkFlush (hdr w)] else []).
Proof.
  unfold Flush_forward.
  destruct (gw w), sink_isFlusher; simpl;
    rewrite <- ?app_assoc, ?app_nil_r; reflexivity.
Qed.

Lemma plain_step w c :
  plain w ->
  plain (step w c) /\ gz_events (log (step w c)) = gz_events (log w).
Proof.
  intros [Hi Hg]. unfold plain. destruct c as [b | k | | | f]; simpl.
  - rewrite (Write_passthrough _ _ Hg Hi). simpl.
    rewrite gz_events_app, app_nil_r. tauto.
  - unfold WriteHeader. destruct (code w =? 0); simpl; tauto.
  - rewrite Flush_decided by (right; exact Hi).
    destruct (Flush_forward_fields w) as (_ & -> & -> & _).
    rewrite Flush_forward_log, Hg, !gz_events_app.
    destruct sink_isFlusher; simpl; rewrite app_nil_r; tauto.
  - unfold Close. rewrite Hi. simpl. tauto.
  - tauto.
Qed.

Lemma plain_run cs w :
  plain w ->
  plain (run cs w) /\ gz_events (log (run cs w)) = gz_events (log w).
Proof.
  revert w. induction cs as [| c cs IH]; intros w Hp; [tauto |].
  simpl. destruct (plain_step w c Hp) as [Hp' <-]. apply IH, Hp'.
Qed.

(** C5.  While the writer is undecided and the handler has set the opt-out
    marker, a Content-Encoding or a Content-Range (the guard
    [headers_allow] fails), a [Write] of any bytes commits plain, and so
    does a [Flush] once bytes are buffered (with an empty buffer it does
    nothing); whatever the handler does afterwards, the writer stays plain
    and no call is ever made on the compressor or its factory.  Neither the
    size nor the content type plays a part. *)
Theorem marked_response_commits_plain (w : GzipResponseWriter) :
  undecided w -> headers_allow (hdr w) = false ->
  (forall b cs,
      let w' := run cs (fst (Write w b)) in
      plain (fst (Write w b)) /\ plain w'
      /\ gz_events (log w') = gz_events (log w))
  /\ (buf w <> [] ->
      forall cs,
        let w' := run cs (Flush w) in
        plain (Flush w) /\ plain w'
        /\ gz_events (log w') = gz_events (log w))
  /\ (buf w = [] -> Flush w = w).
Proof.
  intros Hu Hh. pose proof Hu as [Hg Hi]. split; [| split].
  - intros b cs w'.
    assert (Hp : plain (fst (Write w b))).
    { rewrite (Write_marked _ _ Hu Hh).
      destruct (Write_plain_fields (absorb w b) b (remainder w b))
        as (_ & Fg & Fi & _).
      split; [exact Fi | rewrite Fg; exact Hg]. }
    destruct (plain_run cs _ Hp) as [Hp' Hl]. subst w'.
    split; [exact Hp |]. split; [exact Hp' |]. rewrite Hl.
    rewrite (Write_marked _ _ Hu Hh).
    destruct (Write_plain_log (absorb w b) b (remainder w b))
      as (evs & -> & Hgz & _).
    rewrite gz_events_app, Hgz, app_nil_r. reflexivity.
  - intros Hb cs w'.
    assert (HF : plain (Flush w)
                 /\ gz_events (log (Flush w)) = gz_events (log w)).
    { rewrite (Flush_marked _ Hu Hb Hh).
      match goal with |- context [Flush_forward ?x] =>
        destruct (Flush_forward_fields x) as (_ & Eg & Ei & _);
        rewrite (Flush_forward_log x) end.
      destruct (startPlain_fields (note_type w)) as (_ & Fg & Fi & _).
      destruct (startPlain_log (note_type w)) as (evs & Hl & Hgz & _).
      destruct (note_type_fields w) as (_ & Ng & _ & _ & _ & Nl & _).
      unfold plain. rewrite Eg, Ei, Fg, Fi, Ng, Hg, Hl, Nl.
      rewrite !gz_events_app, Hgz.
      destruct sink_isFlusher; simpl; rewrite !app_nil_r; tauto. }
    destruct HF as [Hp Hl0]. destruct (plain_run cs _ Hp) as [Hp' Hl].
    subst w'. rewrite Hl, Hl0. tauto.
  - apply Flush_undecided_empty, Hu.
Qed.

(** ** Responses declared shorter than the threshold *)

Lemma Header_Get_Del_ne h k k' :
  k <> k' -> Header_Get (Header_Del h k) k' = Header_Get h k'.
Proof.
  intros Hne. unfold Header_Get, Header_Del. by rewrite lookup_delete_ne.
Qed.

Lemma Write_declared_small w b :
  undecided w -> declared_length w <> 0 -> declared_length w < minSize w ->
  Write w b = Write_plain (absorb w b) b (remainder w b).
Proof.
  intros Hu H0 Hlt. rewrite (Write_undecided _ _ Hu). cbv zeta.
  unfold waits, eligible, assumed_length.
  change (declared_length (absorb w b)) with (declared_length w).
  change (minSize (absorb w b)) with (minSize w).
  assert ((declared_length w =? 0) = false) as -> by lia.
  assert ((minSize w <=? declared_length w) = false) as -> by lia.
  rewrite !andb_false_r. reflexivity.
Qed.

Lemma Writes_cons w b bs :
  fst (Writes w (b :: bs)) = fst (Writes (fst (Write w b)) bs).
Proof.
  simpl. destruct (Write w b) as [w1 r]. simpl.
  destruct (Writes w1 bs). reflexivity.
Qed.

(** After the plain commit every [Write] hands its bytes to the sink. *)
Lemma Writes_plain bs w :
  plain w ->
  let w' := fst (Writes w bs) in
  plain w' /\ hdr w' = hdr w
  /\ gz_events (log w') = gz_events (log w)
  /\ sink_fed (log w') = sink_fed (log w) ++ concat bs.
Proof.
  revert w. induction bs as [| b bs IH]; intros w Hp.
  - simpl. rewrite app_nil_r. tauto.
  - rewrite Writes_cons. destruct Hp as [Hi Hg].
    rewrite (Write_passthrough _ _ Hg Hi). cbv zeta. cbn [fst].
    set (w1 := emit _ w).
    destruct (IH w1 (conj Hi Hg)) as (Hp & Hh & Hz & Hs).
    split; [exact Hp |]. split; [exact Hh |].
    rewrite Hz, Hs. subst w1. simpl.
    rewrite gz_events_app, sink_fed_app. simpl.
    rewrite !app_nil_r, <- app_assoc. tauto.
Qed.

(** C6.  When the declared Content-Length is nonzero and below minSize, a
    [Write] on the undecided writer commits plain, whatever else the
    headers say: the header map only loses the opt-out marker (so no
    Content-Encoding is added), the compressor is not touched, and if the
    call reports no error it reports all its bytes, and the sink has been
    handed the buffer (empty on the first write) followed by the bytes of
    this call and of every later call, in order. *)
Theorem small_declared_length_commits_plain (w : GzipResponseWriter) (b : bytes) :
  undecided w -> declared_length w <> 0 -> declared_length w < minSize w ->
  let w1 := fst (Write w b) in
  plain w1
  /\ hdr w1 = Header_Del (hdr w) HeaderNoCompression
  /\ Header_Get (hdr w1) contentEncoding = Header_Get (hdr w) contentEncoding
  /\ gz_events (log w1) = gz_events (log w)
  /\ forall n, snd (Write w b) = (n, None) ->
       n = len b
       /\ forall bs,
            let w2 := fst (Writes w1 bs) in
            plain w2 /\ hdr w2 = hdr w1
            /\ gz_events (log w2) = gz_events (log w)
            /\ sink_fed (log w2) = sink_fed (log w) ++ buf w ++ b ++ concat bs.
Proof.
  intros Hu H0 Hlt. pose proof Hu as [Hg Hi].
  rewrite (Write_declared_small _ _ Hu H0 Hlt). cbv zeta.
  destruct (Write_plain_fields (absorb w b) b (remainder w b))
    as (_ & Fg & Fi & _ & _ & Fh).
  destruct (Write_plain_log (absorb w b) b (remainder w b))
    as (evs & Hl & Hgz & _ & _ & Hn).
  change (hdr (absorb w b)) with (hdr w) in Fh.
  change (log (absorb w b)) with (log w) in Hl.
  change (gw (absorb w b)) with (gw w) in Fg.
  assert (Hp : plain (fst (Write_plain (absorb w b) b (remainder w b))))
    by (split; [exact Fi | rewrite Fg; exact Hg]).
  split; [exact Hp |]. split; [exact Fh |].
  split; [rewrite Fh; apply Header_Get_Del_ne; discriminate |].
  split; [rewrite Hl, gz_events_app, Hgz, app_nil_r; reflexivity |].
  intros n Hr. destruct (Hn n Hr) as [Hfed ->]. split; [reflexivity |].
  intros bs. destruct (Writes_plain bs _ Hp) as (Hp2 & Hh2 & Hz2 & Hs2).
  split; [exact Hp2 |]. split; [exact Hh2 |].
  split; [rewrite Hz2, Hl, gz_events_app, Hgz, app_nil_r; reflexivity |].
  rewrite Hs2, Hl, sink_fed_app, Hfed. unfold absorb, remainder. simpl.
  rewrite <- !app_assoc. do 2 f_equal. rewrite app_assoc.
  f_equal. apply take_drop.
Qed.

(** ** Flush while undecided *)

Lemma Flush_commits_compressed w :
  undecided w -> buf w <> [] -> eligible w (assumed_length w) = true ->
  gw (Flush w) = Some (GzW (level w)) /\ ignore (Flush w) = false
  /\ buf (Flush w) = []
  /\ exists evs,
       log (Flush w) =
         log w ++ evs ++ [GzFlush]
               ++ (if sink_isFlusher then [SinkFlush (hdr (Flush w))] else [])
       /\ gz_fed evs = buf w /\ sink_fed evs = [].
Proof.
  intros Hu Hb He. pose proof Hu as [Hg Hi].
  rewrite (Flush_undecided _ Hu Hb), He.
  destruct (note_type_fields w) as (Nb & Ng & Ni & _ & _ & Nl & Nv & _).
  destruct (startGzip_fields (note_type w)) as (Fb & Fi & _ & _ & Fg).
  destruct (startGzip_log (note_type w)) as (evs & Hl & Hs & Hz & _).
  assert (Hpos : (0 <? len (buf w)) = true).
  { destruct (0 <? len (buf w)) eqn:E; [reflexivity |].
    apply len_pos_nil in E. contradiction. }
  rewrite Nb, Hpos, Nv in Fg. rewrite Nb in Hz. rewrite Nl in Hl.
  match goal with |- context [Flush_forward ?x] =>
    destruct (Flush_forward_fields x) as (Eb & Eg & Ei & _ & _ & Eh);
    rewrite (Flush_forward_log x) end.
  rewrite Eb, Eg, Ei, Eh, Fb, Fi, Fg, Ni, Hl.
  split; [reflexivity |]. split; [exact Hi |]. split; [reflexivity |].
  exists evs. rewrite <- !app_assoc. tauto.
Qed.

Lemma Flush_commits_plain w :
  undecided w -> buf w <> [] -> eligible w (assumed_length w) = false ->
  plain (Flush w) /\ buf (Flush w) = []
  /\ exists evs,
       log (Flush w) =
         log w ++ evs
               ++ (if sink_isFlusher then [SinkFlush (hdr (Flush w))] else [])
       /\ sink_fed evs = buf w /\ gz_events evs = [].
Proof.
  intros Hu Hb He. pose proof Hu as [Hg Hi].
  rewrite (Flush_undecided _ Hu Hb), He.
  destruct (note_type_fields w) as (Nb & Ng & Ni & _ & _ & Nl & _).
  destruct (startPlain_fields (note_type w)) as (Fb & Fg & Fi & _).
  destruct (startPlain_log (note_type w)) as (evs & Hl & Hz & Hs & _).
  rewrite Nb in Hs. rewrite Nl in Hl. rewrite Ng, Hg in Fg.
  match goal with |- context [Flush_forward ?x] =>
    destruct (Flush_forward_fields x) as (Eb & Eg & Ei & _ & _ & Eh);
    rewrite (Flush_forward_log x) end.
  unfold plain. rewrite Eb, Eg, Ei, Eh, Fb, Fi, Fg, Hl.
  split; [tauto |]. split; [reflexivity |].
  exists evs. rewrite <- !app_assoc. tauto.
Qed.

(** C9.  On an undecided writer: with an empty buffer [Flush] changes
    nothing and calls nothing.  With bytes buffered it commits, compressed
    exactly when the eligibility test [eligible] passes on the declared
    length with minSize standing in for an absent one ([assumed_length]):
    then the compressor is built, fed the buffer and flushed, else the
    buffer goes to the sink; in both cases the sink's own flush follows when
    it has one.  [Write], when it does not wait, commits by the same test on
    the same length.  So with no declared length, headers that allow
    compression and an eligible effective type, [Flush] commits compressed
    however few bytes are buffered. *)
Theorem flush_forces_the_decision (w : GzipResponseWriter) :
  undecided w ->
  (buf w = [] -> Flush w = w)
  /\ (buf w <> [] ->
      (eligible w (assumed_length w) = true ->
         gw (Flush w) = Some (GzW (level w)) /\ ignore (Flush w) = false
         /\ exists evs,
              log (Flush w) =
                log w ++ evs ++ [GzFlush]
                  ++ (if sink_isFlusher then [SinkFlush (hdr (Flush w))]
                      else [])
              /\ gz_fed evs = buf w /\ sink_fed evs = [])
      /\ (eligible w (assumed_length w) = false ->
         plain (Flush w)
         /\ exists evs,
              log (Flush w) =
                log w ++ evs
                  ++ (if sink_isFlusher then [SinkFlush (hdr (Flush w))]
                      else [])
              /\ sink_fed evs = buf w /\ gz_events evs = []))
  /\ (forall b,
       let w1 := absorb w b in
       waits w1 = false ->
       Write w b =
         if eligible w1 (assumed_length w1)
         then Write_gzip (note_type w1) b (remainder w b)
         else Write_plain
                (if headers_allow (hdr w1) && (minSize w1 <=? assumed_length w1)
                 then note_type w1 else w1) b (remainder w b))
  /\ (buf w <> [] -> headers_allow (hdr w) = true -> declared_length w = 0 ->
      contentTypeFilter w (effective_type w) = true ->
      eligible w (assumed_length w) = true
      /\ gw (Flush w) = Some (GzW (level w))).
Proof.
  intros Hu. split; [apply Flush_undecided_empty, Hu |].
  split; [| split].
  - intros Hb. split; intros He.
    + destruct (Flush_commits_compressed w Hu Hb He) as (? & ? & _ & ?). tauto.
    + destruct (Flush_commits_plain w Hu Hb He) as (? & _ & ?). tauto.
  - intros b w1 Hw. rewrite (Write_undecided _ _ Hu). cbv zeta.
    fold w1. rewrite Hw. reflexivity.
  - intros Hb Hh H0 Hf.
    assert (He : eligible w (assumed_length w) = true).
    { unfold eligible, assumed_length. rewrite Hh, H0, Hf. simpl.
      rewrite Z.leb_refl. reflexivity. }
    split; [exact He |]. apply (Flush_commits_compressed w Hu Hb He).
Qed.

(** ** Responses that are compressed *)

Lemma startGzip_hdr w :
  hdr (fst (startGzip w)) =
    let h := Header_Del (Header_Set (hdr w) contentEncoding "gzip")
                        contentLength in
    if negb (keepAcceptRanges w) then Header_Del h acceptRanges else h.
Proof.
  unfold startGzip.
  set (w1 := if negb (keepAcceptRanges _) then _ else _).
  assert (H1 : hdr w1 =
               let h := Header_Del (Header_Set (hdr w) contentEncoding "gzip")
                                   contentLength in
               if negb (keepAcceptRanges w) then Header_Del h acceptRanges
               else h).
  { subst w1. simpl. destruct (keepAcceptRanges w); reflexivity. }
  destruct (flush_code_fields w1) as (_ & _ & _ & _ & _ & Fh & _).
  destruct (0 <? len (buf (flush_code w1))); simpl.
  - unfold gw_Write, init. destruct (gz_Write _ _) as [n err]. simpl.
    rewrite Fh. exact H1.
  - rewrite Fh. exact H1.
Qed.

Lemma startGzip_headers w :
  Header_Get (hdr (fst (startGzip w))) contentEncoding = "gzip"
  /\ hdr (fst (startGzip w)) !! contentLength = None.
Proof.
  rewrite startGzip_hdr. cbv zeta. unfold Header_Get, Header_Del, Header_Set.
  destruct (negb (keepAcceptRanges w)).
  - rewrite !lookup_delete_ne by discriminate.
    rewrite lookup_insert_eq, lookup_delete_eq. tauto.
  - rewrite lookup_delete_ne by discriminate.
    rewrite lookup_insert_eq, lookup_delete_eq. tauto.
Qed.

Lemma Write_gzip_hdr w b r :
  hdr (fst (Write_gzip w b r)) = hdr (fst (startGzip w)).
Proof.
  unfold Write_gzip. destruct (startGzip w) as [w1 [e |]]; [reflexivity |].
  destruct (0 <? len r); [| reflexivity].
  unfold gw_Write. destruct (gz_Write _ _) as [n [d |]]; reflexivity.
Qed.

Lemma Writes_results w b bs :
  snd (Writes w (b :: bs)) = snd (Write w b) :: snd (Writes (fst (Write w b)) bs).
Proof.
  simpl. destruct (Write w b) as [w1 r]. simpl.
  destruct (Writes w1 bs). reflexivity.
Qed.

(** After the compressed commit every [Write] feeds the compressor. *)
Lemma Writes_compressed bs w g :
  gw w = Some g ->
  let w' := fst (Writes w bs) in
  gw w' = Some g /\ ignore w' = ignore w /\ hdr w' = hdr w
  /\ gz_fed (log w') = gz_fed (log w) ++ concat bs
  /\ sink_fed (log w') = sink_fed (log w).
Proof.
  revert w. induction bs as [| b bs IH]; intros w Hg.
  - simpl. rewrite app_nil_r. tauto.
  - rewrite Writes_cons, (Write_compressed _ _ _ Hg). cbv zeta. cbn [fst].
    set (w1 := emit _ w).
    destruct (IH w1 Hg) as (Hg' & Hi & Hh & Hz & Hs).
    rewrite Hg', Hi, Hh, Hz, Hs. subst w1. simpl.
    rewrite gz_fed_app, sink_fed_app. simpl.
    rewrite !app_nil_r, <- app_assoc. tauto.
Qed.

Lemma set_buf_absorb p w b : set_buf p (absorb w b) = set_buf p w.
Proof. reflexivity. Qed.

Lemma absorb_grows w b :
  len (buf w) < cap w -> b <> [] -> buf (absorb w b) <> [].
Proof.
  intros Hlt Hb E. apply (f_equal len) in E.
  unfold absorb in E. simpl in E. rewrite len_app, len_nil in E.
  assert (Hpos : 0 < len b).
  { destruct b; [contradiction | unfold len; simpl; lia]. }
  pose proof (len_nonneg (buf w)).
  assert (Hr : 0 < toAdd w b).
  { unfold toAdd. destruct (cap w <? len (buf w) + len b); lia. }
  assert (Hle : toAdd w b <= len b).
  { unfold toAdd. destruct (cap w <? len (buf w) + len b) eqn:C; lia. }
  rewrite len_take_le in E by lia. lia.
Qed.

Lemma absorb_prefix w b l :
  len (buf w) <= cap w -> buf (absorb w b) `prefix_of` buf w ++ b ++ l.
Proof.
  intros _. unfold absorb. simpl.
  exists (drop (Z.to_nat (toAdd w b)) b ++ l).
  rewrite <- app_assoc. f_equal. rewrite app_assoc, take_drop. reflexivity.
Qed.

(** The induction behind C1: the writer is undecided with compression
    allowed, and either nothing is buffered or it is waiting. *)
Lemma Writes_compress bs :
  forall w,
    undecided w -> headers_allow (hdr w) = true ->
    len (buf w) <= cap w ->
    buf w = [] \/ (declared_length w = 0 /\ len (buf w) < minSize w) ->
    bs <> [] \/ buf w <> [] ->
    Forall (fun b => b <> []) bs ->
    (declared_length w = 0 /\ minSize w <= len (buf w ++ concat bs))
    \/ (declared_length w <> 0 /\ minSize w <= declared_length w) ->
    (forall p, p <> [] -> p `prefix_of` buf w ++ concat bs ->
               contentTypeFilter w (effective_type (set_buf p w)) = true) ->
    Forall (fun r => snd r = None) (snd (Writes w bs)) ->
    let w' := fst (Writes w bs) in
    gw w' = Some (GzW (level w)) /\ ignore w' = false
    /\ gz_fed (log w') = gz_fed (log w) ++ buf w ++ concat bs
    /\ sink_fed (log w') = sink_fed (log w)
    /\ Header_Get (hdr w') contentEncoding = "gzip"
    /\ hdr w' !! contentLength = None.
Proof.
  induction bs as [| b bs IH];
    intros w Hu Hh Hcap Hwait Hne Hbs Hsize Hty Hok.
  { exfalso. simpl in Hsize. rewrite app_nil_r in Hsize.
    destruct Hne as [Hne | Hne]; [congruence |].
    destruct Hwait as [Hw | [Hw0 Hw]]; [contradiction |]. lia. }
  apply Forall_cons in Hbs as [Hb Hbs].
  rewrite Writes_results in Hok. apply Forall_cons in Hok as [Hr Hok].
  rewrite Writes_cons. revert Hr Hok.
  rewrite (Write_undecided _ _ Hu). cbv zeta.
  pose proof Hu as [Hg Hi]. pose proof (cap_ge w) as [Hc1 Hc2].
  assert (Hlt : len (buf w) < cap w).
  { destruct Hwait as [-> | [_ Hw]]; [rewrite len_nil |]; lia. }
  pose proof (absorb_grows w b Hlt Hb) as Hgrow.
  destruct (waits (absorb w b)) eqn:Wt.
  - (* the call is buffered whole *)
    intros _ Hok. cbn [fst snd] in *.
    unfold waits in Wt. apply andb_true_iff in Wt as [Wt Wlt].
    apply andb_true_iff in Wt as [_ W0].
    change (declared_length (absorb w b)) with (declared_length w) in W0.
    change (minSize (absorb w b)) with (minSize w) in Wlt.
    destruct (absorb_cases w b Hcap) as [[Eb _] | [El _]]; [| lia].
    assert (Hcap' : len (buf (absorb w b)) <= cap (absorb w b))
      by (apply (absorb_bound w b Hcap)).
    assert (Hwait' : buf (absorb w b) = []
                     \/ (declared_length (absorb w b) = 0
                         /\ len (buf (absorb w b)) < minSize (absorb w b))).
    { right. change (declared_length (absorb w b)) with (declared_length w).
      change (minSize (absorb w b)) with (minSize w). lia. }
    assert (Hsize' :
              (declared_length (absorb w b) = 0
               /\ minSize (absorb w b) <= len (buf (absorb w b) ++ concat bs))
              \/ (declared_length (absorb w b) <> 0
                  /\ minSize (absorb w b) <= declared_length (absorb w b))).
    { change (declared_length (absorb w b)) with (declared_length w).
      change (minSize (absorb w b)) with (minSize w).
      rewrite Eb, <- app_assoc. exact Hsize. }
    assert (Hty' : forall p, p <> [] ->
              p `prefix_of` buf (absorb w b) ++ concat bs ->
              contentTypeFilter (absorb w b)
                (effective_type (set_buf p (absorb w b))) = true).
    { intros p Hp Hpre. rewrite set_buf_absorb. apply Hty; [exact Hp |].
      rewrite Eb, <- app_assoc in Hpre. exact Hpre. }
    destruct (IH (absorb w b) Hu Hh Hcap' Hwait' (or_intror Hgrow) Hbs
                Hsize' Hty' Hok) as (Rg & Ri & Rz & Rs & Re & Rl).
    rewrite Rg, Ri, Rz, Rs, Re, Rl, Eb. simpl. rewrite <- app_assoc. tauto.
  - (* the call commits *)
    assert (He : eligible (absorb w b) (assumed_length (absorb w b)) = true).
    { unfold eligible, assumed_length.
      change (hdr (absorb w b)) with (hdr w).
      change (declared_length (absorb w b)) with (declared_length w).
      change (minSize (absorb w b)) with (minSize w).
      change (contentTypeFilter (absorb w b)) with (contentTypeFilter w).
      rewrite Hh. simpl. apply andb_true_iff. split.
      - destruct (declared_length w =? 0) eqn:E0; [apply Z.leb_refl |].
        destruct Hsize as [[H0 _] | [_ Hle]]; lia.
      - change (absorb w b) with (set_buf (buf (absorb w b)) w) at 1.
        apply Hty; [exact Hgrow |]. apply absorb_prefix, Hcap. }
    rewrite He. intros Hr Hok.
    set (w1 := note_type (absorb w b)) in *.
    destruct (note_type_fields (absorb w b))
      as (Nb & Ng & Ni & _ & _ & Nl & Nv & _). fold w1 in Nb, Ng, Ni, Nl, Nv.
    destruct (Write_gzip_fields w1 b (remainder w b)) as (_ & Fi & _ & _ & Fg).
    destruct (Write_gzip_log w1 b (remainder w b))
      as (evs & Hl & Hs & _ & _ & Hn).
    destruct (snd (Write_gzip w1 b (remainder w b))) as [n e] eqn:R.
    simpl in Hr. subst e. destruct (Hn n eq_refl) as [Hfed _].
    assert (Hpos : (0 <? len (buf w1)) = true).
    { destruct (0 <? len (buf w1)) eqn:E; [reflexivity |].
      apply len_pos_nil in E. rewrite Nb in E. contradiction. }
    rewrite Hpos, Nv in Fg. change (level (absorb w b)) with (level w) in Fg.
    destruct (Writes_compressed bs _ _ Fg) as (Cg & Ci & Ch & Cz & Cs).
    rewrite Cg, Ci, Ch, Cz, Cs, Fi, Ni, Hl, Nl.
    rewrite gz_fed_app, sink_fed_app, Hs, Hfed, Nb, app_nil_r.
    rewrite Write_gzip_hdr.
    destruct (startGzip_headers w1) as [-> ->].
    change (log (absorb w b)) with (log w).
    change (ignore (absorb w b)) with (ignore w).
    repeat split; try assumption.
    unfold absorb, remainder. simpl. rewrite <- !app_assoc. do 2 f_equal.
    rewrite app_assoc, take_drop. reflexivity.
Qed.

(** C1, amended.  Take a fresh writer whose headers carry no opt-out
    marker, no Content-Encoding and no Content-Range, and a handler that
    only writes, at least once and never an empty slice.  If the declared
    Content-Length is at least minSize, or none is declared and the bytes
    written reach minSize, if the effective content type passes the filter
    on whatever non-empty prefix of the body it is sniffed from, and if no
    call reports an error, then the writer is committed to the compressor,
    the compressor has been fed exactly the bytes of the calls, in order,
    the writer itself has handed nothing to the sink, Content-Encoding is
    gzip and Content-Length is no longer in the header map. *)
Theorem eligible_response_is_compressed
  (w : GzipResponseWriter) (bs : list bytes) :
  undecided w -> buf w = [] ->
  headers_allow (hdr w) = true ->
  bs <> [] -> Forall (fun b => b <> []) bs ->
  minSize w <= declared_length w
  \/ (declared_length w = 0 /\ minSize w <= len (concat bs)) ->
  (forall p, p <> [] -> p `prefix_of` concat bs ->
             contentTypeFilter w (effective_type (set_buf p w)) = true) ->
  Forall (fun r => snd r = None) (snd (Writes w bs)) ->
  let w' := fst (Writes w bs) in
  gw w' = Some (GzW (level w)) /\ ignore w' = false
  /\ gz_fed (log w') = gz_fed (log w) ++ concat bs
  /\ sink_fed (log w') = sink_fed (log w)
  /\ Header_Get (hdr w') contentEncoding = "gzip"
  /\ hdr w' !! contentLength = None.
Proof.
  intros Hu Hb Hh Hne Hbs Hsize Hty Hok.
  pose proof (len_nonneg (concat bs)) as Hpos.
  pose proof (cap_ge w) as [Hc _].
  pose proof (Writes_compress bs w Hu Hh) as H.
  rewrite Hb in H. simpl in H. apply H; auto.
  - rewrite len_nil. lia.
  - destruct (Z.eq_dec (declared_length w) 0) as [E | E].
    + left. split; [exact E |]. destruct Hsize as [Hs | [_ Hs]]; lia.
    + right. split; [exact E |]. destruct Hsize as [Hs | [E' _]]; [lia | lia].
Qed.

(** ** Errors from downstream *)

Lemma Write_log w b :
  exists evs, log (fst (Write w b)) = log w ++ evs
    /\ forall e, In e evs -> forall d, event_err e = Some d ->
         snd (snd (Write w b)) = Some (Downstream d).
Proof.
  destruct (modes w) as [[g Hg] | [[Hg Hi] | Hu]].
  - rewrite (Write_compressed _ _ _ Hg). cbv zeta. eexists [_].
    split; [reflexivity |]. intros e [<- | []] d Hd. simpl in *.
    rewrite Hd. reflexivity.
  - rewrite (Write_passthrough _ _ Hg Hi). cbv zeta. eexists [_].
    split; [reflexivity |]. intros e [<- | []] d Hd. simpl in *.
    rewrite Hd. reflexivity.
  - rewrite (Write_undecided _ _ Hu). cbv zeta.
    destruct (waits _).
    + exists []. simpl. rewrite app_nil_r. split; [reflexivity |].
      intros e [].
    + destruct (note_type_fields (absorb w b)) as (_ & _ & _ & _ & _ & Nl & _).
      change (log (absorb w b)) with (log w) in Nl.
      destruct (eligible _ _).
      * destruct (Write_gzip_log (note_type (absorb w b)) b (remainder w b))
          as (evs & Hl & _ & _ & He & _).
        exists evs. rewrite Hl, Nl. split; [reflexivity |].
        intros e Hin d Hd. rewrite (He e Hin d Hd). reflexivity.
      * match goal with |- context [Write_plain ?x _ _] =>
          destruct (Write_plain_log x b (remainder w b))
            as (evs & Hl & _ & _ & He & _);
          assert (Hx : log x = log w) end.
        { destruct (_ && _); [exact Nl | reflexivity]. }
        exists evs. rewrite Hl, Hx. split; [reflexivity |].
        intros e Hin d Hd. rewrite (He e Hin d Hd). reflexivity.
Qed.

(** C2, amended.  An error the sink or the compressor returns to a call
    made during [Write] (while the buffer is handed over, while the
    remainder is written, or on the direct path once decided) is what
    [Write] returns, unchanged.  [Close] returns the compressor's [Close]
    error unchanged; but when [Close] has to commit plain, an error of the
    sink is replaced by a new error built by [fmt.Errorf], whose message
    quotes the message of the original.  ([Flush] returns nothing.) *)
Theorem downstream_errors_reach_the_caller (w : GzipResponseWriter) :
  (forall b,
     exists evs, log (fst (Write w b)) = log w ++ evs
       /\ forall e, In e evs -> forall d, event_err e = Some d ->
            snd (snd (Write w b)) = Some (Downstream d))
  /\ (forall g, gw w = Some g -> ignore w = false ->
       log (fst (Close w)) = log w ++ [GzClose (gz_Close (log w))]
       /\ snd (Close w) = Downstream <$> gz_Close (log w))
  /\ (undecided w ->
       exists evs, log (fst (Close w)) = log w ++ evs
         /\ forall e, In e evs -> forall d, event_err e = Some d ->
              snd (Close w) = Some (errorf_close (Downstream d))).
Proof.
  split; [intros b; apply Write_log |]. split.
  - intros g Hg Hi. unfold Close. rewrite Hg, Hi. split; reflexivity.
  - intros [Hg Hi]. unfold Close. rewrite Hg, Hi.
    destruct (startPlain_log w) as (evs & Hl & _ & _ & _ & He).
    destruct (startPlain w) as [w1 err]. simpl in *.
    exists evs. split; [exact Hl |].
    intros e Hin d Hd. rewrite (He e Hin d Hd). reflexivity.
Qed.

(** ** Closing twice *)

Lemma startPlain_empty w : buf w = [] -> snd (startPlain w) = None.
Proof.
  intros Hb. unfold startPlain.
  destruct (flush_code_fields w) as (Fb & _). simpl. rewrite Fb, Hb.
  reflexivity.
Qed.

(** C7, amended.  In every state a request can bring the writer to, a
    [Close] that follows a [Close] which returned no error returns no error
    either, makes no call on the compressor (so it is not released again)
    and hands no byte to the sink, from the buffer or otherwise. *)
Theorem second_close_writes_nothing (c : config) (h : Header) (cs : list call) :
  let w := run cs (newWriter c h) in
  forall w1, Close w = (w1, None) ->
  exists w2, Close w1 = (w2, None)
    /\ gz_events (log w2) = gz_events (log w1)
    /\ gz_fed (log w2) = gz_fed (log w1)
    /\ sink_fed (log w2) = sink_fed (log w1)
    /\ buf w2 = [].
Proof.
  intros w w1 HC.
  assert (Hwf : wf w) by apply run_wf, newWriter_wf.
  assert (Hplain : forall x, ignore x = true -> buf x = [] ->
            exists w2, Close x = (w2, None)
              /\ gz_events (log w2) = gz_events (log x)
              /\ gz_fed (log w2) = gz_fed (log x)
              /\ sink_fed (log w2) = sink_fed (log x) /\ buf w2 = []).
  { intros x Hx Hb. exists x. unfold Close. rewrite Hx. tauto. }
  destruct (modes w) as [[g Hg] | [[Hg Hi] | [Hg Hi]]].
  - (* the compressor was closed: the second call commits plain, with
       nothing buffered *)
    destruct Hwf as (_ & Hb & _).
    destruct Hb as [Hb Hi]; [congruence |].
    unfold Close in HC. rewrite Hi, Hg in HC. injection HC as <- _.
    unfold Close. simpl. rewrite Hi.
    pose proof (startPlain_empty
                  (set_gw None (emit (GzClose (gz_Close (log w))) w)) Hb) as E.
    pose proof (startPlain_log
                  (set_gw None (emit (GzClose (gz_Close (log w))) w)))
      as (evs & Hl & Hz & Hs & Hc & _).
    pose proof (startPlain_fields
                  (set_gw None (emit (GzClose (gz_Close (log w))) w)))
      as (Fb & _).
    destruct (startPlain _) as [w2 e]. simpl in *. subst e.
    exists w2. split; [reflexivity |].
    rewrite Hl, gz_events_app, sink_fed_app, gz_fed_app, Hz, Hs, Hb.
    assert (Hgf : gz_fed evs = []).
    { clear -Hz. induction evs as [| e evs IH]; [reflexivity |].
      destruct e; simpl in *; try discriminate; apply IH, Hz. }
    rewrite Hgf, !app_nil_r. tauto.
  - unfold Close in HC. rewrite Hi in HC. injection HC as <-.
    apply Hplain; [exact Hi |]. apply Hwf, Hi.
  - unfold Close in HC. rewrite Hi, Hg in HC.
    pose proof (startPlain_fields w) as (Fb & _ & Fi & _).
    destruct (startPlain w) as [w1' e]. simpl in *.
    injection HC as <- _. apply Hplain; assumption.
Qed.

(** ** Where the code departs from its own comments *)

Lemma Write_plain_no_remainder w b :
  fst (Write_plain w b []) = fst (startPlain w).
Proof.
  unfold Write_plain. destruct (startPlain w) as [w1 [e |]]; reflexivity.
Qed.

(** The state [startPlain] leaves, whatever the sink answers. *)
Lemma startPlain_state w :
  exists n err,
    fst (startPlain w) =
      let w1 := set_ignore true
                  (set_hdr (Header_Del (hdr (flush_code w)) HeaderNoCompression)
                           (flush_code w)) in
      if len (buf w1) =? 0 then w1
      else set_buf [] (emit (SinkWrite (buf w1) (hdr w1) n err) w1).
Proof.
  unfold startPlain, rw_Write. cbv zeta.
  destruct (len _ =? 0); [exists 0, None; reflexivity |].
  destruct (sink_Write _ _) as [n err]. exists n, err. reflexivity.
Qed.

(** C3, at the failing input.  The handler sets the opt-out marker, calls
    [WriteHeader(200)] and writes six bytes.  The response is sent plain,
    but [startPlain] commits the status code before it deletes the marker:
    the header map the sink sends the head from still carries it, and the
    deletion comes too late.  (The constant's comment says: "The Header is
    always removed from output.") *)
Theorem marker_is_sent_with_an_explicit_status :
  let w := run [CallHeader (fun h => Header_Set h HeaderNoCompression "1");
                CallWriteHeader 200; CallWrite (text 6)]
             (newWriter cfg_ex ∅) in
  plain w
  /\ sink_fed (log w) = text 6
  /\ (exists h, head_sent (log w) = Some h
               /\ Header_values h HeaderNoCompression = ["1"])
  /\ Header_values (hdr w) HeaderNoCompression = [].
Proof.
  cbv zeta. unfold run. cbn [fold_left step].
  set (w0 := WriteHeader _ 200).
  assert (Hu : undecided w0) by (split; reflexivity).
  assert (Hh : headers_allow (hdr w0) = false) by (vm_compute; reflexivity).
  rewrite (Write_marked _ _ Hu Hh).
  replace (remainder w0 (text 6)) with (@nil Byte.byte)
    by (vm_compute; reflexivity).
  rewrite Write_plain_no_remainder.
  destruct (startPlain_state (absorb w0 (text 6))) as (n & err & ->).
  vm_compute. repeat split. eexists. split; reflexivity.
Qed.

(** C4, at the failing input.  With a Content-Length of 2000 declared, the
    handler calls [WriteHeader(200)], writes an empty slice, calls
    [WriteHeader(500)] and writes one byte.  The empty [Write] runs
    [startGzip], which commits 200 and sets Content-Encoding but, the
    buffer being empty, builds no compressor and leaves the writer
    undecided; the second [Write] then runs [startPlain], which commits 500
    as well and hands the byte to the sink uncompressed, under a header map
    that says gzip.  ([startGzip] and [startPlain] reset [code] with the
    comment: "Ensure that no other WriteHeader's happen".) *)
Theorem status_is_committed_twice :
  let w := run [CallWriteHeader 200; CallWrite []; CallWriteHeader 500;
                CallWrite (text 1)]
             (newWriter cfg_ex (Header_Set ∅ contentLength "2000")) in
  status_commits (log w) = [200; 500]
  /\ gz_events (log w) = []
  /\ sink_fed (log w) = text 1
  /\ Header_Get (hdr w) contentEncoding = "gzip".
Proof.
  cbv zeta. unfold run. cbn [fold_left step].
  set (w1 := WriteHeader (fst (Write _ [])) 500).
  assert (Hu : undecided w1) by (split; vm_compute; reflexivity).
  assert (Hh : headers_allow (hdr w1) = false) by (vm_compute; reflexivity).
  assert (Hc : status_commits (log w1) = [200]) by (vm_compute; reflexivity).
  rewrite (Write_marked _ _ Hu Hh).
  replace (remainder w1 (text 1)) with (@nil Byte.byte)
    by (vm_compute; reflexivity).
  rewrite Write_plain_no_remainder.
  destruct (startPlain_state (absorb w1 (text 1))) as (n & err & ->).
  vm_compute. repeat split.
Qed.

End Props.

(** ** The gate *)

Lemma str_drop_length n s :
  String.length (str_drop n s) = (String.length s - n)%nat.
Proof.
  revert s. induction n as [| n IH]; intros [| c t]; simpl; try reflexivity.
  apply IH.
Qed.

Lemma IndexByte_range s c : -1 <= IndexByte s c < Z.of_nat (String.length s).
Proof.
  induction s as [| d t IH]; simpl; [lia |].
  destruct (Ascii.eqb d c); [lia |].
  destruct (IndexByte t c <? 0) eqn:E; lia.
Qed.

(** One round of the loop of [parseEncodingGzip]. *)
Lemma parseEncodingGzip_loop_round (L : GoLib) fuel s :
  parseEncodingGzip_loop (S fuel) s =
    if (0 <? String.length s)%nat then
      let stop := IndexByte s "," in
      let stop := if stop <? 0 then Z.of_nat (String.length s) else stop in
      let '(coding, qvalue, _) := parseCoding (str_take (Z.to_nat stop) s) in
      if String.eqb coding "gzip" then Some qvalue
      else if stop =? Z.of_nat (String.length s) then Some 0%float
      else parseEncodingGzip_loop fuel (str_drop (Z.to_nat (stop + 1)) s)
    else Some 0%float.
Proof. reflexivity. Qed.

(** The loop of [parseEncodingGzip] ends within the rounds it is given. *)
Lemma parseEncodingGzip_loop_total (L : GoLib) fuel s :
  (String.length s < fuel)%nat -> is_Some (parseEncodingGzip_loop fuel s).
Proof.
  revert s. induction fuel as [| fuel IH]; intros s Hlt; [lia |].
  cbn [parseEncodingGzip_loop].
  destruct (0 <? String.length s)%nat eqn:E0; [| eauto].
  pose proof (IndexByte_range s ",") as R.
  set (stop := if IndexByte s "," <? 0 then Z.of_nat (String.length s)
               else IndexByte s ",").
  assert (Hs : 0 <= stop <= Z.of_nat (String.length s)).
  { subst stop. destruct (IndexByte s "," <? 0) eqn:E; lia. }
  destruct (parseCoding _) as [[coding q] e].
  destruct (String.eqb coding "gzip"); [eauto |].
  destruct (stop =? Z.of_nat (String.length s)) eqn:E; [eauto |].
  apply IH. rewrite str_drop_length. apply Nat.ltb_lt in E0. lia.
Qed.

(** What [acceptsGzip] tests. *)
Lemma acceptsGzip_iff (L : GoLib) r :
  acceptsGzip r = true <->
  Method r <> MethodHead
  /\ PrimFloat.ltb 0%float
       (parseEncodingGzip (Header_Get (ReqHeader r) acceptEncoding)) = true.
Proof.
  unfold acceptsGzip. rewrite andb_true_iff, negb_true_iff, String.eqb_neq.
  reflexivity.
Qed.

(** With a single parameter the weight is read: q=0 refuses gzip. *)
Lemma gate_refuses_q0 :
  acceptsGzip (L := lib_ex)
    (mkRequest "GET" (Header_Set ∅ acceptEncoding "gzip;q=0")) = false.
Proof. vm_compute. reflexivity. Qed.

(** C8, at the failing input.  [parseCoding] resets the weight to
    [DefaultQValue] on every part, so only the last part of an entry
    counts: a GET whose Accept-Encoding is "gzip;q=0;x=y" passes the
    gate, whatever [ParseFloat] returns for "0", although the entry refuses
    gzip with q=0.  ([DefaultQValue] is documented as the weight of an
    encoding "if no explicit qvalue is set".) *)
Theorem gate_lets_in_a_refused_gzip (L : GoLib) :
  fst (parseCoding "gzip;q=0;x=y") = ("gzip", 1%float)
  /\ acceptsGzip
       (mkRequest "GET" (Header_Set ∅ acceptEncoding "gzip;q=0;x=y")) = true.
Proof.
  assert (H : exists e, parseCoding "gzip;q=0;x=y" = ("gzip", 1%float, e)).
  { unfold parseCoding.
    change (Split "gzip;q=0;x=y" ";") with ["gzip"; "q=0"; "x=y"].
    cbn [parseCoding_loop]. unfold parseCoding_part at 3.
    change (TrimSpace "gzip") with "gzip". cbn [Nat.eqb].
    change (ToLower "gzip") with "gzip".
    unfold parseCoding_part at 2.
    change (TrimSpace "q=0") with "q=0". cbn [Nat.eqb].
    change (HasPrefix "q=0" "q=") with true. cbv iota.
    change (TrimPrefix "q=0" "q=") with "0".
    destruct (ParseFloat "0") as [q e].
    unfold parseCoding_part.
    change (TrimSpace "x=y") with "x=y". cbn [Nat.eqb].
    change (HasPrefix "x=y" "q=") with false. cbv iota.
    eexists. reflexivity. }
  destruct H as [e H]. split; [rewrite H; reflexivity |].
  unfold acceptsGzip. cbn [Method ReqHeader].
  change (Header_Get (Header_Set ∅ acceptEncoding "gzip;q=0;x=y")
            acceptEncoding) with "gzip;q=0;x=y".
  unfold parseEncodingGzip.
  change (TrimSpace "gzip;q=0;x=y") with "gzip;q=0;x=y".
  rewrite parseEncodingGzip_loop_round.
  change (0 <? String.length "gzip;q=0;x=y")%nat with true.
  change (IndexByte "gzip;q=0;x=y" ",") with (-1).
  cbv zeta.
  match goal with |- context [str_take ?n ?t] =>
    change (str_take n t) with "gzip;q=0;x=y" end.
  rewrite H. reflexivity.
Qed.

Lemma second_close_writes_nothing_witness :
  let w := run (L := lib_ex) (D := ideal) [CallWrite (text 6)]
             (newWriter cfg_ex ∅) in
  let w1 := fst (Close (L := lib_ex) (D := ideal) w) in
  exists w2, Close (L := lib_ex) (D := ideal) w1 = (w2, None)
    /\ gz_events (log w2) = gz_events (log w1)
    /\ gz_fed (log w2) = gz_fed (log w1)
    /\ sink_fed (log w2) = sink_fed (log w1)
    /\ buf w2 = [].
Proof.
  intros w w1.
  apply (second_close_writes_nothing (L := lib_ex) (D := ideal)
           cfg_ex ∅ [CallWrite (text 6)] w1).
  vm_compute. reflexivity.
Defined.

(** C7 as stated fails: the second [Close] is not a no-op.  After a
    compressed response, with a status code recorded after the commit, the
    first [Close] closes the compressor and returns no error; the second
    commits that status code on the sink and leaves the writer in another
    state. *)
Lemma second_close_is_not_a_noop :
  let w := run (L := lib_ex) (D := ideal)
             [CallWrite (text 6); CallWriteHeader 500] (newWriter cfg_ex ∅) in
  let r1 := Close (L := lib_ex) (D := ideal) w in
  let r2 := Close (L := lib_ex) (D := ideal) (fst r1) in
  snd r1 = None /\ snd r2 = None
  /\ gz_fed (log (fst r1)) = text 6
  /\ status_commits (log (fst r1)) = []
  /\ status_commits (log (fst r2)) = [500]
  /\ log (fst r2) <> log (fst r1)
  /\ ignore (fst r1) = false /\ ignore (fst r2) = true.
Proof.
  vm_compute. repeat split. discriminate.
Qed.

Lemma downstream_errors_reach_the_caller_witness :
  let w := run (L := lib_ex) (D := broken) [CallWrite (text 2)]
             (newWriter cfg_ex ∅) in
  undecided w
  /\ exists evs,
       log (fst (Close (L := lib_ex) (D := broken) w)) = log w ++ evs
       /\ forall e, In e evs -> forall d, event_err e = Some d ->
            snd (Close (L := lib_ex) (D := broken) w)
            = Some (errorf_close (L := lib_ex) (Downstream d)).
Proof.
  intros w.
  assert (Hu : undecided w) by (split; vm_compute; reflexivity).
  split; [exact Hu |].
  exact (proj2 (proj2 (downstream_errors_reach_the_caller
                         (L := lib_ex) (D := broken) w)) Hu).
Defined.

(** C2 as stated fails at [Close]: on an undecided writer with two bytes
    buffered and a sink that answers "broken pipe", the sink is called
    once, and what [Close] returns is not that error but a new one. *)
Lemma close_replaces_the_sink_error :
  let w := run (L := lib_ex) (D := broken) [CallWrite (text 2)]
             (newWriter cfg_ex ∅) in
  let r := Close (L := lib_ex) (D := broken) w in
  log (fst r) = [SinkWrite (text 2) ∅ 0 (Some "broken pipe")]
  /\ snd r = Some (errorf_close (L := lib_ex) (Downstream "broken pipe"))
  /\ snd r <> Some (Downstream "broken pipe").
Proof.
  vm_compute. repeat split. discriminate.
Qed.

Lemma eligible_response_is_compressed_witness :
  let w := newWriter cfg_ex ∅ in
  let bs := [text 2; text 3; text 1] in
  let w' := fst (Writes (L := lib_ex) (D := ideal) w bs) in
  gw w' = Some (GzW (level w)) /\ ignore w' = false
  /\ gz_fed (log w') = gz_fed (log w) ++ concat bs
  /\ sink_fed (log w') = sink_fed (log w)
  /\ Header_Get (hdr w') contentEncoding = "gzip"
  /\ hdr w' !! contentLength = None.
Proof.
  intros w bs.
  apply (eligible_response_is_compressed (L := lib_ex) (D := ideal) w bs).
  - split; reflexivity.
  - reflexivity.
  - vm_compute; reflexivity.
  - discriminate.
  - repeat constructor; discriminate.
  - right. split; vm_compute; [reflexivity | discriminate].
  - intros p _ _. reflexivity.
  - vm_compute. repeat constructor.
Defined.

(** C1 as stated fails on a response that carries a Content-Range: six
    bytes of an eligible type, above the threshold of four, all accepted
    by the sink, reach the sink as they are; nothing is fed to a
    compressor and Content-Encoding is not set. *)
Lemma content_range_response_is_not_compressed :
  let w := newWriter cfg_ex
             (Header_Set (Header_Set ∅ contentType "text/plain")
                         contentRange "bytes 0-5/12") in
  let bs := [text 6] in
  let w' := fst (Writes (L := lib_ex) (D := ideal) w bs) in
  (undecided w /\ buf w = []
   /\ minSize w <= len (concat bs)
   /\ contentTypeFilter w
        (effective_type (L := lib_ex) (set_buf (concat bs) w)) = true
   /\ snd (Writes (L := lib_ex) (D := ideal) w bs) = [(6, None)])
  /\ ~ (gz_fed (log w') = concat bs
        /\ Header_Get (hdr w') contentEncoding = "gzip"
        /\ hdr w' !! contentLength = None)
  /\ gz_fed (log w') = [] /\ sink_fed (log w') = concat bs
  /\ Header_Get (hdr w') contentEncoding = "".
Proof.
  vm_compute.
  repeat split; try reflexivity; try discriminate.
  intros (H & _). discriminate H.
Qed.

Lemma flush_forces_the_decision_witness :
  let w := run (L := lib_ex) (D := ideal) [CallWrite (text 2)]
             (newWriter cfg_ex ∅) in
  undecided w /\ buf w = text 2 /\ minSize w = 4
  /\ declared_length (L := lib_ex) w = 0
  /\ gw (Flush (L := lib_ex) (D := ideal) w) = Some (GzW (level w)).
Proof.
  intros w.
  assert (Hu : undecided w) by (split; vm_compute; reflexivity).
  assert (Hb : buf w = text 2) by (vm_compute; reflexivity).
  assert (Hn : buf w <> []) by (rewrite Hb; discriminate).
  assert (Hh : headers_allow (hdr w) = true) by (vm_compute; reflexivity).
  assert (H0 : declared_length (L := lib_ex) w = 0) by (vm_compute; reflexivity).
  assert (Hf : contentTypeFilter w (effective_type (L := lib_ex) w) = true)
    by (vm_compute; reflexivity).
  split; [exact Hu |]. split; [exact Hb |]. split; [vm_compute; reflexivity |].
  split; [exact H0 |].
  exact (proj2 (proj2 (proj2 (proj2 (flush_forces_the_decision
           (L := lib_ex) (D := ideal) w Hu))) Hn Hh H0 Hf)).
Defined.

Lemma small_declared_length_commits_plain_witness :
  let w := newWriter cfg_ex (Header_Set ∅ contentLength "3") in
  let w1 := fst (Write (L := lib_ex) (D := ideal) w (text 3)) in
  declared_length (L := lib_ex) w = 3
  /\ minSize w = 4
  /\ plain w1
  /\ hdr w1 = Header_Del (hdr w) HeaderNoCompression
  /\ sink_fed (log w1) = text 3.
Proof.
  intros w w1.
  assert (Hu : undecided w) by (split; reflexivity).
  assert (Hd : declared_length (L := lib_ex) w = 3) by (vm_compute; reflexivity).
  assert (H0 : declared_length (L := lib_ex) w <> 0) by (rewrite Hd; lia).
  assert (Hlt : declared_length (L := lib_ex) w < minSize w)
    by (rewrite Hd; simpl; lia).
  pose proof (small_declared_length_commits_plain (L := lib_ex) (D := ideal)
                w (text 3) Hu H0 Hlt) as (Hp & Hh & _ & _ & Hn).
  split; [exact Hd |]. split; [reflexivity |].
  split; [exact Hp |]. split; [exact Hh |].
  destruct (Hn 3 ltac:(vm_compute; reflexivity)) as [_ Hs].
  exact (proj2 (proj2 (proj2 (Hs [])))).
Defined.

Lemma marked_response_commits_plain_witness :
  let w := newWriter cfg_ex (Header_Set ∅ contentRange "bytes 0-5/12") in
  let w1 := fst (Write (L := lib_ex) (D := ideal) w (text 6)) in
  let w' := run (L := lib_ex) (D := ideal) [CallWrite (text 6); CallClose] w1 in
  undecided w /\ headers_allow (hdr w) = false
  /\ plain w1 /\ plain w' /\ gz_events (log w') = gz_events (log w).
Proof.
  intros w w1 w'.
  assert (Hu : undecided w) by (split; reflexivity).
  assert (Hh : headers_allow (hdr w) = false) by (vm_compute; reflexivity).
  split; [exact Hu |]. split; [exact Hh |].
  exact (proj1 (marked_response_commits_plain (L := lib_ex) (D := ideal)
                  w Hu Hh) (text 6) [CallWrite (text 6); CallClose]).
Defined.

Lemma wait_absorbs_whole_call_witness :
  let w := run (L := lib_ex) (D := ideal) [CallWriteHeader 200]
             (newWriter cfg_ex ∅) in
  exists w',
    Write (L := lib_ex) (D := ideal) w (text 3) = (w', (3, None))
    /\ undecided w'
    /\ (remainder w (text 3) = [] /\ buf w' = buf w ++ text 3 /\ 3 = len (text 3)).
Proof.
  intros w.
  exists (fst (Write (L := lib_ex) (D := ideal) w (text 3))).
  assert (HW : Write (L := lib_ex) (D := ideal) w (text 3)
               = (fst (Write (L := lib_ex) (D := ideal) w (text 3)), (3, None)))
    by (vm_compute; reflexivity).
  assert (Hu : undecided (fst (Write (L := lib_ex) (D := ideal) w (text 3))))
    by (split; vm_compute; reflexivity).
  split; [exact HW |]. split; [exact Hu |].
  exact (proj2 (proj2 (wait_absorbs_whole_call (L := lib_ex) (D := ideal)
                         cfg_ex ∅ [CallWriteHeader 200]) (text 3))
               _ _ HW Hu).
Defined.

(** * Further properties *)

Section More.

Context {L : GoLib} {D : Downstreams}.

Lemma flush_code_log_eq w :
  log (flush_code w) =
    log w ++ (if code w =? 0 then [] else [SinkWriteHeader (code w) (hdr w)]).
Proof.
  unfold flush_code, rw_WriteHeader. destruct (code w =? 0); simpl.
  - rewrite app_nil_r. reflexivity.
  - reflexivity.
Qed.

Lemma startPlain_shape w :
  exists rest,
    log (fst (startPlain w)) =
      log w ++ (if code w =? 0 then [] else [SinkWriteHeader (code w) (hdr w)])
            ++ rest
    /\ status_commits rest = [].
Proof.
  pose proof (flush_code_log_eq w) as Hl.
  unfold startPlain. simpl.
  destruct (len (buf (flush_code w)) =? 0); simpl.
  - exists []. rewrite Hl, app_nil_r. split; reflexivity.
  - unfold rw_Write. destruct (sink_Write _ _) as [n err]. simpl.
    eexists [_]. rewrite Hl, <- app_assoc. split; reflexivity.
Qed.

Lemma startGzip_shape w :
  exists h rest,
    log (fst (startGzip w)) =
      log w ++ (if code w =? 0 then [] else [SinkWriteHeader (code w) h])
            ++ rest
    /\ status_commits rest = [].
Proof.
  unfold startGzip.
  set (w1 := if negb (keepAcceptRanges _) then _ else _).
  assert (H1 : log w1 = log w /\ code w1 = code w).
  { subst w1. simpl. destruct (keepAcceptRanges w); simpl; tauto. }
  destruct H1 as (Hlog & Hcode).
  pose proof (flush_code_log_eq w1) as Hl. rewrite Hlog, Hcode in Hl.
  exists (hdr w1).
  destruct (0 <? len (buf (flush_code w1))); simpl.
  - unfold gw_Write, init. simpl. destruct (gz_Write _ _) as [n err]. simpl.
    eexists [_; _]. rewrite Hl, <- !app_assoc. split; reflexivity.
  - exists []. rewrite Hl, app_nil_r. split; reflexivity.
Qed.

Lemma Write_plain_shape w b r :
  exists rest,
    log (fst (Write_plain w b r)) =
      log w ++ (if code w =? 0 then [] else [SinkWriteHeader (code w) (hdr w)])
            ++ rest
    /\ status_commits rest = [].
Proof.
  destruct (startPlain_shape w) as (rest & Hl & Hs). unfold Write_plain.
  destruct (startPlain w) as [w1 [e |]]; simpl in *; [eauto |].
  destruct (0 <? len r); [| eauto].
  unfold rw_Write. destruct (sink_Write _ _) as [n [d |]]; simpl;
    eexists (rest ++ [_]);
    rewrite Hl, <- !app_assoc, status_commits_app, Hs; split; reflexivity.
Qed.

Lemma Write_gzip_shape w b r :
  exists h rest,
    log (fst (Write_gzip w b r)) =
      log w ++ (if code w =? 0 then [] else [SinkWriteHeader (code w) h])
            ++ rest
    /\ status_commits rest = [].
Proof.
  destruct (startGzip_shape w) as (h & rest & Hl & Hs). unfold Write_gzip.
  destruct (startGzip w) as [w1 [e |]]; simpl in *; [eauto |].
  destruct (0 <? len r); [| eauto].
  unfold gw_Write. destruct (gz_Write _ _) as [n [d |]]; simpl;
    exists h; eexists (rest ++ [_]);
    rewrite Hl, <- !app_assoc, status_commits_app, Hs; split; reflexivity.
Qed.

Lemma status_first_commit l c h rest :
  l = [] ++ (if c =? 0 then [] else [SinkWriteHeader c h]) ++ rest ->
  status_commits rest = [] -> status_first l.
Proof.
  intros -> Hs. simpl. destruct (c =? 0); simpl.
  - left. exact Hs.
  - right. eauto.
Qed.

Lemma status_first_app l l2 :
  status_first l -> status_commits l2 = [] -> status_first (l ++ l2).
Proof.
  intros [H | (c & h & rest & -> & H)] H2.
  - left. rewrite status_commits_app, H, H2. reflexivity.
  - right. exists c, h, (rest ++ l2). split; [reflexivity |].
    rewrite status_commits_app, H, H2. reflexivity.
Qed.

Lemma decided_not_undecided w : decided w \/ undecided w.
Proof.
  unfold decided, undecided. destruct (gw w); [left; left; congruence |].
  destruct (ignore w); tauto.
Qed.

Lemma step_status_first w c :
  is_close c = false -> is_empty_write c = false ->
  quiet w \/ (decided w /\ status_first (log w)) ->
  quiet (step w c) \/ (decided (step w c) /\ status_first (log (step w c))).
Proof.
  intros Hc He [(Hu & Hl & Hb) | (Hd & Hs)].
  - (* nothing decided yet *)
    pose proof Hu as [Hg Hi].
    destruct c as [b | k | | | f]; simpl; try discriminate.
    + rewrite (Write_undecided _ _ Hu). cbv zeta.
      assert (Hne : b <> []) by (destruct b; [discriminate | congruence]).
      pose proof (absorb_grows w b Hb Hne) as Hgrow.
      destruct (waits (absorb w b)) eqn:Wt.
      * left. simpl. split; [exact Hu |]. split; [exact Hl |].
        unfold waits in Wt. apply andb_true_iff in Wt as [_ Wt].
        change (cap (absorb w b)) with (cap w).
        change (minSize (absorb w b)) with (minSize w) in Wt.
        pose proof (cap_ge w). lia.
      * right. destruct (note_type_fields (absorb w b))
          as (Nb & Ng & Ni & Nc & _ & Nl & _).
        destruct (eligible _ _).
        -- destruct (Write_gzip_fields (note_type (absorb w b)) b
                       (remainder w b)) as (_ & _ & _ & _ & Fg).
           destruct (Write_gzip_shape (note_type (absorb w b)) b
                       (remainder w b)) as (h & rest & Hlog & Hr).
           rewrite Nb in Fg. rewrite Nl in Hlog.
           change (log (absorb w b)) with (log w) in Hlog. rewrite Hl in Hlog.
           split.
           ++ left. rewrite Fg.
              destruct (0 <? len (buf (absorb w b))) eqn:E; [congruence |].
              apply len_pos_nil in E. contradiction.
           ++ eapply status_first_commit; eassumption.
        -- match goal with |- context [Write_plain ?x _ _] =>
             destruct (Write_plain_fields x b (remainder w b))
               as (_ & _ & Fi & _);
             destruct (Write_plain_shape x b (remainder w b))
               as (rest & Hlog & Hr);
             assert (Hx : log x = []) end.
           { destruct (_ && _); [rewrite Nl |]; exact Hl. }
           rewrite Hx in Hlog. split; [right; exact Fi |].
           eapply status_first_commit; eassumption.
    + left. unfold WriteHeader, quiet, undecided.
      destruct (code w =? 0); simpl; tauto.
    + destruct (buf w) as [| x l] eqn:Ebuf.
      * rewrite Flush_undecided_empty by assumption.
        left. unfold quiet. rewrite Ebuf. tauto.
      * right. assert (Hne : buf w <> []) by congruence.
        rewrite (Flush_undecided _ Hu Hne).
        match goal with |- context [Flush_forward ?x] =>
          destruct (Flush_forward_fields x) as (_ & Eg & Ei & _);
          rewrite (Flush_forward_log x) end.
        destruct (note_type_fields w) as (Nb & Ng & Ni & Nc & _ & Nl & _).
        unfold decided. rewrite Eg, Ei.
        assert (Hfl : forall (g : option GzipWriter) hh, status_commits
                   ((match g with Some _ => [GzFlush] | None => [] end)
                    ++ (if sink_isFlusher then [SinkFlush hh] else [])) = []).
        { intros g hh. destruct g, sink_isFlusher; reflexivity. }
        destruct (eligible _ _).
        -- destruct (startGzip_fields (note_type w)) as (_ & _ & _ & _ & Fg).
           destruct (startGzip_shape (note_type w)) as (h & rest & Hlog & Hr).
           rewrite Nb, Ebuf in Fg. rewrite Nl, Hl in Hlog.
           split; [left; rewrite Fg; simpl; congruence |].
           apply status_first_app; [| apply Hfl].
           eapply status_first_commit; eassumption.
        -- destruct (startPlain_fields (note_type w)) as (_ & _ & Fi & _).
           destruct (startPlain_shape (note_type w)) as (rest & Hlog & Hr).
           rewrite Nl, Hl in Hlog.
           split; [right; exact Fi |].
           apply status_first_app; [| apply Hfl].
           eapply status_first_commit; eassumption.
    + left. exact (conj Hu (conj Hl Hb)).
  - (* decided *)
    right. destruct c as [b | k | | | f]; simpl; try discriminate.
    + destruct (modes w) as [[g Hg] | [[Hg Hi] | [Hg Hi]]].
      * rewrite (Write_compressed _ _ _ Hg). simpl.
        split; [left; simpl; congruence |]. apply status_first_app; auto.
      * rewrite (Write_passthrough _ _ Hg Hi). simpl.
        split; [right; simpl; exact Hi |]. apply status_first_app; auto.
      * destruct Hd; congruence.
    + unfold WriteHeader, decided in *. destruct (code w =? 0); simpl; tauto.
    + rewrite (Flush_decided _ Hd).
      destruct (Flush_forward_fields w) as (_ & Eg & Ei & _).
      rewrite Flush_forward_log. unfold decided. rewrite Eg, Ei.
      split; [exact Hd |]. rewrite app_assoc.
      apply status_first_app; [apply status_first_app; [exact Hs |] |].
      * destruct (gw w); reflexivity.
      * destruct sink_isFlusher; reflexivity.
    + split; assumption.
Qed.

Lemma run_status_first cs w :
  no_close cs = true -> no_empty_write cs = true ->
  quiet w \/ (decided w /\ status_first (log w)) ->
  quiet (run cs w) \/ (decided (run cs w) /\ status_first (log (run cs w))).
Proof.
  revert w. induction cs as [| c cs IH]; intros w Hc He H; [exact H |].
  simpl in *. apply andb_true_iff in Hc as [Hc1 Hc]. 
  apply andb_true_iff in He as [He1 He].
  apply IH; auto. apply step_status_first; auto.
  - destruct (is_close c); [discriminate | reflexivity].
  - destruct (is_empty_write c); [discriminate | reflexivity].
Qed.

(** X1.  A handler that never calls Close itself and never writes an empty
    slice: when the deferred Close has run, at most one status code has
    been committed on the sink, and it was the first call made downstream. *)
Theorem status_committed_once_and_first (c : config) (h : Header) (cs : list call) :
  no_close cs = true -> no_empty_write cs = true ->
  let w := fst (Close (run cs (newWriter c h))) in
  status_first (log w) /\ (length (status_commits (log w)) <= 1)%nat.
Proof.
  intros Hc He w.
  assert (Hs : status_first (log w)).
  { subst w.
    assert (H0 : quiet (newWriter c h)
                 \/ (decided (newWriter c h)
                     /\ status_first (log (newWriter c h)))).
    { left. split; [split; reflexivity |]. split; [reflexivity |].
      pose proof (cap_ge (newWriter c h)). simpl. rewrite len_nil. lia. }
    destruct (run_status_first cs _ Hc He H0) as [(Hu & Hl & _) | (Hd & Hs)].
    - destruct Hu as [Hg Hi]. unfold Close. rewrite Hi, Hg.
      destruct (startPlain_shape (run cs (newWriter c h))) as (rest & Hlog & Hr).
      destruct (startPlain _) as [w1 e]. simpl in *. rewrite Hl in Hlog.
      eapply status_first_commit; eassumption.
    - unfold Close. destruct (ignore _) eqn:Hi; [exact Hs |].
      destruct (gw _) eqn:Hg; [| destruct Hd; congruence].
      simpl. apply status_first_app; [exact Hs | reflexivity]. }
  split; [exact Hs |].
  destruct Hs as [-> | (k & hh & rest & -> & Hr)]; simpl; [lia |].
  rewrite Hr. simpl. lia.
Qed.
(** ** Every byte goes one way *)

Lemma gz_events_nil_fed l : gz_events l = [] -> gz_fed l = [].
Proof.
  induction l as [| e l IH]; [reflexivity |].
  destruct e; simpl; try discriminate; exact IH.
Qed.

Lemma gw_Write_accepted w b :
  accepting D -> snd (gw_Write w b) = (len b, None).
Proof. intros Ha. unfold gw_Write. simpl. apply Ha. Qed.

Lemma rw_Write_accepted w b :
  accepting D -> snd (rw_Write w b) = (len b, None).
Proof. intros Ha. unfold rw_Write. simpl. apply Ha. Qed.

Lemma startGzip_accepted w : accepting D -> snd (startGzip w) = None.
Proof.
  intros Ha. unfold startGzip. set (w1 := flush_code _).
  destruct (0 <? len (buf w1)); [| reflexivity].
  unfold gw_Write.
  match goal with |- context [gz_Write ?l ?x] =>
    rewrite (proj2 (Ha l x)) end.
  simpl. unfold short_write. rewrite Z.ltb_irrefl. reflexivity.
Qed.

Lemma Write_gzip_accepted w b r :
  accepting D -> snd (Write_gzip w b r) = (len b, None).
Proof.
  intros Ha. unfold Write_gzip.
  pose proof (startGzip_accepted w Ha) as E.
  destruct (startGzip w) as [w1 e]. simpl in E. subst e.
  destruct (0 <? len r); [| reflexivity].
  pose proof (gw_Write_accepted w1 r Ha) as E.
  destruct (gw_Write w1 r) as [w2 [n e]]. simpl in E. injection E as -> ->.
  reflexivity.
Qed.

Lemma startPlain_accepted w : accepting D -> snd (startPlain w) = None.
Proof.
  intros Ha. unfold startPlain. cbv zeta.
  set (w1 := set_ignore true _).
  destruct (len (buf w1) =? 0); [reflexivity |].
  unfold rw_Write.
  match goal with |- context [sink_Write ?l ?x] =>
    rewrite (proj1 (Ha l x)) end.
  simpl. unfold short_write. rewrite Z.ltb_irrefl. reflexivity.
Qed.

Lemma Write_plain_accepted w b r :
  accepting D -> snd (Write_plain w b r) = (len b, None).
Proof.
  intros Ha. unfold Write_plain.
  pose proof (startPlain_accepted w Ha) as E.
  destruct (startPlain w) as [w1 e]. simpl in E. subst e.
  destruct (0 <? len r); [| reflexivity].
  pose proof (rw_Write_accepted w1 r Ha) as E.
  destruct (rw_Write w1 r) as [w2 [n e]]. simpl in E. injection E as -> ->.
  reflexivity.
Qed.

Lemma payload_all w b : buf (absorb w b) ++ remainder w b = buf w ++ b.
Proof.
  unfold absorb, remainder. simpl. rewrite <- app_assoc, take_drop.
  reflexivity.
Qed.

Lemma Write_conserved w b wr :
  accepting D -> wf w -> conserved w wr ->
  conserved (fst (Write w b)) (wr ++ b).
Proof.
  intros Ha Hwf [(Hu & Hb & Hz & Hs) | [(Hg & Hb & Hz & Hs)
                                        | ((Hi & Hg) & Hb & Hs & Hz)]].
  - pose proof Hu as [Hg Hi]. destruct Hwf as (Hcap & _).
    pose proof (cap_ge w) as [Hc _].
    rewrite (Write_undecided _ _ Hu). cbv zeta.
    destruct (note_type_fields (absorb w b)) as (Nb & Ng & Ni & _ & _ & Nl & _).
    destruct (waits (absorb w b)) eqn:Wt.
    + left. unfold waits in Wt. apply andb_true_iff in Wt as [_ Wt].
      change (minSize (absorb w b)) with (minSize w) in Wt.
      destruct (absorb_cases w b Hcap) as [[Eb _] | [El _]];
        [| pose proof (cap_ge w); lia].
      cbn [fst]. rewrite Eb, Hb.
      split; [exact Hu |]. split; [reflexivity |]. split; assumption.
    + destruct (eligible _ _).
      * pose proof (Write_gzip_accepted (note_type (absorb w b)) b
                      (remainder w b) Ha) as Hok.
        destruct (Write_gzip_fields (note_type (absorb w b)) b (remainder w b))
          as (Fb & Fi & _ & _ & Fg).
        destruct (Write_gzip_log (note_type (absorb w b)) b (remainder w b))
          as (evs & Hl & Hsk & _ & _ & Hn).
        destruct (Hn _ Hok) as [Hfed _].
        rewrite Nb, payload_all, Hb in Hfed. rewrite Nb, Ng in Fg.
        rewrite Nl in Hl. change (log (absorb w b)) with (log w) in Hl.
        destruct (0 <? len (buf (absorb w b))) eqn:E.
        -- right. left. rewrite Fg, Hl, gz_fed_app, sink_fed_app, Hz, Hs, Hsk.
           simpl. repeat split; [congruence | exact Fb | exact Hfed].
        -- left. apply len_pos_nil in E.
           assert (Hnil : wr ++ b = []).
           { destruct (absorb_cases w b Hcap) as [[Eb _] | [El _]].
             - rewrite <- Hb, <- Eb. exact E.
             - rewrite E, len_nil in El. lia. }
           rewrite Hnil in *. unfold undecided.
           rewrite Fg, Fi, Ni, Fb, Hl, gz_fed_app, sink_fed_app, Hz, Hs, Hsk.
           change (gw (absorb w b)) with (gw w).
           change (ignore (absorb w b)) with (ignore w).
           simpl. repeat split; assumption.
      * right. right.
        match goal with |- context [Write_plain ?x _ _] =>
          pose proof (Write_plain_accepted x b (remainder w b) Ha) as Hok;
          destruct (Write_plain_fields x b (remainder w b))
            as (Fb & Fg & Fi & _);
          destruct (Write_plain_log x b (remainder w b))
            as (evs & Hl & Hgz & _ & _ & Hn);
          assert (Hx : log x = log w /\ buf x = buf (absorb w b)
                       /\ gw x = None) end.
        { destruct (_ && _); [rewrite Nl, Nb, Ng |]; repeat split; exact Hg. }
        destruct Hx as (Hxl & Hxb & Hxg).
        destruct (Hn _ Hok) as [Hfed _].
        rewrite Hxb, payload_all, Hb in Hfed. rewrite Hxl in Hl.
        unfold plain. rewrite Fg, Fi, Fb, Hxg, Hl, gz_fed_app, sink_fed_app.
        rewrite Hz, Hs, Hfed, (gz_events_nil_fed _ Hgz). tauto.
  - destruct (gw w) as [g |] eqn:Eg; [| congruence].
    rewrite (Write_compressed _ _ _ Eg). right. left. simpl.
    rewrite Eg, gz_fed_app, sink_fed_app, Hz, Hs. simpl.
    rewrite !app_nil_r. repeat split; [congruence | exact Hb].
  - rewrite (Write_passthrough _ _ Hg Hi). right. right.
    unfold plain. simpl.
    rewrite gz_fed_app, sink_fed_app, Hz, Hs. simpl.
    rewrite !app_nil_r. tauto.
Qed.

Lemma Flush_forward_fed w :
  gz_fed (log (Flush_forward w)) = gz_fed (log w)
  /\ sink_fed (log (Flush_forward w)) = sink_fed (log w).
Proof.
  rewrite Flush_forward_log, !gz_fed_app, !sink_fed_app.
  destruct (gw w), sink_isFlusher; simpl; rewrite !app_nil_r; tauto.
Qed.

Lemma Flush_conserved w wr : conserved w wr -> conserved (Flush w) wr.
Proof.
  intros [(Hu & Hb & Hz & Hs) | [(Hg & Hb & Hz & Hs)
                                 | ((Hi & Hg) & Hb & Hs & Hz)]].
  - pose proof Hu as [Hg Hi].
    destruct (buf w) as [| x l] eqn:Ebuf.
    + rewrite Flush_undecided_empty by assumption.
      left. rewrite Ebuf. tauto.
    + assert (Hne : buf w <> []) by congruence.
      rewrite (Flush_undecided _ Hu Hne).
      match goal with |- context [Flush_forward ?x] =>
        destruct (Flush_forward_fields x) as (Eb & Eg & Ei & _);
        destruct (Flush_forward_fed x) as (Ez & Es) end.
      destruct (note_type_fields w) as (Nb & Ng & Ni & _ & _ & Nl & _).
      unfold conserved, plain, undecided. rewrite Eb, Eg, Ei, Ez, Es.
      destruct (eligible _ _).
      * right. left.
        destruct (startGzip_fields (note_type w)) as (Fb & _ & _ & _ & Fg).
        destruct (startGzip_log (note_type w)) as (evs & Hl & Hsk & Hfed & _).
        rewrite Nb, Ebuf in Fg. simpl in Fg.
        rewrite Fg, Fb, Hl, Nl, gz_fed_app, sink_fed_app, Hz, Hs, Hsk, Hfed, Nb.
        rewrite Ebuf, <- Hb. repeat split. congruence.
      * right. right.
        destruct (startPlain_fields (note_type w)) as (Fb & Fg & Fi & _).
        destruct (startPlain_log (note_type w)) as (evs & Hl & Hgz & Hfed & _).
        rewrite Fg, Fi, Fb, Ng, Hl, Nl, gz_fed_app, sink_fed_app, Hz, Hs, Hfed.
        rewrite (gz_events_nil_fed _ Hgz), Nb, Ebuf, <- Hb. tauto.
  - rewrite Flush_decided by (left; exact Hg).
    destruct (Flush_forward_fields w) as (Eb & Eg & Ei & _).
    destruct (Flush_forward_fed w) as (Ez & Es).
    right. left. rewrite Eb, Eg, Ez, Es. tauto.
  - rewrite Flush_decided by (right; exact Hi).
    destruct (Flush_forward_fields w) as (Eb & Eg & Ei & _).
    destruct (Flush_forward_fed w) as (Ez & Es).
    right. right. unfold plain. rewrite Eb, Eg, Ei, Ez, Es. tauto.
Qed.

Lemma written_cons c cs :
  written (c :: cs) =
    (match c with CallWrite b => b | _ => [] end) ++ written cs.
Proof. destruct c; reflexivity. Qed.

Lemma run_conserved cs :
  forall w wr,
    accepting D -> no_close cs = true -> wf w -> conserved w wr ->
    wf (run cs w) /\ conserved (run cs w) (wr ++ written cs).
Proof.
  induction cs as [| c cs IH]; intros w wr Ha Hc Hwf Hcv.
  - simpl. rewrite app_nil_r. tauto.
  - simpl in Hc. apply andb_true_iff in Hc as [Hc1 Hc].
    rewrite written_cons, app_assoc.
    change (run (c :: cs) w) with (run cs (step w c)).
    apply IH; [exact Ha | exact Hc | apply step_wf, Hwf |].
    destruct c as [b | k | | | f]; simpl; try discriminate;
      rewrite ?app_nil_r.
    + apply Write_conserved; assumption.
    + unfold WriteHeader. destruct (code w =? 0); exact Hcv.
    + apply Flush_conserved, Hcv.
    + exact Hcv.
Qed.

(** X2.  With a sink and a compressor that accept every write in full, and
    a handler that does not call Close itself: when the deferred Close has
    run, the bytes the handler wrote have gone one way, whole and in order:
    either all of them were fed to the compressor and the writer handed
    none to the sink, or all of them were handed to the sink and none to
    the compressor. *)
Theorem written_bytes_go_one_way (c : config) (h : Header) (cs : list call) :
  accepting D -> no_close cs = true ->
  let w := fst (Close (run cs (newWriter c h))) in
  (gz_fed (log w) = written cs /\ sink_fed (log w) = [])
  \/ (sink_fed (log w) = written cs /\ gz_fed (log w) = []).
Proof.
  intros Ha Hc.
  assert (H0 : conserved (newWriter c h) []).
  { left. repeat split; reflexivity. }
  destruct (run_conserved cs _ _ Ha Hc (newWriter_wf c h) H0) as [Hwf Hcv].
  simpl in Hcv. set (w1 := run cs (newWriter c h)) in *. cbv zeta.
  destruct Hcv as [(Hu & Hb & Hz & Hs) | [(Hg & Hb & Hz & Hs)
                                          | ((Hi & Hg) & Hb & Hs & Hz)]].
  - right. destruct Hu as [Hg Hi]. unfold Close. rewrite Hi, Hg.
    destruct (startPlain_log w1) as (evs & Hl & Hgz & Hfed & _).
    destruct (startPlain w1) as [w2 e]. simpl in *.
    rewrite Hl, gz_fed_app, sink_fed_app, Hz, Hs, Hfed.
    rewrite (gz_events_nil_fed _ Hgz), Hb. tauto.
  - left. destruct Hwf as (_ & Hm & _). destruct (Hm Hg) as [_ Hi].
    unfold Close. rewrite Hi. destruct (gw w1); [| congruence]. simpl.
    rewrite gz_fed_app, sink_fed_app, Hz, Hs. simpl.
    rewrite !app_nil_r. tauto.
  - right. unfold Close. rewrite Hi. simpl. tauto.
Qed.
(** ** One compressor at most *)

Lemma startGzip_gz w :
  exists evs mid,
    log (fst (startGzip w)) = log w ++ evs
    /\ gz_events evs = (if 0 <? len (buf w) then GzNew (level w) :: mid else [])
    /\ forallb is_gz_use mid = true.
Proof.
  unfold startGzip.
  set (w1 := if negb (keepAcceptRanges _) then _ else _).
  assert (H1 : log w1 = log w /\ buf w1 = buf w /\ level w1 = level w).
  { subst w1. simpl. destruct (keepAcceptRanges w); simpl; tauto. }
  destruct H1 as (Hlog & Hbuf & Hlvl).
  destruct (flush_code_log w1) as (evs & Hl & Hgz & _).
  destruct (flush_code_fields w1) as (Fb & _ & _ & _ & _ & _ & Fl & _).
  rewrite Fb, Hbuf. rewrite Hlog in Hl.
  destruct (0 <? len (buf w)); simpl.
  - unfold gw_Write, init. simpl. destruct (gz_Write _ _) as [n err]. simpl.
    eexists (evs ++ [_; _]), [_]. rewrite Hl, <- !app_assoc.
    split; [reflexivity |]. rewrite gz_events_app, Hgz, Fl, Hlvl.
    split; reflexivity.
  - exists evs, []. rewrite Hl. repeat split. exact Hgz.
Qed.

Lemma Write_gzip_gz w b r :
  (0 <? len (buf w)) = true \/ r = [] ->
  exists evs mid,
    log (fst (Write_gzip w b r)) = log w ++ evs
    /\ gz_events evs = (if 0 <? len (buf w) then GzNew (level w) :: mid else [])
    /\ forallb is_gz_use mid = true.
Proof.
  intros Hor. destruct (startGzip_gz w) as (evs & mid & Hl & Hgz & Hm).
  unfold Write_gzip.
  destruct (startGzip w) as [w1 [e |]]; simpl in *; [eauto |].
  destruct (0 <? len r) eqn:Er; [| eauto].
  destruct Hor as [Hpos | ->]; [| discriminate].
  rewrite Hpos in *.
  unfold gw_Write. destruct (gz_Write _ _) as [n [d |]]; simpl;
    eexists (evs ++ [_]), (mid ++ [_]);
    rewrite Hl, <- !app_assoc, gz_events_app, Hgz;
    (split; [reflexivity |]); (split; [reflexivity |]);
    rewrite forallb_app, Hm; reflexivity.
Qed.

Lemma gz_running_app w w' evs mid :
  gw w <> None -> gz_running w ->
  gw w' = gw w -> level w' = level w -> log w' = log w ++ evs ->
  gz_events evs = mid -> forallb is_gz_use mid = true ->
  gz_running w'.
Proof.
  intros Hg [[Hn _] | (_ & m & Hm & Hf)] Eg El Elog Hev Hmid; [congruence |].
  right. rewrite Eg, El, Elog, gz_events_app, Hm, Hev.
  split; [exact Hg |]. exists (m ++ mid). split; [reflexivity |].
  rewrite forallb_app, Hf, Hmid. reflexivity.
Qed.

Lemma gz_running_same w w' evs :
  gw w = None -> gz_running w ->
  gw w' = None -> log w' = log w ++ evs -> gz_events evs = [] ->
  gz_running w'.
Proof.
  intros Hg [[_ Hz] | (Hn & _)] Eg Elog Hev; [| congruence].
  left. rewrite Elog, gz_events_app, Hz, Hev. tauto.
Qed.

Lemma step_level w c : level (step w c) = level w.
Proof.
  assert (HP : forall x, level (fst (startPlain x)) = level x).
  { intros x. unfold startPlain, flush_code, rw_WriteHeader, rw_Write.
    destruct (negb (code x =? 0)); simpl;
      (destruct (len (buf x) =? 0); [reflexivity |]);
      destruct (sink_Write _ _) as [n e]; reflexivity. }
  assert (HG : forall x, level (fst (startGzip x)) = level x).
  { intros x. unfold startGzip, flush_code, rw_WriteHeader, gw_Write, init.
    destruct (negb (keepAcceptRanges _)); simpl;
      destruct (negb (code x =? 0)); simpl;
      (destruct (0 <? len (buf x)); [| reflexivity]);
      destruct (gz_Write _ _) as [n e]; reflexivity. }
  assert (HN : forall x, level (note_type x) = level x)
    by (intros x; apply note_type_fields).
  assert (HF : forall x, level (Flush_forward x) = level x).
  { intros x. unfold Flush_forward.
    destruct (gw x), sink_isFlusher; reflexivity. }
  destruct c as [b | k | | | f]; simpl.
  - destruct (modes w) as [[g Hg] | [[Hg Hi] | Hu]].
    + rewrite (Write_compressed _ _ _ Hg). reflexivity.
    + rewrite (Write_passthrough _ _ Hg Hi). reflexivity.
    + rewrite (Write_undecided _ _ Hu). cbv zeta.
      destruct (waits _); [reflexivity |].
      destruct (eligible _ _).
      * unfold Write_gzip.
        pose proof (HG (note_type (absorb w b))) as E. rewrite HN in E.
        destruct (startGzip _) as [w1 [e |]]; [exact E |].
        destruct (0 <? len _); [| exact E].
        unfold gw_Write. destruct (gz_Write _ _) as [n [d |]]; exact E.
      * unfold Write_plain.
        match goal with |- context [startPlain ?x] =>
          pose proof (HP x) as E; assert (Hx : level x = level w) end.
        { destruct (_ && _); [rewrite HN |]; reflexivity. }
        rewrite Hx in E.
        destruct (startPlain _) as [w1 [e |]]; [exact E |].
        destruct (0 <? len _); [| exact E].
        unfold rw_Write. destruct (sink_Write _ _) as [n [d |]]; exact E.
  - unfold WriteHeader. destruct (code w =? 0); reflexivity.
  - destruct (modes w) as [[g Hg] | [[Hg Hi] | Hu]].
    + rewrite Flush_decided by (left; congruence). apply HF.
    + rewrite Flush_decided by (right; assumption). apply HF.
    + destruct (buf w) as [| x l] eqn:Hb.
      * rewrite Flush_undecided_empty by assumption. reflexivity.
      * rewrite Flush_undecided by (assumption || congruence).
        rewrite HF. destruct (eligible _ _); [rewrite HG | rewrite HP];
          apply HN.
  - unfold Close. destruct (ignore w); [reflexivity |].
    destruct (gw w); [reflexivity |].
    pose proof (HP w) as E. destruct (startPlain w). exact E.
  - reflexivity.
Qed.

Lemma step_gz_running w c :
  is_close c = false -> wf w -> gz_running w -> gz_running (step w c).
Proof.
  intros Hc Hwf Hrun. pose proof (step_level w c) as Hlvl.
  destruct c as [b | k | | | f]; simpl in *; try discriminate.
  - destruct (modes w) as [[g Hg] | [[Hg Hi] | Hu]].
    + rewrite (Write_compressed _ _ _ Hg) in *. cbv zeta. cbn [fst].
      eapply (gz_running_app w _ [_] [_]); try reflexivity;
        [congruence | exact Hrun].
    + rewrite (Write_passthrough _ _ Hg Hi) in *. cbv zeta. cbn [fst].
      eapply (gz_running_same w _ [_]); try reflexivity; assumption.
    + pose proof Hu as [Hg Hi]. destruct Hwf as (Hcap & _).
      rewrite (Write_undecided _ _ Hu) in *. cbv zeta in *.
      destruct (note_type_fields (absorb w b))
        as (Nb & Ng & _ & _ & _ & Nl & Nv & _).
      destruct (waits _).
      * eapply (gz_running_same w _ []); try reflexivity; try assumption.
        simpl. rewrite app_nil_r. reflexivity.
      * destruct (eligible _ _).
        -- destruct (Write_gzip_fields (note_type (absorb w b)) b
                       (remainder w b)) as (_ & _ & _ & _ & Fg).
           destruct (Write_gzip_gz (note_type (absorb w b)) b (remainder w b))
             as (evs & mid & Hl & Hgz & Hm).
           { rewrite Nb.
             destruct (absorb_cases w b Hcap) as [[_ Er] | [El _]];
               [right; exact Er | left].
             pose proof (cap_ge w). lia. }
           rewrite Nl in Hl. change (log (absorb w b)) with (log w) in Hl.
           rewrite Ng in Fg. change (gw (absorb w b)) with (gw w) in Fg.
           destruct (0 <? len (buf (note_type (absorb w b)))).
           ++ destruct Hrun as [[_ Hz] | (Hn & _)]; [| congruence].
              right. rewrite Fg, Hl, gz_events_app, Hz, Hgz, Hlvl, Nv.
              split; [congruence |]. exists mid. split; [reflexivity | exact Hm].
           ++ eapply (gz_running_same w _ evs); try eassumption.
              rewrite Fg. exact Hg.
        -- match goal with |- context [Write_plain ?x _ _] =>
             destruct (Write_plain_fields x b (remainder w b))
               as (_ & Fg & _);
             destruct (Write_plain_log x b (remainder w b))
               as (evs & Hl & Hgz & _);
             assert (Hx : log x = log w /\ gw x = None) end.
           { destruct (_ && _); [rewrite Nl, Ng |]; split; try exact Hg;
               reflexivity. }
           destruct Hx as [Hxl Hxg]. rewrite Hxl in Hl. rewrite Hxg in Fg.
           eapply (gz_running_same w _ evs); eassumption.
  - unfold WriteHeader in *. destruct (code w =? 0); [| exact Hrun].
    destruct Hrun as [H | H]; [left | right]; exact H.
  - destruct (modes w) as [[g Hg] | [[Hg Hi] | Hu]].
    + rewrite Flush_decided in * by (left; congruence).
      destruct (Flush_forward_fields w) as (_ & Eg & _).
      eapply (gz_running_app w _ _ [GzFlush]); try eassumption;
        [congruence | apply Flush_forward_log | | reflexivity].
      rewrite Hg, gz_events_app. destruct sink_isFlusher; reflexivity.
    + rewrite Flush_decided in * by (right; assumption).
      destruct (Flush_forward_fields w) as (_ & Eg & _).
      eapply (gz_running_same w); try eassumption;
        [congruence | apply Flush_forward_log |].
      rewrite Hg, gz_events_app. destruct sink_isFlusher; reflexivity.
    + pose proof Hu as [Hg Hi].
      destruct (buf w) as [| x l] eqn:Hb.
      * rewrite Flush_undecided_empty by assumption. exact Hrun.
      * assert (Hne : buf w <> []) by congruence.
        rewrite (Flush_undecided _ Hu Hne) in *.
        destruct (note_type_fields w) as (Nb & Ng & _ & _ & _ & Nl & Nv & _).
        destruct Hrun as [[_ Hz] | (Hn & _)]; [| congruence].
        match goal with |- context [Flush_forward ?y] =>
          destruct (Flush_forward_fields y) as (_ & Eg & _);
          pose proof (Flush_forward_log y) as Efl end.
        destruct (eligible _ _).
        -- destruct (startGzip_fields (note_type w)) as (_ & _ & _ & _ & Fg).
           destruct (startGzip_gz (note_type w)) as (evs & mid & Hl & Hgz & Hm).
           rewrite Nb, Hb in Fg, Hgz. simpl in Fg, Hgz.
           rewrite Fg in Efl. rewrite Hl, Nl in Efl.
           right. rewrite Eg, Fg, Efl, Hlvl, !gz_events_app, Hz, Hgz, Nv.
           split; [congruence |].
           exists (mid ++ [GzFlush]). split.
           ++ destruct sink_isFlusher; simpl; rewrite ?app_nil_r; reflexivity.
           ++ rewrite forallb_app, Hm. reflexivity.
        -- destruct (startPlain_fields (note_type w)) as (_ & Fg & _).
           destruct (startPlain_log (note_type w)) as (evs & Hl & Hgz & _).
           rewrite Ng, Hg in Fg. rewrite Fg in Efl. rewrite Hl, Nl in Efl.
           left. rewrite Eg, Fg, Efl, !gz_events_app, Hz, Hgz.
           split; [reflexivity |]. destruct sink_isFlusher; reflexivity.
  - destruct Hrun as [H | H]; [left | right]; exact H.
Qed.

Lemma run_gz_running cs w :
  no_close cs = true -> wf w -> gz_running w ->
  gz_running (run cs w) /\ level (run cs w) = level w.
Proof.
  revert w. induction cs as [| c cs IH]; intros w Hc Hwf Hrun; [tauto |].
  simpl in Hc. apply andb_true_iff in Hc as [Hc1 Hc].
  change (run (c :: cs) w) with (run cs (step w c)).
  rewrite <- (step_level w c). apply IH; [exact Hc | apply step_wf, Hwf |].
  apply step_gz_running; [| exact Hwf | exact Hrun].
  destruct (is_close c); [discriminate | reflexivity].
Qed.

(** X3.  A handler that does not call Close itself: when the deferred Close
    has run, either no call was ever made on the compressor factory or a
    compressor, or exactly one compressor was built, at the configured
    level, then only written to and flushed, and closed once, last. *)
Theorem one_compressor_closed_once (c : config) (h : Header) (cs : list call) :
  no_close cs = true ->
  gz_life (c_level c) (log (fst (Close (run cs (newWriter c h))))).
Proof.
  intros Hc.
  assert (H0 : gz_running (newWriter c h)) by (left; split; reflexivity).
  destruct (run_gz_running cs _ Hc (newWriter_wf c h) H0) as [Hrun Hlvl].
  pose proof (run_wf cs _ (newWriter_wf c h)) as Hwf.
  set (w := run cs (newWriter c h)) in *. simpl in Hlvl.
  unfold Close. destruct Hrun as [[Hg Hz] | (Hg & mid & Hz & Hm)].
  - left. destruct (ignore w); [exact Hz |]. rewrite Hg.
    destruct (startPlain_log w) as (evs & Hl & Hgz & _).
    destruct (startPlain w) as [w1 e]. simpl in *.
    rewrite Hl, gz_events_app, Hz, Hgz. reflexivity.
  - right. destruct Hwf as (_ & Hb & _). destruct (Hb Hg) as [_ Hi].
    rewrite Hi. destruct (gw w); [| congruence]. simpl.
    exists mid, (gz_Close (log w)).
    rewrite gz_events_app, Hz, Hlvl. split; [reflexivity | exact Hm].
Qed.
(** ** The writer's footprint in the header map *)

Lemma footprint_refl h : footprint h h.
Proof. split; reflexivity. Qed.

Lemma footprint_trans h1 h2 h3 :
  footprint h1 h2 -> footprint h2 h3 -> footprint h1 h3.
Proof.
  intros [A1 B1] [A2 B2]. split.
  - intros k Hk. rewrite (A2 k Hk). apply A1, Hk.
  - intros Hh. rewrite <- (B1 Hh). apply B2.
    unfold Header_has in *. rewrite (B1 Hh). exact Hh.
Qed.

Lemma footprint_Del h k :
  In k own_keys -> k <> contentType -> footprint h (Header_Del h k).
Proof.
  intros Hin Hne. unfold Header_Del. split.
  - intros k' Hk'. apply lookup_delete_ne. congruence.
  - intros _. apply lookup_delete_ne. exact Hne.
Qed.

Lemma footprint_Set h k v :
  In k own_keys -> k <> contentType -> footprint h (Header_Set h k v).
Proof.
  intros Hin Hne. unfold Header_Set. split.
  - intros k' Hk'. apply lookup_insert_ne. congruence.
  - intros _. apply lookup_insert_ne. exact Hne.
Qed.

Lemma footprint_note w : footprint (hdr w) (hdr (note_type w)).
Proof.
  unfold note_type. destruct (Header_has (hdr w) contentType) eqn:E; simpl.
  - apply footprint_refl.
  - unfold Header_Set. split.
    + intros k Hk. apply lookup_insert_ne. intros <-. apply Hk.
      unfold own_keys. simpl. tauto.
    + rewrite E. discriminate.
Qed.

Lemma footprint_startGzip w : footprint (hdr w) (hdr (fst (startGzip w))).
Proof.
  rewrite startGzip_hdr. cbv zeta.
  assert (H1 : footprint (hdr w)
                 (Header_Del (Header_Set (hdr w) contentEncoding "gzip")
                             contentLength)).
  { eapply footprint_trans;
      [apply footprint_Set | apply footprint_Del];
      (unfold own_keys; simpl; tauto) || discriminate. }
  destruct (negb (keepAcceptRanges w)); [| exact H1].
  eapply footprint_trans; [exact H1 | apply footprint_Del];
    (unfold own_keys; simpl; tauto) || discriminate.
Qed.

Lemma footprint_startPlain w : footprint (hdr w) (hdr (fst (startPlain w))).
Proof.
  destruct (startPlain_fields w) as (_ & _ & _ & _ & _ & ->).
  apply footprint_Del; (unfold own_keys; simpl; tauto) || discriminate.
Qed.

(** X4.  No method of the writer changes a header other than
    Content-Encoding, Content-Length, Accept-Ranges, Content-Type and the
    opt-out marker, and none changes a Content-Type key that is already in
    the map (even with no value). *)
Theorem writer_keeps_to_its_headers (w : GzipResponseWriter) (c : call) :
  is_header_edit c = false ->
  (forall k, ~ In k own_keys -> hdr (step w c) !! k = hdr w !! k)
  /\ (Header_has (hdr w) contentType = true ->
      hdr (step w c) !! contentType = hdr w !! contentType).
Proof.
  intros Hc. change (footprint (hdr w) (hdr (step w c))).
  destruct c as [b | k | | | f]; simpl; try discriminate.
  - destruct (modes w) as [[g Hg] | [[Hg Hi] | Hu]].
    + rewrite (Write_compressed _ _ _ Hg). apply footprint_refl.
    + rewrite (Write_passthrough _ _ Hg Hi). apply footprint_refl.
    + rewrite (Write_undecided _ _ Hu). cbv zeta.
      pose proof (footprint_note (absorb w b)) as Hn.
      change (hdr (absorb w b)) with (hdr w) in Hn.
      destruct (waits _); [apply footprint_refl |].
      destruct (eligible _ _).
      * rewrite Write_gzip_hdr.
        eapply footprint_trans; [exact Hn | apply footprint_startGzip].
      * match goal with |- context [Write_plain ?x _ _] =>
          destruct (Write_plain_fields x b (remainder w b))
            as (_ & _ & _ & _ & _ & ->);
          assert (Hx : footprint (hdr w) (hdr x)) end.
        { destruct (_ && _); [exact Hn | apply footprint_refl]. }
        eapply footprint_trans; [exact Hx |].
        apply footprint_Del; (unfold own_keys; simpl; tauto) || discriminate.
  - unfold WriteHeader. destruct (code w =? 0); apply footprint_refl.
  - destruct (modes w) as [[g Hg] | [[Hg Hi] | Hu]].
    + rewrite Flush_decided by (left; congruence).
      destruct (Flush_forward_fields w) as (_ & _ & _ & _ & _ & ->).
      apply footprint_refl.
    + rewrite Flush_decided by (right; assumption).
      destruct (Flush_forward_fields w) as (_ & _ & _ & _ & _ & ->).
      apply footprint_refl.
    + destruct (buf w) as [| x l] eqn:Hb.
      * rewrite Flush_undecided_empty by assumption. apply footprint_refl.
      * rewrite Flush_undecided by (assumption || congruence).
        match goal with |- context [Flush_forward ?y] =>
          destruct (Flush_forward_fields y) as (_ & _ & _ & _ & _ & ->) end.
        eapply footprint_trans; [apply footprint_note |].
        destruct (eligible _ _);
          [apply footprint_startGzip | apply footprint_startPlain].
  - unfold Close. destruct (ignore w); [apply footprint_refl |].
    destruct (gw w); [apply footprint_refl |].
    pose proof (footprint_startPlain w) as E.
    destruct (startPlain w) as [w1 e]. exact E.
Qed.
(** ** Weights *)

Lemma in_unit_zero : in_unit 0%float.
Proof. split; reflexivity. Qed.

Lemma in_unit_one : in_unit 1%float.
Proof. split; reflexivity. Qed.

Lemma parseCoding_part_in_unit n part st :
  in_unit (snd (fst st)) -> in_unit (snd (fst (parseCoding_part n part st))).
Proof.
  destruct st as [[coding q] err]. intros Hq. unfold parseCoding_part.
  destruct (n =? 0)%nat; [apply in_unit_one |].
  destruct (HasPrefix _ _); [| apply in_unit_one].
  destruct (ParseFloat _) as [q' e]. simpl.
  destruct (PrimFloat.ltb q' 0) eqn:E0; [apply in_unit_zero |].
  destruct (PrimFloat.ltb 1 q') eqn:E1; [apply in_unit_one |].
  split; assumption.
Qed.

Lemma parseCoding_loop_in_unit parts :
  forall n st, in_unit (snd (fst st)) ->
               in_unit (snd (fst (parseCoding_loop n parts st))).
Proof.
  induction parts as [| p parts IH]; intros n st Hq; [exact Hq |].
  simpl. apply IH, parseCoding_part_in_unit, Hq.
Qed.

Lemma qvalue_of_in_unit s : in_unit (qvalue_of s).
Proof.
  unfold qvalue_of, parseCoding.
  pose proof (parseCoding_loop_in_unit (Split s ";") 0 ("", 0%float, None)
                in_unit_zero) as H.
  destruct (parseCoding_loop _ _ _) as [[coding q] err]. exact H.
Qed.

(** ** The loop of [parseEncodingGzip] and [strings.Split] *)

Lemma str_take_all s : str_take (String.length s) s = s.
Proof. induction s as [| c t IH]; simpl; [| rewrite IH]; reflexivity. Qed.

Lemma Split_no_sep s c : IndexByte s c < 0 -> Split s c = [s].
Proof.
  induction s as [| d t IH]; simpl; [reflexivity |].
  destruct (Ascii.eqb d c); [lia |].
  destruct (IndexByte t c <? 0) eqn:E; [| lia].
  intros _. rewrite IH by lia. reflexivity.
Qed.

Lemma Split_at_sep s c :
  0 <= IndexByte s c ->
  Split s c = str_take (Z.to_nat (IndexByte s c)) s
              :: Split (str_drop (Z.to_nat (IndexByte s c + 1)) s) c.
Proof.
  induction s as [| d t IH]; simpl; [lia |].
  destruct (Ascii.eqb d c) eqn:Ed; [reflexivity |].
  destruct (IndexByte t c <? 0) eqn:E; [lia |].
  intros _. assert (H0 : 0 <= IndexByte t c) by lia.
  rewrite (IH H0).
  replace (Z.to_nat (IndexByte t c + 1)) with (S (Z.to_nat (IndexByte t c)))
    by lia.
  replace (Z.to_nat (IndexByte t c + 1 + 1))
    with (S (S (Z.to_nat (IndexByte t c)))) by lia.
  reflexivity.
Qed.

Lemma first_gzip_cons e rest :
  first_gzip (e :: rest) =
    if String.eqb (coding_of e) "gzip" then qvalue_of e else first_gzip rest.
Proof.
  unfold first_gzip. simpl. destruct (String.eqb (coding_of e) "gzip");
    reflexivity.
Qed.

Lemma parseEncodingGzip_loop_first fuel :
  forall s, (String.length s < fuel)%nat ->
    parseEncodingGzip_loop fuel s = Some (first_gzip (Split s ",")).
Proof.
  induction fuel as [| fuel IH]; intros s Hlt; [lia |].
  rewrite parseEncodingGzip_loop_round.
  destruct (0 <? String.length s)%nat eqn:E0.
  2: { destruct s; [reflexivity | discriminate]. }
  pose proof (IndexByte_range s ",") as R. cbv zeta.
  destruct (IndexByte s "," <? 0) eqn:Ei.
  - rewrite Nat2Z.id, str_take_all, Split_no_sep by lia.
    rewrite first_gzip_cons. unfold coding_of, qvalue_of.
    destruct (parseCoding s) as [[coding q] e]. simpl.
    destruct (String.eqb coding "gzip"); [reflexivity |].
    rewrite Z.eqb_refl. reflexivity.
  - rewrite (Split_at_sep s ",") by lia. rewrite first_gzip_cons.
    unfold coding_of, qvalue_of.
    destruct (parseCoding _) as [[coding q] e]. simpl.
    destruct (String.eqb coding "gzip"); [reflexivity |].
    assert ((IndexByte s "," =? Z.of_nat (String.length s)) = false) as ->
      by lia.
    apply IH. rewrite str_drop_length. apply Nat.ltb_lt in E0. lia.
Qed.

Lemma parseEncodingGzip_entries (s : string) :
  parseEncodingGzip s = first_gzip (Split (TrimSpace s) ",").
Proof.
  unfold parseEncodingGzip.
  rewrite parseEncodingGzip_loop_first by lia. reflexivity.
Qed.

(** X5.  [parseEncodingGzip] returns the weight [parseCoding] reads from
    the first comma-separated entry of the trimmed header that it names
    gzip, and 0 when no entry is named gzip; that weight is never below 0
    nor above 1. *)
Theorem parseEncodingGzip_first_entry (s : string) :
  parseEncodingGzip s = first_gzip (Split (TrimSpace s) ",")
  /\ in_unit (parseEncodingGzip s).
Proof.
  split; [apply parseEncodingGzip_entries |].
  rewrite parseEncodingGzip_entries. unfold first_gzip.
  destruct (List.find _ _); [apply qvalue_of_in_unit | apply in_unit_zero].
Qed.

(** ** Which requests are wrapped *)

Lemma first_gzip_none entries :
  Forall (fun e => coding_of e <> "gzip") entries ->
  first_gzip entries = 0%float.
Proof.
  induction 1 as [| e rest He _ IH]; [reflexivity |].
  rewrite first_gzip_cons.
  destruct (String.eqb (coding_of e) "gzip") eqn:E; [| exact IH].
  apply String.eqb_eq in E. contradiction.
Qed.

Lemma parseCoding_bare e :
  IndexByte e ";" < 0 ->
  fst (parseCoding e) = (ToLower (TrimSpace e), 1%float).
Proof.
  intros H. unfold parseCoding. rewrite (Split_no_sep _ _ H). simpl.
  reflexivity.
Qed.

(** X6.  The wrapper appends Accept-Encoding to the Vary values of the
    response whatever the request; it hands the handler the sink itself
    when the method is HEAD or no entry of Accept-Encoding is named gzip (an
    absent header, a list of other codings, a wildcard); it wraps the sink
    when the method is not HEAD and the first entry, without parameters, is
    gzip in any letter case and with any white space around it. *)
Theorem wrapper_asks_for_a_gzip_entry
  (c : config) (r : Request) (h : Header) (cs : list call) :
  let entries :=
    Split (TrimSpace (Header_Get (ReqHeader r) acceptEncoding)) "," in
  Header_values (fst (ServeHTTP c r h cs)) vary
  = Header_values h vary ++ [acceptEncoding]
  /\ (Method r = MethodHead
      \/ Forall (fun e => coding_of e <> "gzip") entries ->
      snd (ServeHTTP c r h cs) = None)
  /\ (Method r <> MethodHead ->
      forall e rest, entries = e :: rest ->
        IndexByte e ";" < 0 -> ToLower (TrimSpace e) = "gzip" ->
        snd (ServeHTTP c r h cs) =
          Some (Close (run cs (newWriter c (Header_Add h vary acceptEncoding))))).
Proof.
  intros entries. unfold ServeHTTP, acceptsGzip. cbv zeta.
  rewrite (parseEncodingGzip_entries
             (Header_Get (ReqHeader r) acceptEncoding)).
  fold entries. split; [|split].
  - assert (E : Header_values (Header_Add h vary acceptEncoding) vary
                = Header_values h vary ++ [acceptEncoding]).
    { unfold Header_Add, Header_values at 1.
      now rewrite lookup_insert_eq. }
    now destruct (_ && _).
  - intros [Hm | Hf].
    + rewrite Hm. reflexivity.
    + rewrite (first_gzip_none _ Hf), andb_false_r. reflexivity.
  - intros Hm e rest -> Hi Hg.
    rewrite first_gzip_cons. unfold coding_of, qvalue_of.
    rewrite (parseCoding_bare e Hi), Hg. simpl.
    apply String.eqb_neq in Hm. rewrite Hm. reflexivity.
Qed.

(** ** [parseEncodings] *)

Lemma parseCoding_named s k q : parseCoding s = (k, q, None) -> k <> "".
Proof.
  unfold parseCoding. destruct (parseCoding_loop _ _ _) as [[coding q'] err].
  destruct (String.eqb coding "") eqn:E; [discriminate |].
  intros [= <- _ _]. apply String.eqb_neq, E.
Qed.

Lemma parseEncodings_fold entries :
  forall c e done,
    (forall k q, c !! k = Some q ->
       exists entry, In entry done /\ parseCoding entry = (k, q, None)) ->
    (e = [] <-> Forall (fun entry => snd (parseCoding entry) = None) done) ->
    let st := fold_left parseEncodings_part entries (c, e) in
    (forall k q, fst st !! k = Some q ->
       exists entry, In entry (done ++ entries)
                     /\ parseCoding entry = (k, q, None))
    /\ (snd st = [] <->
        Forall (fun entry => snd (parseCoding entry) = None) (done ++ entries)).
Proof.
  induction entries as [| x entries IH]; intros c e done Hc He.
  - simpl. rewrite app_nil_r. tauto.
  - simpl. replace (done ++ x :: entries) with ((done ++ [x]) ++ entries)
      by (rewrite <- app_assoc; reflexivity).
    unfold parseEncodings_part at 2.
    destruct (parseCoding x) as [[coding q] [er |]] eqn:Ex.
    + apply IH.
      * intros k q' H. destruct (Hc k q' H) as (entry & Hin & Hp).
        exists entry. split; [apply in_or_app; left; exact Hin | exact Hp].
      * split.
        -- intros H. apply app_eq_nil in H as [_ H]. discriminate H.
        -- intros H. apply Forall_app in H as [_ H].
           apply Forall_cons in H as [H _]. rewrite Ex in H. discriminate.
    + apply IH.
      * intros k q' H. destruct (decide (coding = k)) as [<- | Hne].
        -- rewrite lookup_insert_eq in H. injection H as <-.
           exists x. split; [apply in_or_app; right; left; reflexivity |].
           exact Ex.
        -- rewrite lookup_insert_ne in H by exact Hne.
           destruct (Hc k q' H) as (entry & Hin & Hp).
           exists entry. split; [apply in_or_app; left; exact Hin | exact Hp].
      * rewrite He. split.
        -- intros H. apply Forall_app. split; [exact H |].
           constructor; [rewrite Ex; reflexivity | constructor].
        -- intros H. apply Forall_app in H as [H _]. exact H.
Qed.

(** X7.  [parseEncodings] reports an error exactly when [parseCoding]
    reports one for some comma-separated entry; every coding in the map it
    returns is the non-empty name of an entry that parsed without error,
    with the weight read from that entry, never below 0 nor above 1. *)
Theorem parseEncodings_entries (s : string) :
  (snd (parseEncodings s) = None <->
   Forall (fun entry => snd (parseCoding entry) = None) (Split s ","))
  /\ forall k q, fst (parseEncodings s) !! k = Some q ->
       k <> "" /\ in_unit q
       /\ exists entry, In entry (Split s ",")
                        /\ parseCoding entry = (k, q, None).
Proof.
  pose proof (parseEncodings_fold (Split s ",") ∅ [] []) as H.
  simpl in H. destruct H as [Hc He].
  { intros k q H. rewrite lookup_empty in H. discriminate. }
  { split; [constructor | reflexivity]. }
  unfold parseEncodings.
  destruct (fold_left parseEncodings_part (Split s ",") (∅, [])) as [c e].
  simpl in *. split.
  - rewrite <- He. destruct e; simpl; [tauto |].
    split; discriminate.
  - intros k q H.
    assert (H' : c !! k = Some q).
    { destruct (0 <? length e)%nat; exact H. }
    destruct (Hc k q H') as (entry & Hin & Hp).
    split; [exact (parseCoding_named _ _ _ Hp) |]. split; [| eauto].
    pose proof (qvalue_of_in_unit entry) as Hq. unfold qvalue_of in Hq.
    rewrite Hp in Hq. exact Hq.
Qed.
(** ** Responses that never reach the threshold *)

Lemma Close_undecided_empty w :
  undecided w -> buf w = [] ->
  Close w = (set_ignore true
               (set_hdr (Header_Del (hdr w) HeaderNoCompression)
                  (flush_code w)), None).
Proof.
  intros [Hg Hi] Hb. unfold Close, startPlain. rewrite Hi, Hg.
  destruct (flush_code_fields w) as (Fb & _ & _ & _ & _ & Fh & _).
  simpl. rewrite Fb, Hb, Fh. reflexivity.
Qed.

Lemma run_no_body cs :
  forall w, no_body cs = true -> undecided w -> buf w = [] ->
    undecided (run cs w) /\ buf (run cs w) = [] /\ log (run cs w) = log w.
Proof.
  induction cs as [| c cs IH]; intros w Hn Hu Hb; [tauto |].
  simpl in Hn. apply andb_true_iff in Hn as [Hc Hn].
  change (run (c :: cs) w) with (run cs (step w c)).
  assert (H : undecided (step w c) /\ buf (step w c) = []
              /\ log (step w c) = log w).
  { destruct c as [b | k | | | f]; simpl in *; try discriminate.
    - unfold WriteHeader, undecided in *. destruct (code w =? 0); simpl; tauto.
    - rewrite Flush_undecided_empty by assumption. tauto.
    - tauto. }
  destruct H as (Hu' & Hb' & Hl').
  destruct (IH _ Hn Hu' Hb') as (? & ? & ->). tauto.
Qed.

(** X8.  A handler that writes nothing (it may set the status, edit the
    headers and flush): the deferred Close reports no error, builds no
    compressor and hands no byte to the sink; all it does downstream is to
    commit the status code, if the handler set one; the writer ends plain
    and the header map the handler left only loses the opt-out marker. *)
Theorem response_without_body (c : config) (h : Header) (cs : list call) :
  no_body cs = true ->
  let w := run cs (newWriter c h) in
  snd (Close w) = None
  /\ log (fst (Close w)) = code_event w
  /\ plain (fst (Close w))
  /\ hdr (fst (Close w)) = Header_Del (hdr w) HeaderNoCompression.
Proof.
  intros Hn w.
  destruct (run_no_body cs (newWriter c h) Hn) as (Hu & Hb & Hl);
    [split; reflexivity | reflexivity |].
  fold w in Hu, Hb, Hl. simpl in Hl.
  rewrite (Close_undecided_empty w Hu Hb). simpl.
  destruct (flush_code_fields w) as (_ & Fg & _).
  rewrite flush_code_log_eq, Hl. unfold plain, code_event. simpl.
  rewrite Fg. destruct Hu as [Hg _]. tauto.
Qed.

Lemma Write_waits w b :
  undecided w -> headers_allow (hdr w) = true -> declared_length w = 0 ->
  len (buf w) + len b < minSize w ->
  Write w b = (set_buf (buf w ++ b) w, (len b, None)).
Proof.
  intros Hu Hh H0 Hlt. rewrite (Write_undecided _ _ Hu). cbv zeta.
  pose proof (cap_ge w) as [_ Hc]. pose proof (len_nonneg b).
  assert (Ht : toAdd w b = len b).
  { unfold toAdd. destruct (cap w <? len (buf w) + len b) eqn:E; lia. }
  assert (Ha : absorb w b = set_buf (buf w ++ b) w).
  { unfold absorb. rewrite Ht, take_len_all. reflexivity. }
  rewrite Ha. unfold waits. simpl.
  change (declared_length (set_buf (buf w ++ b) w)) with (declared_length w).
  rewrite Hh, H0, len_app. simpl.
  assert ((len (buf w) + len b <? minSize w) = true) as -> by lia.
  reflexivity.
Qed.

Lemma run_only_writes cs :
  forall w, only_writes cs = true -> undecided w ->
    headers_allow (hdr w) = true -> declared_length w = 0 ->
    len (buf w ++ written cs) < minSize w ->
    run cs w = set_code (code (run cs w)) (set_buf (buf w ++ written cs) w).
Proof.
  induction cs as [| c cs IH]; intros w Ho Hu Hh H0 Hlt.
  - simpl. rewrite app_nil_r. destruct w. reflexivity.
  - simpl in Ho. apply andb_true_iff in Ho as [Hc Ho].
    change (run (c :: cs) w) with (run cs (step w c)).
    rewrite written_cons in *.
    destruct c as [b | k | | | f]; simpl in *; try discriminate.
    + rewrite len_app, len_app in Hlt. pose proof (len_nonneg (written cs)).
      rewrite (Write_waits w b Hu Hh H0) by lia. cbn [fst].
      rewrite (IH (set_buf (buf w ++ b) w)); try assumption.
      * simpl. rewrite <- app_assoc. reflexivity.
      * simpl. rewrite <- app_assoc, !len_app. lia.
    + assert (Hw : WriteHeader w k = set_code (code (WriteHeader w k)) w).
      { unfold WriteHeader. destruct (code w =? 0); destruct w; reflexivity. }
      rewrite (IH (WriteHeader w k)); try assumption.
      * rewrite Hw at 2 3. reflexivity.
      * rewrite Hw. exact Hu.
      * rewrite Hw. exact Hh.
      * rewrite Hw. exact H0.
      * rewrite Hw. exact Hlt.
Qed.

(** X9.  With headers that allow compression and no declared
    Content-Length, a handler that only writes and sets the status, and
    whose bytes stay below minSize in total: nothing goes downstream while
    it runs, every byte is kept in the buffer; the deferred Close commits
    plain: the status code if one was set, then the whole body in a single
    write to the sink; no compressor is built, no content type is sniffed,
    and the header map only loses the opt-out marker. *)
Theorem small_response_is_sent_whole_at_close
  (c : config) (h : Header) (cs : list call) :
  only_writes cs = true -> headers_allow h = true ->
  declared_length (newWriter c h) = 0 ->
  len (written cs) < c_minSize c ->
  let w := run cs (newWriter c h) in
  log w = [] /\ buf w = written cs /\ undecided w
  /\ plain (fst (Close w))
  /\ hdr (fst (Close w)) = Header_Del h HeaderNoCompression
  /\ exists n e,
       log (fst (Close w)) =
         code_event w
         ++ (if len (written cs) =? 0 then []
             else [SinkWrite (written cs)
                     (Header_Del h HeaderNoCompression) n e]).
Proof.
  intros Ho Hh H0 Hlt w.
  pose proof (run_only_writes cs (newWriter c h) Ho
                ltac:(split; reflexivity) Hh H0 Hlt) as E.
  fold w in E. simpl in E.
  assert (Hl : log w = []) by (rewrite E; reflexivity).
  assert (Hb : buf w = written cs) by (rewrite E; reflexivity).
  assert (Hu : undecided w) by (rewrite E; split; reflexivity).
  assert (Hhd : hdr w = h) by (rewrite E; reflexivity).
  split; [exact Hl |]. split; [exact Hb |]. split; [exact Hu |].
  destruct Hu as [Hg Hi]. unfold Close. rewrite Hi, Hg.
  destruct (startPlain_fields w) as (_ & Fg & Fi & _ & _ & Fh).
  destruct (startPlain_state w) as (n & e & Hs).
  destruct (startPlain w) as [w1 er]. simpl in *.
  split; [split; [exact Fi | rewrite Fg; exact Hg] |].
  split; [rewrite Fh, Hhd; reflexivity |].
  exists n, e. rewrite Hs.
  destruct (flush_code_fields w) as (Fb & _ & _ & _ & _ & Fhh & _).
  rewrite Fb, Fhh, Hb, Hhd.
  destruct (len (written cs) =? 0); simpl;
    rewrite flush_code_log_eq, Hl, Hhd; unfold code_event; rewrite Hhd;
    simpl; rewrite ?app_nil_r; reflexivity.
Qed.
(** ** What [Write] reports, and short writes *)

Lemma Write_plain_result w b r :
  snd (Write_plain w b r) = (len b, None)
  \/ exists e, snd (Write_plain w b r) = (0, Some e).
Proof.
  unfold Write_plain. destruct (startPlain w) as [w1 [e |]]; [eauto |].
  destruct (0 <? len r); [| left; reflexivity].
  destruct (rw_Write w1 r) as [w2 [n [d |]]]; [eauto | left; reflexivity].
Qed.

Lemma Write_gzip_result w b r :
  snd (Write_gzip w b r) = (len b, None)
  \/ exists e, snd (Write_gzip w b r) = (0, Some e).
Proof.
  unfold Write_gzip. destruct (startGzip w) as [w1 [e |]]; [eauto |].
  destruct (0 <? len r); [| left; reflexivity].
  destruct (gw_Write w1 r) as [w2 [n [d |]]]; [eauto | left; reflexivity].
Qed.

(** X10.  While the writer is undecided, [Write] reports either all the
    bytes of the call and no error (whether they were buffered or handed
    downstream), or zero bytes and an error. *)
Theorem undecided_write_reports_all_or_nothing (w : GzipResponseWriter) (b : bytes) :
  undecided w ->
  snd (Write w b) = (len b, None)
  \/ exists e, snd (Write w b) = (0, Some e).
Proof.
  intros Hu. rewrite (Write_undecided _ _ Hu). cbv zeta.
  destruct (waits _); [left; reflexivity |].
  destruct (eligible _ _); [apply Write_gzip_result | apply Write_plain_result].
Qed.

Lemma startPlain_short w n :
  buf w <> [] ->
  sink_Write (log (flush_code w)) (buf w) = (n, None) -> n < len (buf w) ->
  snd (startPlain w) = Some ErrShortWrite
  /\ sink_fed (log (fst (startPlain w))) = sink_fed (log w) ++ buf w.
Proof.
  intros Hb Hs Hn. unfold startPlain.
  destruct (flush_code_fields w) as (Fb & _).
  destruct (flush_code_log w) as (evs & Hl & _ & Hsf & _).
  cbv zeta. cbn [buf set_ignore set_hdr]. rewrite Fb.
  destruct (len (buf w) =? 0) eqn:E.
  { apply Z.eqb_eq, len_zero_nil in E. contradiction. }
  unfold rw_Write. cbn [log set_ignore set_hdr]. rewrite Hs. simpl.
  rewrite Fb. assert ((n <? len (buf w)) = true) as -> by lia.
  split; [reflexivity |].
  rewrite sink_fed_app, Hl, sink_fed_app, Hsf. simpl.
  rewrite !app_nil_r. reflexivity.
Qed.

(** X11.  When the sink takes fewer bytes than the buffer holds and reports
    no error, the plain commit fails with io.ErrShortWrite: [Close] on an
    undecided writer returns it wrapped in its own error, and a [Write]
    that commits plain returns it with a count of zero and does not hand
    the remainder of the call to the sink. *)
Theorem short_write_fails_the_commit (w : GzipResponseWriter) (n : Z) :
  undecided w -> buf w <> [] ->
  sink_Write (log (flush_code w)) (buf w) = (n, None) -> n < len (buf w) ->
  snd (Close w) = Some (errorf_close ErrShortWrite)
  /\ sink_fed (log (fst (Close w))) = sink_fed (log w) ++ buf w
  /\ forall b r, snd (Write_plain w b r) = (0, Some ErrShortWrite)
                 /\ sink_fed (log (fst (Write_plain w b r)))
                    = sink_fed (log w) ++ buf w.
Proof.
  intros [Hg Hi] Hb Hs Hn.
  destruct (startPlain_short w n Hb Hs Hn) as [He Hf].
  split; [| split].
  - unfold Close. rewrite Hi, Hg.
    destruct (startPlain w) as [w1 e]. simpl in *. rewrite He. reflexivity.
  - unfold Close. rewrite Hi, Hg.
    destruct (startPlain w) as [w1 e]. exact Hf.
  - intros b r. unfold Write_plain.
    destruct (startPlain w) as [w1 e]. simpl in *. subst e. tauto.
Qed.
(** ** [atoi] *)

Lemma digit_test c : (9 <? (byte_of c - 48) mod 256) = negb (isDigit c).
Proof.
  unfold byte_of, isDigit. pose proof (nat_ascii_bounded c) as Hb.
  set (n := nat_of_ascii c) in *.
  destruct (48 <=? n)%nat eqn:E1.
  - apply Nat.leb_le in E1. rewrite Z.mod_small by lia.
    destruct (n <=? 57)%nat eqn:E2; simpl.
    + apply Nat.leb_le in E2. apply Z.ltb_ge. lia.
    + apply Nat.leb_gt in E2. apply Z.ltb_lt. lia.
  - apply Nat.leb_gt in E1. simpl.
    replace (Z.of_nat n - 48) with (Z.of_nat n + 208 + (-1) * 256) by lia.
    rewrite Z_mod_plus_full, Z.mod_small by lia. apply Z.ltb_lt. lia.
Qed.

Lemma digit_value c :
  isDigit c = true -> 0 <= (byte_of c - 48) mod 256 <= 9.
Proof.
  intros H. pose proof (digit_test c) as T. rewrite H in T. simpl in T.
  apply Z.ltb_ge in T. pose proof (Z.mod_pos_bound (byte_of c - 48) 256).
  lia.
Qed.

Lemma atoi_digits_spec s :
  forall acc, 0 <= acc ->
    match atoi_digits s acc with
    | Some n =>
        allDigits s = true
        /\ acc * 10 ^ Z.of_nat (String.length s) <= n
           < (acc + 1) * 10 ^ Z.of_nat (String.length s)
    | None => allDigits s = false
    end.
Proof.
  induction s as [| c t IH]; intros acc Hacc.
  - simpl. split; [reflexivity | lia].
  - cbn [atoi_digits allDigits String.length]. cbv zeta.
    rewrite digit_test.
    destruct (isDigit c) eqn:Ed; simpl; [| reflexivity].
    pose proof (digit_value c Ed) as Hv.
    specialize (IH (acc * 10 + (byte_of c - 48) mod 256) ltac:(lia)).
    destruct (atoi_digits t _) as [n |]; [| exact IH].
    destruct IH as [Ha Hn]. split; [exact Ha |].
    rewrite Nat2Z.inj_succ, Z.pow_succ_r by lia.
    assert (Hp : 0 < 10 ^ Z.of_nat (String.length t))
      by (apply Z.pow_pos_nonneg; lia).
    nia.
Qed.

Lemma str_length_zero s : String.length s = 0%nat -> s = "".
Proof. destruct s; [reflexivity | discriminate]. Qed.

(** X12.  On a string of 1 to 18 bytes [atoi] does not consult
    [strconv.ParseInt]: it succeeds exactly when the string is an optional
    sign followed by at least one byte, all of them ASCII digits; when it
    fails it returns 0; and the value it returns is below 10^18 in absolute
    value, not positive after a minus sign and not negative otherwise. *)
Theorem atoi_short_strings (s : string) :
  (0 < String.length s < 19)%nat ->
  (snd (atoi s) = true <->
   signless s <> "" /\ allDigits (signless s) = true)
  /\ (snd (atoi s) = false -> fst (atoi s) = 0)
  /\ Z.abs (fst (atoi s)) < 10 ^ 18
  /\ (if is_byte (first_byte s) "-" then fst (atoi s) <= 0
      else 0 <= fst (atoi s)).
Proof.
  intros [H0 H19]. unfold atoi. cbv zeta.
  change (intSize =? 32) with false. change (intSize =? 64) with true.
  assert (((0 <? Z.of_nat (String.length s))
           && (Z.of_nat (String.length s) <? 19)) = true) as ->.
  { apply andb_true_iff. split; lia. }
  cbn [andb orb].
  destruct s as [| c t]; [simpl in H0; lia |].
  cbn [first_byte is_byte signless].
  set (signed := Ascii.eqb c "-" || Ascii.eqb c "+").
  set (body := if signed then t else String c t).
  assert (Hlen : (String.length body <= 18)%nat).
  { subst body. simpl in H19. destruct signed; simpl; lia. }
  assert (Hpow : 10 ^ Z.of_nat (String.length body) <= 10 ^ 18)
    by (apply Z.pow_le_mono_r; lia).
  destruct (signed && (Z.of_nat (String.length body) <? 1)) eqn:Es.
  - (* a sign and nothing else *)
    apply andb_true_iff in Es as [Es El].
    assert (Hb : body = "") by (apply str_length_zero; lia).
    simpl. split; [| split; [reflexivity | split; [lia |]]].
    + split; [discriminate |]. intros [Hne _]. contradiction.
    + destruct (Ascii.eqb c "-"); lia.
  - pose proof (atoi_digits_spec body 0 ltac:(lia)) as Hd.
    assert (Hne : body <> "").
    { intros Hb. subst body. destruct signed; [| discriminate].
      rewrite Hb in Es. discriminate. }
    destruct (atoi_digits body 0) as [n |].
    + destruct Hd as [Ha Hn]. simpl.
      split; [tauto |]. split; [discriminate |].
      destruct (Ascii.eqb c "-"); split; lia.
    + simpl. split; [| split; [reflexivity | split; [lia |]]].
      * split; [discriminate |]. intros [_ Ha]. congruence.
      * destruct (Ascii.eqb c "-"); lia.
Qed.

End More.

(** ** Content-type lists *)

Lemma equals_params (p q : gmap string string) :
  size p = size q ->
  forallb (fun kv => match q !! fst kv with
                     | Some w => String.eqb (snd kv) w
                     | None => false
                     end) (map_to_list p) = true <-> p = q.
Proof.
  intros Hs. rewrite forallb_forall. split.
  - intros H. apply map_subseteq_size_eq; [|lia].
    apply map_subseteq_spec. intros k v Hk.
    apply elem_of_map_to_list in Hk.
    apply list_elem_of_In in Hk. specialize (H _ Hk). simpl in H.
    destruct (q !! k) as [w|]; [|discriminate].
    apply String.eqb_eq in H. congruence.
  - intros -> [k v] Hk. apply list_elem_of_In in Hk.
    apply elem_of_map_to_list in Hk. simpl. rewrite Hk.
    apply String.eqb_refl.
Qed.

Lemma equals_matches (pct : parsedContentType) (mt : string)
  (ps : gmap string string) :
  equals pct mt ps = true <-> matches pct mt ps.
Proof.
  unfold equals, matches.
  destruct (String.eqb (mediaType pct) mt) eqn:Em; simpl.
  - apply String.eqb_eq in Em.
    destruct (size (params pct) =? 0)%nat eqn:E0.
    + apply Nat.eqb_eq in E0. apply map_size_empty_iff in E0. tauto.
    + apply Nat.eqb_neq in E0.
      destruct (size (params pct) =? size ps)%nat eqn:Es; simpl.
      * apply Nat.eqb_eq in Es. rewrite (equals_params _ _ Es).
        split; [tauto|]. intros [_ [H|H]]; [|exact H].
        apply map_size_empty_iff in H. contradiction.
      * apply Nat.eqb_neq in Es. split; [discriminate|].
        intros [_ [H|H]].
        -- apply map_size_empty_iff in H. contradiction.
        -- rewrite H in Es. contradiction.
  - apply String.eqb_neq in Em. split; [discriminate|tauto].
Qed.

(** X13.  [equals] holds exactly when the media types are the same string and
    the entry either has no parameters or has the very same parameters as
    the other side: an entry with parameters never matches a content type
    that has more, fewer or other parameters. *)
Theorem equals_iff_matches (pct : parsedContentType) (mt : string)
  (ps : gmap string string) :
  (equals pct mt ps = true <-> matches pct mt ps)
  /\ (params pct <> ∅ -> params pct <> ps -> equals pct mt ps = false).
Proof.
  split; [apply equals_matches|].
  intros H1 H2. apply not_true_is_false. rewrite equals_matches.
  unfold matches. tauto.
Qed.

Section Types.
Context {M : Mime}.

Lemma parseTypes_fold (types : list string) (acc : list parsedContentType) :
  fold_left (fun contentTypes v =>
               let '(mediaType, params, err) := ParseMediaType v in
               match err with
               | None => contentTypes ++ [mkPCT mediaType params]
               | Some _ => contentTypes
               end) types acc
  = acc ++ omap parses types.
Proof.
  revert acc. induction types as [|v types IH]; intros acc; simpl.
  - now rewrite app_nil_r.
  - rewrite IH. unfold parses at 2.
    destruct (ParseMediaType v) as [[m p] [e|]]; [reflexivity|].
    now rewrite <- app_assoc.
Qed.

Lemma parseTypes_parses (types : list string) :
  parseTypes types = omap parses types.
Proof. unfold parseTypes. now rewrite parseTypes_fold. Qed.

Lemma handleContentType_iff (cts : list parsedContentType) (ct : string) :
  handleContentType cts ct = true <->
  cts = [] \/
  (snd (ParseMediaType ct) = None /\
   exists c, In c cts /\
     matches c (fst (fst (ParseMediaType ct))) (snd (fst (ParseMediaType ct)))).
Proof.
  unfold handleContentType.
  destruct cts as [|c0 cts]; [simpl; tauto|].
  change (length (c0 :: cts) =? 0)%nat with false. cbv iota.
  destruct (ParseMediaType ct) as [[mt ps] [e|]]; simpl fst; simpl snd.
  - split; [discriminate|]. intros [H|[H _]]; discriminate.
  - rewrite existsb_exists. split.
    + intros [c [Hc He]]. right. split; [reflexivity|].
      exists c. split; [exact Hc|]. now apply equals_matches.
    + intros [H|[_ [c [Hc He]]]]; [discriminate|].
      exists c. split; [exact Hc|]. now apply equals_matches.
Qed.

Lemma omap_parses_nil (types : list string) :
  omap parses types = [] <-> forall v, In v types -> parses v = None.
Proof.
  induction types as [|v types IH]; simpl; [tauto|].
  destruct (parses v) as [e|] eqn:Ev; simpl.
  - split; [discriminate|]. intros H. specialize (H v (or_introl eq_refl)).
    congruence.
  - rewrite IH. split.
    + intros H v' [<-|Hv']; [exact Ev|now apply H].
    + intros H v' Hv'. apply H. now right.
Qed.

Lemma parses_pair (ct : string) (p : parsedContentType) :
  parses ct = Some p <->
  snd (ParseMediaType ct) = None
  /\ mediaType p = fst (fst (ParseMediaType ct))
  /\ params p = snd (fst (ParseMediaType ct)).
Proof.
  unfold parses. destruct (ParseMediaType ct) as [[m q] [e|]]; simpl.
  - split; [discriminate|]. intros [H _]. discriminate.
  - split.
    + intros [= <-]. now simpl.
    + intros [_ [H1 H2]]. destruct p as [m' q']. simpl in *. congruence.
Qed.

(** X14.  The filter built by [ContentTypes] accepts a content type exactly
    when no listed type parses, or the content type parses and some listed
    type that parses has the same media type and either no parameters or
    the same parameters; the filter built by [ExceptContentTypes] is its
    negation. *)
Theorem listed_types_filter (types : list string) (c : config) (ct : string) :
  (c_contentTypes (ContentTypes types c) ct = true <->
   (forall v, In v types -> parses v = None)
   \/ (exists p e v, parses ct = Some p /\ In v types /\ parses v = Some e
                    /\ matches e (mediaType p) (params p)))
  /\ c_contentTypes (ExceptContentTypes types c) ct
     = negb (c_contentTypes (ContentTypes types c) ct).
Proof.
  split; [|reflexivity].
  unfold ContentTypes. simpl. rewrite handleContentType_iff.
  rewrite parseTypes_parses, omap_parses_nil.
  split; (intros [H|H]; [now left|right]).
  - destruct H as [Hn [e [He Hm]]].
    apply list_elem_of_In, list_elem_of_omap in He as [v [Hv He]].
    apply list_elem_of_In in Hv.
    exists (mkPCT (fst (fst (ParseMediaType ct))) (snd (fst (ParseMediaType ct)))), e, v.
    split; [apply parses_pair; now simpl|].
    split; [exact Hv|]. split; [exact He|exact Hm].
  - destruct H as [p [e [v [Hp [Hv [He Hm]]]]]].
    apply parses_pair in Hp as [Hn [H1 H2]]. split; [exact Hn|].
    exists e. split.
    + apply list_elem_of_In, list_elem_of_omap. exists v.
      split; [now apply list_elem_of_In|exact He].
    + now rewrite <- H1, <- H2.
Qed.

(** X15.  When none of the listed types parses (an empty list included),
    [ContentTypes] lets every content type be compressed and
    [ExceptContentTypes] lets none. *)
Theorem unparsed_lists_are_all_or_nothing (types : list string) (c : config)
  (ct : string) :
  (forall v, In v types -> snd (ParseMediaType v) <> None) ->
  c_contentTypes (ContentTypes types c) ct = true
  /\ c_contentTypes (ExceptContentTypes types c) ct = false.
Proof.
  intros H.
  assert (E : parseTypes types = []).
  { rewrite parseTypes_parses. induction types as [|v types IH]; [reflexivity|].
    simpl. assert (Hv := H v (or_introl eq_refl)).
    unfold parses at 1. destruct (ParseMediaType v) as [[m p] [e|]].
    - apply IH. intros v' Hv'. apply H. now right.
    - now elim Hv. }
  unfold ContentTypes, ExceptContentTypes. simpl.
  rewrite E. unfold handleContentType. simpl. split; reflexivity.
Qed.

End Types.

(** ** The default content-type filter *)

Lemma HasPrefix_empty (s : string) : HasPrefix s "" = true.
Proof. destruct s; reflexivity. Qed.

Lemma HasPrefix_TrimRight (sub s : string) :
  solid sub = true -> sub <> "" ->
  HasPrefix (TrimRight s) sub = HasPrefix s sub.
Proof.
  revert s. induction sub as [|p ps IH]; intros s Hs Hne; [congruence|].
  simpl in Hs. apply andb_true_iff in Hs as [Hp Hps].
  apply negb_true_iff in Hp.
  destruct s as [|c t]; [reflexivity|].
  assert (Ht : HasPrefix (TrimRight t) ps = HasPrefix t ps).
  { destruct ps as [|q qs]; [now rewrite !HasPrefix_empty|].
    apply IH; [exact Hps|discriminate]. }
  simpl TrimRight. destruct (TrimRight t) as [|d t'] eqn:Et.
  - destruct (isSpace c) eqn:Ec.
    + simpl. destruct (Ascii.eqb c p) eqn:Ecp; [|reflexivity].
      apply Ascii.eqb_eq in Ecp. congruence.
    + change (Ascii.eqb c p && HasPrefix "" ps
              = Ascii.eqb c p && HasPrefix t ps).
      now rewrite Ht.
  - simpl HasPrefix at 1. simpl HasPrefix at 2. now rewrite <- Ht.
Qed.

Lemma Contains_unfold (s sub : string) :
  Contains s sub
  = HasPrefix s sub
    || match s with String _ t => Contains t sub | EmptyString => false end.
Proof. destruct s; reflexivity. Qed.

Lemma Contains_TrimRight (sub s : string) :
  solid sub = true -> sub <> "" ->
  Contains (TrimRight s) sub = Contains s sub.
Proof.
  intros Hs Hne. induction s as [|c t IH]; [reflexivity|].
  rewrite (Contains_unfold (String c t)), (Contains_unfold (TrimRight _)).
  rewrite (HasPrefix_TrimRight sub (String c t) Hs Hne). f_equal.
  simpl TrimRight. rewrite <- IH.
  destruct (TrimRight t) as [|d t'] eqn:Et.
  - destruct sub; [congruence|]. now destruct (isSpace c).
  - reflexivity.
Qed.

Lemma HasPrefix_space (c : ascii) (t sub : string) :
  solid sub = true -> sub <> "" -> isSpace c = true ->
  HasPrefix (String c t) sub = false.
Proof.
  intros Hs Hne Hc. destruct sub as [|p ps]; [congruence|].
  simpl in *. destruct (Ascii.eqb c p) eqn:E; [|reflexivity].
  apply Ascii.eqb_eq in E. subst. now rewrite Hc in Hs.
Qed.

Lemma Contains_TrimLeft (sub s : string) :
  solid sub = true -> sub <> "" ->
  Contains (TrimLeft s) sub = Contains s sub.
Proof.
  intros Hs Hne. induction s as [|c t IH]; [reflexivity|].
  simpl TrimLeft. destruct (isSpace c) eqn:Ec; [|reflexivity].
  rewrite IH, (Contains_unfold (String c t)).
  now rewrite (HasPrefix_space c t sub Hs Hne Ec).
Qed.

Lemma Contains_TrimSpace (sub s : string) :
  solid sub = true -> sub <> "" ->
  Contains (TrimSpace s) sub = Contains s sub.
Proof.
  intros Hs Hne. unfold TrimSpace.
  now rewrite Contains_TrimRight, Contains_TrimLeft.
Qed.

Lemma lowerByte_idem (c : ascii) : lowerByte (lowerByte c) = lowerByte c.
Proof.
  destruct c as [[] [] [] [] [] [] [] []]; reflexivity.
Qed.

Lemma ToLower_idem (s : string) : ToLower (ToLower s) = ToLower s.
Proof.
  induction s as [|c t IH]; [reflexivity|].
  simpl. now rewrite lowerByte_idem, IH.
Qed.

(** X16.  The default filter refuses a content type exactly when its
    lower-cased form contains "compress" or "zip" anywhere, or begins,
    after leading white space, with "video/" or "audio/"; surrounding white
    space and letter case change nothing. *)
Theorem DefaultContentTypeFilter_refuses (ct : string) :
  DefaultContentTypeFilter ct
  = negb (Contains (ToLower ct) "compress" || Contains (ToLower ct) "zip"
          || HasPrefix (TrimLeft (ToLower ct)) "video/"
          || HasPrefix (TrimLeft (ToLower ct)) "audio/")
  /\ DefaultContentTypeFilter (ToLower ct) = DefaultContentTypeFilter ct.
Proof.
  assert (Hmain : forall ct,
    DefaultContentTypeFilter ct
    = negb (Contains (ToLower ct) "compress" || Contains (ToLower ct) "zip"
            || HasPrefix (TrimLeft (ToLower ct)) "video/"
            || HasPrefix (TrimLeft (ToLower ct)) "audio/")).
  { clear ct. intros ct. unfold DefaultContentTypeFilter.
    set (l := ToLower ct).
    assert (Hc : Contains (TrimSpace l) "compress" = Contains l "compress")
      by (apply Contains_TrimSpace; [reflexivity|discriminate]).
    assert (Hz : Contains (TrimSpace l) "zip" = Contains l "zip")
      by (apply Contains_TrimSpace; [reflexivity|discriminate]).
    assert (Hv : HasPrefix (TrimSpace l) "video/" = HasPrefix (TrimLeft l) "video/")
      by (apply HasPrefix_TrimRight; [reflexivity|discriminate]).
    assert (Ha : HasPrefix (TrimSpace l) "audio/" = HasPrefix (TrimLeft l) "audio/")
      by (apply HasPrefix_TrimRight; [reflexivity|discriminate]).
    unfold excludeContainsDefault, excludePrefixDefault, existsb.
    rewrite <- Hc, <- Hz, <- Hv, <- Ha.
    destruct (String.eqb (TrimSpace l) "") eqn:E.
    - apply String.eqb_eq in E. rewrite E. reflexivity.
    - rewrite !orb_false_r.
      destruct (Contains (TrimSpace l) "compress"); [reflexivity|].
      destruct (Contains (TrimSpace l) "zip"); [reflexivity|].
      destruct (HasPrefix (TrimSpace l) "video/"); [reflexivity|].
      destruct (HasPrefix (TrimSpace l) "audio/"); reflexivity. }
  split; [apply Hmain|].
  rewrite !Hmain. now rewrite ToLower_idem.
Qed.

(** ** The headers of the response *)

Section Ranges.

Context {L : GoLib} {D : Downstreams}.

Lemma startPlain_view x : ar_view (fst (startPlain x)) = ar_view x.
Proof.
  unfold ar_view, startPlain, flush_code, rw_WriteHeader, rw_Write.
  destruct (negb (code x =? 0)); simpl;
    (destruct (len (buf x) =? 0);
     [| destruct (sink_Write _ _) as [n e]]); simpl;
    unfold Header_Del; rewrite lookup_delete_ne by discriminate; reflexivity.
Qed.

Lemma startGzip_view x :
  ar_view (fst (startGzip x))
  = (keepAcceptRanges x,
     if keepAcceptRanges x then hdr x !! acceptRanges else None,
     if 0 <? len (buf x) then Some (GzW (level x)) else gw x).
Proof.
  unfold ar_view.
  destruct (startGzip_fields x) as (_ & _ & _ & _ & ->).
  rewrite startGzip_hdr. cbv zeta.
  assert (K : keepAcceptRanges (fst (startGzip x)) = keepAcceptRanges x).
  { unfold startGzip, flush_code, rw_WriteHeader, gw_Write, init.
    destruct (negb (keepAcceptRanges _)); simpl;
      destruct (negb (code x =? 0)); simpl;
      (destruct (0 <? len (buf x)); [| reflexivity]);
      destruct (gz_Write _ _) as [n e]; reflexivity. }
  rewrite K. unfold Header_Del, Header_Set.
  destruct (keepAcceptRanges x); simpl.
  - rewrite lookup_delete_ne, lookup_insert_ne by discriminate. reflexivity.
  - rewrite lookup_delete_eq. reflexivity.
Qed.

Lemma note_type_view x : ar_view (note_type x) = ar_view x.
Proof.
  unfold ar_view, note_type. destruct (negb _); [| reflexivity]. simpl.
  unfold Header_Set. rewrite lookup_insert_ne by discriminate. reflexivity.
Qed.

Lemma Flush_forward_view x : ar_view (Flush_forward x) = ar_view x.
Proof.
  unfold ar_view, Flush_forward.
  destruct (gw x) eqn:E, sink_isFlusher; simpl; rewrite ?E; reflexivity.
Qed.

Lemma Write_plain_view x b r :
  ar_view (fst (Write_plain x b r)) = ar_view x.
Proof.
  pose proof (startPlain_view x) as E. unfold Write_plain.
  destruct (startPlain x) as [w1 [e |]]; [exact E |].
  destruct (0 <? len r); [| exact E].
  unfold rw_Write. destruct (sink_Write _ _) as [n [d |]]; exact E.
Qed.

Lemma Write_gzip_view x b r :
  ar_view (fst (Write_gzip x b r)) = ar_view (fst (startGzip x)).
Proof.
  unfold Write_gzip.
  destruct (startGzip x) as [w1 [e |]]; [reflexivity |].
  destruct (0 <? len r); [| reflexivity].
  unfold gw_Write. destruct (gz_Write _ _) as [n [d |]]; reflexivity.
Qed.

Lemma ar_kept_view k a w w' :
  ar_view w' = ar_view w -> ar_kept k a w -> ar_kept k a w'.
Proof.
  unfold ar_view, ar_kept. intros [= E1 E2 E3]. rewrite E1, E2, E3. tauto.
Qed.

Lemma ar_kept_startGzip k a x :
  gw x = None -> buf x <> [] -> ar_kept k a x ->
  forall w', ar_view w' = ar_view (fst (startGzip x)) -> ar_kept k a w'.
Proof.
  intros Hg Hb [Hk Ha] w' E. rewrite startGzip_view in E.
  assert (Hp : (0 <? len (buf x)) = true).
  { apply Z.ltb_lt. pose proof (len_nonneg (buf x)).
    destruct (Z.eq_dec (len (buf x)) 0) as [Z0 |]; [| lia].
    apply len_zero_nil in Z0. contradiction. }
  rewrite Hp in E. unfold ar_view in E. injection E as E1 E2 E3.
  unfold ar_kept. rewrite E1, E2, E3, Hk, Ha, Hg.
  split; reflexivity.
Qed.

Lemma absorb_nonempty w b :
  wf w -> undecided w -> b <> [] -> waits (absorb w b) = false ->
  buf (absorb w b) <> [].
Proof.
  intros (Hcap & _) _ Hb Hw.
  destruct (absorb_cases w b Hcap) as [[E _] | [E _]].
  - rewrite E. intros H. apply app_eq_nil in H as [_ H]. contradiction.
  - intros H. rewrite H, len_nil in E. pose proof (cap_ge (absorb w b)).
    change (cap (absorb w b)) with (cap w) in *. lia.
Qed.

Lemma step_ar_kept k a w c :
  is_close c = false -> is_empty_write c = false ->
  is_header_edit c = false ->
  wf w -> ar_kept k a w -> ar_kept k a (step w c).
Proof.
  intros Hc He Hh Hwf Hk.
  destruct c as [b | s | | | f]; simpl in *; try discriminate.
  - destruct (modes w) as [[g Hg] | [[Hg Hi] | Hu]].
    + rewrite (Write_compressed _ _ _ Hg). exact Hk.
    + rewrite (Write_passthrough _ _ Hg Hi). exact Hk.
    + pose proof Hu as [Hg Hi].
      assert (Hb : b <> []) by (destruct b; [discriminate | discriminate]).
      rewrite (Write_undecided _ _ Hu). cbv zeta.
      destruct (waits _) eqn:Ew; [exact Hk |].
      pose proof (absorb_nonempty w b Hwf Hu Hb Ew) as Hne.
      destruct (eligible _ _).
      * apply (ar_kept_startGzip k a (note_type (absorb w b))).
        -- destruct (note_type_fields (absorb w b)) as (_ & -> & _). exact Hg.
        -- destruct (note_type_fields (absorb w b)) as (-> & _). exact Hne.
        -- apply (ar_kept_view k a w); [| exact Hk].
           rewrite note_type_view. reflexivity.
        -- apply Write_gzip_view.
      * apply (ar_kept_view k a w); [| exact Hk].
        rewrite Write_plain_view.
        destruct (_ && _); [rewrite note_type_view |]; reflexivity.
  - unfold WriteHeader. destruct (code w =? 0); exact Hk.
  - destruct (modes w) as [[g Hg] | [[Hg Hi] | Hu]].
    + rewrite Flush_decided by (left; congruence).
      apply (ar_kept_view k a w); [apply Flush_forward_view | exact Hk].
    + rewrite Flush_decided by (right; assumption).
      apply (ar_kept_view k a w); [apply Flush_forward_view | exact Hk].
    + pose proof Hu as [Hg Hi].
      destruct (buf w) as [| x l] eqn:Hb.
      * rewrite Flush_undecided_empty by assumption. exact Hk.
      * rewrite Flush_undecided by (try assumption; rewrite Hb; discriminate).
        destruct (eligible _ _).
        -- apply (ar_kept_startGzip k a (note_type w)).
           ++ destruct (note_type_fields w) as (_ & -> & _). exact Hg.
           ++ destruct (note_type_fields w) as (-> & _). rewrite Hb.
              discriminate.
           ++ apply (ar_kept_view k a w); [apply note_type_view | exact Hk].
           ++ apply Flush_forward_view.
        -- apply (ar_kept_view k a w); [| exact Hk].
           rewrite Flush_forward_view, startPlain_view. apply note_type_view.
Qed.

Lemma run_ar_kept k a cs : forall w,
  no_close cs = true -> no_empty_write cs = true -> no_edit cs = true ->
  wf w -> ar_kept k a w -> ar_kept k a (run cs w).
Proof.
  induction cs as [| c cs IH]; intros w Hc He Hh Hwf Hk; [exact Hk |].
  simpl in Hc, He, Hh.
  apply andb_true_iff in Hc as [Hc Hcs].
  apply andb_true_iff in He as [He Hes].
  apply andb_true_iff in Hh as [Hh Hhs].
  apply negb_true_iff in Hc, He, Hh.
  apply (IH (step w c)); try assumption.
  - apply step_wf, Hwf.
  - apply step_ar_kept; assumption.
Qed.

(** X17.  A handler that leaves the header map alone, never calls Close
    itself and never writes an empty slice: when the deferred Close has
    run, Accept-Ranges is gone from the header map if a compressor was
    built and the wrapper was not configured to keep it, and is as the
    handler found it in every other case. *)
Theorem accept_ranges_go_with_compression
  (c : config) (h : Header) (cs : list call) :
  no_close cs = true -> no_empty_write cs = true -> no_edit cs = true ->
  let w := fst (Close (run cs (newWriter c h))) in
  hdr w !! acceptRanges
  = if compressed (log w) && negb (c_keepAcceptRanges c) then None
    else h !! acceptRanges.
Proof.
  intros Hc He Hh.
  pose proof (run_gz_running cs (newWriter c h) Hc (newWriter_wf c h)) as Hrun.
  destruct Hrun as [Hrun _]; [left; split; reflexivity |].
  pose proof (run_ar_kept (c_keepAcceptRanges c) (h !! acceptRanges) cs
                (newWriter c h) Hc He Hh (newWriter_wf c h)) as Hk.
  destruct Hk as [_ Hk]; [split; reflexivity |].
  pose proof (run_wf cs (newWriter c h) (newWriter_wf c h)) as Hwf.
  set (w := run cs (newWriter c h)) in *. cbv zeta.
  unfold compressed, Close.
  destruct (ignore w) eqn:Hi.
  - destruct Hwf as (_ & Hg & _). cbn [fst].
    destruct Hrun as [[Hn Hz] | [Hn _]].
    + rewrite Hz, Hn in *. exact Hk.
    + destruct (Hg Hn) as [_ Hi']. congruence.
  - destruct Hrun as [[Hn Hz] | (Hn & mid & Hm & _)].
    + rewrite Hn in *.
      assert (E := startPlain_view w).
      destruct (startPlain_log w) as (evs & Hl & Hgz & _).
      destruct (startPlain w) as [w1 e]. cbn [fst] in *.
      unfold ar_view in E. injection E as _ E _.
      rewrite E, Hl, gz_events_app, Hz, Hgz. exact Hk.
    + destruct (gw w) as [g |] eqn:Eg; [| congruence]. cbn [fst].
      change (hdr (set_gw None (emit (GzClose (gz_Close (log w))) w)))
        with (hdr w).
      change (log (set_gw None (emit (GzClose (gz_Close (log w))) w)))
        with (log w ++ [GzClose (gz_Close (log w))]).
      rewrite gz_events_app, Hm. simpl.
      rewrite Hk. destruct (c_keepAcceptRanges c); reflexivity.
Qed.

End Ranges.

Section Coding.

Context {L : GoLib} {D : Downstreams}.

Lemma note_type_has x : Header_has (hdr (note_type x)) contentType = true.
Proof.
  unfold note_type. destruct (Header_has (hdr x) contentType) eqn:E; simpl.
  - exact E.
  - unfold Header_has, Header_Set. now rewrite lookup_insert_eq.
Qed.

Lemma same_coding_note h0 x :
  same_coding h0 (hdr x) -> same_coding h0 (hdr (note_type x)).
Proof.
  unfold note_type, same_coding. destruct (negb _); [| tauto]. simpl.
  unfold Header_Set. rewrite !lookup_insert_ne by discriminate. tauto.
Qed.

Lemma same_coding_plain h0 x :
  same_coding h0 (hdr x) -> same_coding h0 (hdr (fst (startPlain x))).
Proof.
  destruct (startPlain_fields x) as (_ & _ & _ & _ & _ & ->).
  unfold same_coding, Header_Del.
  rewrite !lookup_delete_ne by discriminate. tauto.
Qed.

Lemma gzip_headers_start x :
  Header_has (hdr x) contentType = true ->
  gzip_headers (hdr (fst (startGzip x))).
Proof.
  intros H. destruct (startGzip_headers x) as [H1 H2].
  split; [exact H1 |]. split; [exact H2 |].
  rewrite startGzip_hdr. cbv zeta. unfold Header_has, Header_Del, Header_Set in *.
  destruct (negb _);
    rewrite ?lookup_delete_ne, lookup_insert_ne by discriminate; exact H.
Qed.

Lemma coded_same h0 w w' :
  hdr w' = hdr w -> gw w' = gw w -> coded h0 w -> coded h0 w'.
Proof. unfold coded. intros -> ->. tauto. Qed.

Lemma coded_plain h0 x w' :
  gw x = None -> same_coding h0 (hdr x) ->
  hdr w' = Header_Del (hdr x) HeaderNoCompression -> gw w' = gw x ->
  coded h0 w'.
Proof.
  intros Hg Hs Eh Eg. unfold coded. rewrite Eg, Hg, Eh.
  unfold same_coding, Header_Del in *.
  rewrite !lookup_delete_ne by discriminate. exact Hs.
Qed.

Lemma coded_gzip h0 x w' :
  buf x <> [] -> Header_has (hdr x) contentType = true ->
  hdr w' = hdr (fst (startGzip x)) ->
  gw w' = (if 0 <? len (buf x) then Some (GzW (level x)) else gw x) ->
  coded h0 w'.
Proof.
  intros Hb Hh Eh Eg. unfold coded.
  assert (Hp : (0 <? len (buf x)) = true).
  { apply Z.ltb_lt. pose proof (len_nonneg (buf x)).
    destruct (Z.eq_dec (len (buf x)) 0) as [Z0 |]; [| lia].
    apply len_zero_nil in Z0. contradiction. }
  rewrite Eg, Hp, Eh. now apply gzip_headers_start.
Qed.

Lemma step_coded h0 w c :
  is_close c = false -> is_empty_write c = false ->
  is_header_edit c = false ->
  wf w -> coded h0 w -> coded h0 (step w c).
Proof.
  intros Hc He Hh Hwf Hk.
  destruct c as [b | s | | | f]; simpl in *; try discriminate.
  - destruct (modes w) as [[g Hg] | [[Hg Hi] | Hu]].
    + rewrite (Write_compressed _ _ _ Hg). exact Hk.
    + rewrite (Write_passthrough _ _ Hg Hi). exact Hk.
    + pose proof Hu as [Hg Hi].
      assert (Hb : b <> []) by (destruct b; discriminate).
      assert (Hs : same_coding h0 (hdr w))
        by (unfold coded in Hk; now rewrite Hg in Hk).
      rewrite (Write_undecided _ _ Hu). cbv zeta.
      destruct (waits _) eqn:Ew; [exact Hk |].
      pose proof (absorb_nonempty w b Hwf Hu Hb Ew) as Hne.
      destruct (eligible _ _).
      * apply (coded_gzip h0 (note_type (absorb w b))).
        -- destruct (note_type_fields (absorb w b)) as (-> & _). exact Hne.
        -- apply note_type_has.
        -- apply Write_gzip_hdr.
        -- apply Write_gzip_fields.
      * match goal with |- context [Write_plain ?x _ _] =>
          apply (coded_plain h0 x);
            [| | apply Write_plain_fields | apply Write_plain_fields];
            destruct (_ && _)
        end; try exact Hg; try exact Hs.
        -- destruct (note_type_fields (absorb w b)) as (_ & -> & _). exact Hg.
        -- apply (same_coding_note h0 (absorb w b)). exact Hs.
  - unfold WriteHeader. destruct (code w =? 0); exact Hk.
  - destruct (modes w) as [[g Hg] | [[Hg Hi] | Hu]].
    + rewrite Flush_decided by (left; congruence).
      apply (coded_same h0 w); [apply Flush_forward_fields ..| exact Hk].
    + rewrite Flush_decided by (right; assumption).
      apply (coded_same h0 w); [apply Flush_forward_fields ..| exact Hk].
    + pose proof Hu as [Hg Hi].
      assert (Hs : same_coding h0 (hdr w))
        by (unfold coded in Hk; now rewrite Hg in Hk).
      destruct (buf w) as [| x l] eqn:Hb.
      * rewrite Flush_undecided_empty by assumption. exact Hk.
      * rewrite Flush_undecided by (try assumption; rewrite Hb; discriminate).
        destruct (Flush_forward_fields
                    (fst ((if eligible w (assumed_length w)
                           then startGzip else startPlain) (note_type w))))
          as (_ & Fg & _ & _ & _ & Fh).
        destruct (note_type_fields w) as (Nb & Ng & _).
        destruct (eligible _ _).
        -- apply (coded_gzip h0 (note_type w)).
           ++ rewrite Nb, Hb. discriminate.
           ++ apply note_type_has.
           ++ exact Fh.
           ++ rewrite Fg. apply startGzip_fields.
        -- apply (coded_plain h0 (note_type w)).
           ++ rewrite Ng. exact Hg.
           ++ now apply same_coding_note.
           ++ rewrite Fh. apply startPlain_fields.
           ++ rewrite Fg. apply startPlain_fields.
Qed.

Lemma run_coded h0 cs : forall w,
  no_close cs = true -> no_empty_write cs = true -> no_edit cs = true ->
  wf w -> coded h0 w -> coded h0 (run cs w).
Proof.
  induction cs as [| c cs IH]; intros w Hc He Hh Hwf Hk; [exact Hk |].
  simpl in Hc, He, Hh.
  apply andb_true_iff in Hc as [Hc Hcs].
  apply andb_true_iff in He as [He Hes].
  apply andb_true_iff in Hh as [Hh Hhs].
  apply negb_true_iff in Hc, He, Hh.
  apply (IH (step w c)); try assumption.
  - apply step_wf, Hwf.
  - apply step_coded; assumption.
Qed.

(** X18.  A handler that leaves the header map alone, never calls Close
    itself and never writes an empty slice: when the deferred Close has
    run, a response for which a compressor was built has Content-Encoding
    gzip, no Content-Length and a Content-Type key; a response for which
    none was built has the Content-Encoding and the Content-Length the
    handler found. *)
Theorem response_headers_follow_the_decision
  (c : config) (h : Header) (cs : list call) :
  no_close cs = true -> no_empty_write cs = true -> no_edit cs = true ->
  let w := fst (Close (run cs (newWriter c h))) in
  if compressed (log w) then gzip_headers (hdr w)
  else same_coding h (hdr w).
Proof.
  intros Hc He Hh.
  pose proof (run_gz_running cs (newWriter c h) Hc (newWriter_wf c h)) as Hrun.
  destruct Hrun as [Hrun _]; [left; split; reflexivity |].
  pose proof (run_coded h cs (newWriter c h) Hc He Hh (newWriter_wf c h))
    as Hk.
  assert (Hk0 : coded h (newWriter c h)) by (split; reflexivity).
  specialize (Hk Hk0). clear Hk0.
  pose proof (run_wf cs (newWriter c h) (newWriter_wf c h)) as Hwf.
  set (w := run cs (newWriter c h)) in *. cbv zeta.
  unfold compressed, Close, coded in *.
  destruct (ignore w) eqn:Hi.
  - destruct Hwf as (_ & Hg & _). cbn [fst].
    destruct Hrun as [[Hn Hz] | [Hn _]].
    + rewrite Hz. rewrite Hn in Hk. exact Hk.
    + destruct (Hg Hn) as [_ Hi']. congruence.
  - destruct Hrun as [[Hn Hz] | (Hn & mid & Hm & _)].
    + rewrite Hn in *.
      pose proof (same_coding_plain h w Hk) as E.
      destruct (startPlain_log w) as (evs & Hl & Hgz & _).
      destruct (startPlain w) as [w1 e]. cbn [fst] in *.
      rewrite Hl, gz_events_app, Hz, Hgz. exact E.
    + destruct (gw w) as [g |] eqn:Eg; [| congruence]. cbn [fst].
      change (hdr (set_gw None (emit (GzClose (gz_Close (log w))) w)))
        with (hdr w).
      change (log (set_gw None (emit (GzClose (gz_Close (log w))) w)))
        with (log w ++ [GzClose (gz_Close (log w))]).
      rewrite gz_events_app, Hm. simpl. exact Hk.
Qed.

End Coding.

(** ** Examples of the further properties *)

Lemma status_committed_once_and_first_witness :
  let w := fst (Close (L := lib_ex) (D := ideal)
                 (run (L := lib_ex) (D := ideal)
                    [CallWriteHeader 404; CallWrite (text 2); CallFlush;
                     CallWriteHeader 500; CallWrite (text 3)]
                    (newWriter cfg_ex ∅))) in
  status_first (log w) /\ (length (status_commits (log w)) <= 1)%nat.
Proof.
  apply (status_committed_once_and_first (L := lib_ex) (D := ideal));
    reflexivity.
Defined.

Lemma written_bytes_go_one_way_witness :
  let cs := [CallWrite (text 2); CallFlush; CallWrite (text 3)] in
  let w := fst (Close (L := lib_ex) (D := ideal)
                 (run (L := lib_ex) (D := ideal) cs (newWriter cfg_ex ∅))) in
  (gz_fed (log w) = written cs /\ sink_fed (log w) = [])
  \/ (sink_fed (log w) = written cs /\ gz_fed (log w) = []).
Proof.
  apply (written_bytes_go_one_way (L := lib_ex) (D := ideal)).
  - intros l b. split; reflexivity.
  - reflexivity.
Defined.

Lemma one_compressor_closed_once_witness :
  gz_life (c_level cfg_ex)
    (log (fst (Close (L := lib_ex) (D := ideal)
                 (run (L := lib_ex) (D := ideal)
                    [CallWrite (text 6); CallFlush; CallWrite (text 1)]
                    (newWriter cfg_ex ∅))))).
Proof.
  apply (one_compressor_closed_once (L := lib_ex) (D := ideal)). reflexivity.
Defined.

Lemma writer_keeps_to_its_headers_witness :
  let w := newWriter cfg_ex (Header_Set ∅ vary acceptEncoding) in
  hdr (step (L := lib_ex) (D := ideal) w (CallWrite (text 6))) !! vary
  = hdr w !! vary.
Proof.
  intros w.
  apply (proj1 (writer_keeps_to_its_headers (L := lib_ex) (D := ideal)
                  w (CallWrite (text 6)) eq_refl)).
  unfold own_keys. simpl. intros [H | [H | [H | [H | [H | []]]]]];
    discriminate H.
Defined.

Lemma wrapper_asks_for_a_gzip_entry_witness :
  snd (ServeHTTP (L := lib_ex) (D := ideal) cfg_ex
         (mkRequest "GET" (Header_Set ∅ acceptEncoding "deflate, br")) ∅
         [CallWrite (text 6)]) = None
  /\ snd (ServeHTTP (L := lib_ex) (D := ideal) cfg_ex
            (mkRequest "GET" (Header_Set ∅ acceptEncoding " GZip , deflate")) ∅
            [CallWrite (text 6)])
     = Some (Close (L := lib_ex) (D := ideal)
               (run (L := lib_ex) (D := ideal) [CallWrite (text 6)]
                  (newWriter cfg_ex (Header_Add ∅ vary acceptEncoding)))).
Proof.
  split.
  - apply (proj1 (proj2 (wrapper_asks_for_a_gzip_entry (L := lib_ex) (D := ideal)
                    cfg_ex
                    (mkRequest "GET" (Header_Set ∅ acceptEncoding "deflate, br"))
                    ∅ [CallWrite (text 6)]))).
    right. vm_compute. repeat constructor; discriminate.
  - assert (Hm : Method (mkRequest "GET"
                           (Header_Set ∅ acceptEncoding " GZip , deflate"))
                 <> MethodHead) by discriminate.
    apply (proj2 (proj2 (wrapper_asks_for_a_gzip_entry (L := lib_ex) (D := ideal)
                    cfg_ex
                    (mkRequest "GET"
                       (Header_Set ∅ acceptEncoding " GZip , deflate"))
                    ∅ [CallWrite (text 6)]))
             Hm "GZip " [" deflate"]);
      vm_compute; reflexivity.
Defined.

Lemma response_without_body_witness :
  let w := run (L := lib_ex) (D := ideal)
             [CallWriteHeader 304; CallFlush] (newWriter cfg_ex ∅) in
  snd (Close (L := lib_ex) (D := ideal) w) = None
  /\ log (fst (Close (L := lib_ex) (D := ideal) w)) = code_event w
  /\ plain (fst (Close (L := lib_ex) (D := ideal) w))
  /\ hdr (fst (Close (L := lib_ex) (D := ideal) w))
     = Header_Del (hdr w) HeaderNoCompression.
Proof.
  apply (response_without_body (L := lib_ex) (D := ideal)). reflexivity.
Defined.

Lemma small_response_is_sent_whole_at_close_witness :
  let cs := [CallWrite (text 1); CallWriteHeader 200; CallWrite (text 2)] in
  let w := run (L := lib_ex) (D := ideal) cs (newWriter cfg_ex ∅) in
  log w = [] /\ buf w = written cs /\ undecided w
  /\ plain (fst (Close (L := lib_ex) (D := ideal) w))
  /\ hdr (fst (Close (L := lib_ex) (D := ideal) w))
     = Header_Del ∅ HeaderNoCompression
  /\ exists n e,
       log (fst (Close (L := lib_ex) (D := ideal) w)) =
         code_event w
         ++ (if len (written cs) =? 0 then []
             else [SinkWrite (written cs)
                     (Header_Del ∅ HeaderNoCompression) n e]).
Proof.
  apply (small_response_is_sent_whole_at_close (L := lib_ex) (D := ideal)
           cfg_ex ∅ [CallWrite (text 1); CallWriteHeader 200; CallWrite (text 2)]).
  - reflexivity.
  - vm_compute. reflexivity.
  - vm_compute. reflexivity.
  - vm_compute. reflexivity.
Defined.

Lemma undecided_write_reports_all_or_nothing_witness :
  snd (Write (L := lib_ex) (D := broken) (newWriter cfg_ex ∅) (text 6))
  = (len (text 6), None)
  \/ exists e,
       snd (Write (L := lib_ex) (D := broken) (newWriter cfg_ex ∅) (text 6))
       = (0, Some e).
Proof.
  apply (undecided_write_reports_all_or_nothing (L := lib_ex) (D := broken)).
  split; reflexivity.
Defined.

Lemma short_write_fails_the_commit_witness :
  let w := run (L := lib_ex) (D := short) [CallWrite (text 3)]
             (newWriter cfg_ex ∅) in
  snd (Close (L := lib_ex) (D := short) w)
  = Some (errorf_close (L := lib_ex) ErrShortWrite).
Proof.
  intros w.
  assert (Hu : undecided w) by (split; vm_compute; reflexivity).
  assert (Hb : buf w <> []) by (vm_compute; discriminate).
  assert (Hs : sink_Write (Downstreams := short)
                 (log (flush_code w)) (buf w) = (2, None))
    by (vm_compute; reflexivity).
  assert (Hn : 2 < len (buf w)) by (vm_compute; reflexivity).
  exact (proj1 (short_write_fails_the_commit (L := lib_ex) (D := short)
                  w 2 Hu Hb Hs Hn)).
Defined.

Lemma atoi_short_strings_witness :
  (snd (atoi (L := lib_ex) "-1500") = true <->
   signless "-1500" <> "" /\ allDigits (signless "-1500") = true)
  /\ (snd (atoi (L := lib_ex) "-1500") = false ->
      fst (atoi (L := lib_ex) "-1500") = 0)
  /\ Z.abs (fst (atoi (L := lib_ex) "-1500")) < 10 ^ 18
  /\ (if is_byte (first_byte "-1500") "-"
      then fst (atoi (L := lib_ex) "-1500") <= 0
      else 0 <= fst (atoi (L := lib_ex) "-1500")).
Proof.
  apply (atoi_short_strings (L := lib_ex) "-1500"). simpl. lia.
Defined.

Lemma unparsed_lists_are_all_or_nothing_witness :
  c_contentTypes (ContentTypes (M := mime_ex) [""; "  "] cfg_ex) "text/html" = true
  /\ c_contentTypes (ExceptContentTypes (M := mime_ex) [""; "  "] cfg_ex) "text/html" = false.
Proof.
  apply (unparsed_lists_are_all_or_nothing (M := mime_ex)).
  intros v [<-|[<-|[]]]; vm_compute; discriminate.
Defined.

Lemma accept_ranges_go_with_compression_witness :
  let h := Header_Set ∅ acceptRanges "bytes" in
  let cs := [CallWrite (text 6)] in
  let w := fst (Close (L := lib_ex) (D := ideal)
                  (run (L := lib_ex) (D := ideal) cs (newWriter cfg_ex h))) in
  hdr w !! acceptRanges
  = if compressed (log w) && negb (c_keepAcceptRanges cfg_ex) then None
    else h !! acceptRanges.
Proof.
  apply (accept_ranges_go_with_compression (L := lib_ex) (D := ideal));
    reflexivity.
Defined.

Lemma response_headers_follow_the_decision_witness :
  let h := Header_Set ∅ contentLength "6" in
  let cs := [CallWrite (text 3); CallFlush; CallWrite (text 3)] in
  let w := fst (Close (L := lib_ex) (D := ideal)
                  (run (L := lib_ex) (D := ideal) cs (newWriter cfg_ex h))) in
  if compressed (log w) then gzip_headers (hdr w)
  else same_coding h (hdr w).
Proof.
  apply (response_headers_follow_the_decision (L := lib_ex) (D := ideal));
    reflexivity.
Defined.

End gzhttp.
